(* ===================================================================== *)
(* Google Meet caption detector: incremental caption extraction and      *)
(* dispatch pipeline (class GoogleMeetCaptionDetector).                  *)
(*                                                                       *)
(* The detector object, the browser timer pool and the calls made to     *)
(* the translation client are modelled as an explicit state; every       *)
(* method of the class is a function on that state.                      *)
(* ===================================================================== *)

From stdpp Require Import base gmap strings list.
From Stdlib Require Import Ascii String ZArith QArith.

Local Open Scope Z_scope.
Local Open Scope string_scope.

(* ===================================================================== *)
(* 1. JavaScript string primitives used by the detector                  *)
(* ===================================================================== *)

(* A character is one code unit; the model covers the code units
   U+0000..U+00FF, which is what [ascii] can hold. *)
Module JsString.

Definition code (c : ascii) : N := N_of_ascii c.

(* WhiteSpace and LineTerminator code points below U+0100: TAB, LF, VT,
   FF, CR, SPACE and NO-BREAK SPACE. Used by trim() and by \s. *)
Definition isWhiteSpace (c : ascii) : bool :=
  let n := code c in
  ((9 <=? n) && (n <=? 13))%N || (n =? 32)%N || (n =? 160)%N.

(* String.prototype.toLowerCase on one code unit: A-Z, and the Latin-1
   capitals U+00C0..U+00DE except the multiplication sign U+00D7. *)
Definition lowerChar (c : ascii) : ascii :=
  let n := code c in
  if ((65 <=? n) && (n <=? 90))%N then ascii_of_N (n + 32)
  else if ((192 <=? n) && (n <=? 222) && negb (n =? 215))%N
       then ascii_of_N (n + 32)
  else c.

(* On the code units of the model toLowerCase maps unit by unit. Beyond
   U+00FF it does not: it is context-sensitive (a capital sigma at the end
   of a word) and may change the number of units. Such texts are outside
   the model, and no theorem below takes the unit-by-unit form for
   granted: where a statement needs it, it is a hypothesis
   ([lowersSeparately]). *)
Fixpoint toLowerCase (s : string) : string :=
  match s with
  | EmptyString => EmptyString
  | String c r => String (lowerChar c) (toLowerCase r)
  end.

(* s.replace(/[...]/g, '') for a character class given as a predicate. *)
Fixpoint removeAll (cls : ascii -> bool) (s : string) : string :=
  match s with
  | EmptyString => EmptyString
  | String c r => if cls c then removeAll cls r else String c (removeAll cls r)
  end.

Fixpoint trimStart (s : string) : string :=
  match s with
  | EmptyString => EmptyString
  | String c r => if isWhiteSpace c then trimStart r else s
  end.

Fixpoint trimEnd (s : string) : string :=
  match s with
  | EmptyString => EmptyString
  | String c r =>
      match trimEnd r with
      | EmptyString => if isWhiteSpace c then EmptyString else String c EmptyString
      | r' => String c r'
      end
  end.

Definition trim (s : string) : string := trimEnd (trimStart s).

(* s.substring(n): the code units from index n on; n past the end gives
   the empty string. *)
Fixpoint substringFrom (n : nat) (s : string) : string :=
  match n, s with
  | O, _ => s
  | S _, EmptyString => EmptyString
  | S n', String _ r => substringFrom n' r
  end.

(* s.startsWith(p) *)
Definition startsWith (s p : string) : bool := String.prefix p s.

Definition isEmpty (s : string) : bool :=
  match s with EmptyString => true | _ => false end.

(* Truthiness of a string value: only the empty string is falsy. *)
Definition truthy (s : string) : bool := negb (isEmpty s).

Fixpoint existsChar (p : ascii -> bool) (s : string) : bool :=
  match s with
  | EmptyString => false
  | String c r => p c || existsChar p r
  end.

Fixpoint forallChar (p : ascii -> bool) (s : string) : bool :=
  match s with
  | EmptyString => true
  | String c r => p c && forallChar p r
  end.

Definition eqb (a b : string) : bool := bool_decide (a = b).

End JsString.

Import JsString.

(* ===================================================================== *)
(* 2. Text differ and caption validity                                   *)
(* ===================================================================== *)

(* The character class [.,!?;:] *)
Definition isStrippedPunctuation (c : ascii) : bool :=
  let n := code c in
  ((n =? 46) || (n =? 44) || (n =? 33) || (n =? 63) || (n =? 59) || (n =? 58))%N.

(* const normalizeText = (text) =>
     text.replace(/[.,!?;:]/g, '').toLowerCase().trim(); *)
Definition normalizeText (text : string) : string :=
  trim (toLowerCase (removeAll isStrippedPunctuation text)).

Definition extractNewWords (previousText currentText : string) : string :=
  if negb (truthy previousText) then currentText
  else
    let normalizedPrevious := normalizeText previousText in
    let normalizedCurrent := normalizeText currentText in
    if (String.length normalizedCurrent <=? String.length normalizedPrevious)%nat
    then ""
    else if negb (startsWith normalizedCurrent normalizedPrevious) then ""
    else
      let newPart := trim (substringFrom (String.length previousText) currentText) in
      if (2 <=? String.length newPart)%nat then newPart else "".


(* A-Z *)
Definition isAsciiCapital (c : ascii) : bool :=
  let n := code c in ((65 <=? n) && (n <=? 90))%N.

(* /[a-zA-Z]/ *)
Definition isAsciiLetter (c : ascii) : bool :=
  let n := code c in
  (((65 <=? n) && (n <=? 90)) || ((97 <=? n) && (n <=? 122)))%N.

(* The class [0-9\s.,!?\-'] *)
Definition isNumberOrPunctuation (c : ascii) : bool :=
  let n := code c in
  ((48 <=? n) && (n <=? 57))%N || isWhiteSpace c ||
  ((n =? 46) || (n =? 44) || (n =? 33) || (n =? 63) || (n =? 45) || (n =? 39))%N.

Definition isValidClosedCaption (text : string) : bool :=
  if negb (truthy text) || (String.length (trim text) =? 0)%nat then false
  else
    let hasLetters := existsChar isAsciiLetter text in
    let isLongEnough := (3 <=? String.length text)%nat in
    let notJustNumbers := negb (forallChar isNumberOrPunctuation text) in
    hasLetters && isLongEnough && notJustNumbers.

(* ===================================================================== *)
(* 3. Data model                                                         *)
(* ===================================================================== *)

(* A DOM node is only ever compared by reference (===). *)
Definition Element := positive.

(* Handles returned by setTimeout and setInterval: positive numbers, hence
   always truthy. *)
Definition TimerId := positive.

(* The functions handed to setTimeout and setInterval. *)
Inductive Callback : Type :=
| CbProcessWordBuffer   (* () => { this.processWordBuffer(); } *)
| CbIntervalCheck       (* the 250 ms poll of startCaptionDetection *)
| CbMutationCheck       (* the delayed check of the MutationObserver *)
| CbHideOverlay.        (* () => { this.hideOverlay(); } *)

#[global] Instance Callback_eq_dec : EqDecision Callback.
Proof. solve_decision. Defined.

(* A pending timer; [period] is set for setInterval timers. *)
Record Timer : Type := mkTimer {
  tid : TimerId;
  due : Z;
  period : option Z;
  callback : Callback
}.

(* The overlay element: the two text spans and style.display. *)
Record Overlay : Type := mkOverlay {
  shownOriginal : string;
  shownTranslated : string;
  visible : bool
}.

(* The argument of displayTranslation. *)
Record TranslationData : Type := mkTranslationData {
  originalText : string;
  translatedText : string;
  confidence : Q
}.

(* The detector object (first group of fields, named as in the class) and
   the part of the browser it acts on (second group). *)
Record World : Type := mkWorld {
  isMonitoring : bool;
  lastProcessedText : string;
  processedWords : gset string;
  translationOverlay : option Overlay;
  targetLanguage : string;
  isConnected : bool;
  observer : bool;                       (* a connected MutationObserver is held *)
  checkInterval : option TimerId;
  monitoringActive : bool;
  lastTranslationTime : Z;
  wordBuffer : string;
  bufferTimeout : option TimerId;
  processedTexts : gset string;
  skippedTexts : gset string;
  isFirstCaption : bool;
  lastSeenCaptionElement : option Element;

  clock : Z;                             (* Date.now() *)
  timers : list Timer;                   (* pending timers, oldest first *)
  nextTimerId : TimerId;
  caption : option (Element * string);   (* newest caption node of the page
                                            and its trimmed textContent *)
  sendCalls : list string;               (* arguments of the calls of
                                            sendForTranslation, oldest first *)
  inflight : list string                 (* fetches not yet settled *)
}.

(* Field updates: [set_f v w] is the assignment  f = v. *)

Definition set_isMonitoring (v : bool) (w : World) : World :=
  mkWorld v (lastProcessedText w) (processedWords w) (translationOverlay w)
    (targetLanguage w) (isConnected w) (observer w) (checkInterval w)
    (monitoringActive w) (lastTranslationTime w) (wordBuffer w)
    (bufferTimeout w) (processedTexts w) (skippedTexts w) (isFirstCaption w)
    (lastSeenCaptionElement w) (clock w) (timers w) (nextTimerId w)
    (caption w) (sendCalls w) (inflight w).

Definition set_lastProcessedText (v : string) (w : World) : World :=
  mkWorld (isMonitoring w) v (processedWords w) (translationOverlay w)
    (targetLanguage w) (isConnected w) (observer w) (checkInterval w)
    (monitoringActive w) (lastTranslationTime w) (wordBuffer w)
    (bufferTimeout w) (processedTexts w) (skippedTexts w) (isFirstCaption w)
    (lastSeenCaptionElement w) (clock w) (timers w) (nextTimerId w)
    (caption w) (sendCalls w) (inflight w).

Definition set_processedWords (v : gset string) (w : World) : World :=
  mkWorld (isMonitoring w) (lastProcessedText w) v (translationOverlay w)
    (targetLanguage w) (isConnected w) (observer w) (checkInterval w)
    (monitoringActive w) (lastTranslationTime w) (wordBuffer w)
    (bufferTimeout w) (processedTexts w) (skippedTexts w) (isFirstCaption w)
    (lastSeenCaptionElement w) (clock w) (timers w) (nextTimerId w)
    (caption w) (sendCalls w) (inflight w).

Definition set_translationOverlay (v : option Overlay) (w : World) : World :=
  mkWorld (isMonitoring w) (lastProcessedText w) (processedWords w) v
    (targetLanguage w) (isConnected w) (observer w) (checkInterval w)
    (monitoringActive w) (lastTranslationTime w) (wordBuffer w)
    (bufferTimeout w) (processedTexts w) (skippedTexts w) (isFirstCaption w)
    (lastSeenCaptionElement w) (clock w) (timers w) (nextTimerId w)
    (caption w) (sendCalls w) (inflight w).

Definition set_targetLanguage (v : string) (w : World) : World :=
  mkWorld (isMonitoring w) (lastProcessedText w) (processedWords w)
    (translationOverlay w) v (isConnected w) (observer w) (checkInterval w)
    (monitoringActive w) (lastTranslationTime w) (wordBuffer w)
    (bufferTimeout w) (processedTexts w) (skippedTexts w) (isFirstCaption w)
    (lastSeenCaptionElement w) (clock w) (timers w) (nextTimerId w)
    (caption w) (sendCalls w) (inflight w).

Definition set_isConnected (v : bool) (w : World) : World :=
  mkWorld (isMonitoring w) (lastProcessedText w) (processedWords w)
    (translationOverlay w) (targetLanguage w) v (observer w)
    (checkInterval w) (monitoringActive w) (lastTranslationTime w)
    (wordBuffer w) (bufferTimeout w) (processedTexts w) (skippedTexts w)
    (isFirstCaption w) (lastSeenCaptionElement w) (clock w) (timers w)
    (nextTimerId w) (caption w) (sendCalls w) (inflight w).

Definition set_observer (v : bool) (w : World) : World :=
  mkWorld (isMonitoring w) (lastProcessedText w) (processedWords w)
    (translationOverlay w) (targetLanguage w) (isConnected w) v
    (checkInterval w) (monitoringActive w) (lastTranslationTime w)
    (wordBuffer w) (bufferTimeout w) (processedTexts w) (skippedTexts w)
    (isFirstCaption w) (lastSeenCaptionElement w) (clock w) (timers w)
    (nextTimerId w) (caption w) (sendCalls w) (inflight w).

Definition set_checkInterval (v : option TimerId) (w : World) : World :=
  mkWorld (isMonitoring w) (lastProcessedText w) (processedWords w)
    (translationOverlay w) (targetLanguage w) (isConnected w) (observer w) v
    (monitoringActive w) (lastTranslationTime w) (wordBuffer w)
    (bufferTimeout w) (processedTexts w) (skippedTexts w) (isFirstCaption w)
    (lastSeenCaptionElement w) (clock w) (timers w) (nextTimerId w)
    (caption w) (sendCalls w) (inflight w).

Definition set_monitoringActive (v : bool) (w : World) : World :=
  mkWorld (isMonitoring w) (lastProcessedText w) (processedWords w)
    (translationOverlay w) (targetLanguage w) (isConnected w) (observer w)
    (checkInterval w) v (lastTranslationTime w) (wordBuffer w)
    (bufferTimeout w) (processedTexts w) (skippedTexts w) (isFirstCaption w)
    (lastSeenCaptionElement w) (clock w) (timers w) (nextTimerId w)
    (caption w) (sendCalls w) (inflight w).

Definition set_lastTranslationTime (v : Z) (w : World) : World :=
  mkWorld (isMonitoring w) (lastProcessedText w) (processedWords w)
    (translationOverlay w) (targetLanguage w) (isConnected w) (observer w)
    (checkInterval w) (monitoringActive w) v (wordBuffer w)
    (bufferTimeout w) (processedTexts w) (skippedTexts w) (isFirstCaption w)
    (lastSeenCaptionElement w) (clock w) (timers w) (nextTimerId w)
    (caption w) (sendCalls w) (inflight w).

Definition set_wordBuffer (v : string) (w : World) : World :=
  mkWorld (isMonitoring w) (lastProcessedText w) (processedWords w)
    (translationOverlay w) (targetLanguage w) (isConnected w) (observer w)
    (checkInterval w) (monitoringActive w) (lastTranslationTime w) v
    (bufferTimeout w) (processedTexts w) (skippedTexts w) (isFirstCaption w)
    (lastSeenCaptionElement w) (clock w) (timers w) (nextTimerId w)
    (caption w) (sendCalls w) (inflight w).

Definition set_bufferTimeout (v : option TimerId) (w : World) : World :=
  mkWorld (isMonitoring w) (lastProcessedText w) (processedWords w)
    (translationOverlay w) (targetLanguage w) (isConnected w) (observer w)
    (checkInterval w) (monitoringActive w) (lastTranslationTime w)
    (wordBuffer w) v (processedTexts w) (skippedTexts w) (isFirstCaption w)
    (lastSeenCaptionElement w) (clock w) (timers w) (nextTimerId w)
    (caption w) (sendCalls w) (inflight w).

Definition set_processedTexts (v : gset string) (w : World) : World :=
  mkWorld (isMonitoring w) (lastProcessedText w) (processedWords w)
    (translationOverlay w) (targetLanguage w) (isConnected w) (observer w)
    (checkInterval w) (monitoringActive w) (lastTranslationTime w)
    (wordBuffer w) (bufferTimeout w) v (skippedTexts w) (isFirstCaption w)
    (lastSeenCaptionElement w) (clock w) (timers w) (nextTimerId w)
    (caption w) (sendCalls w) (inflight w).

Definition set_skippedTexts (v : gset string) (w : World) : World :=
  mkWorld (isMonitoring w) (lastProcessedText w) (processedWords w)
    (translationOverlay w) (targetLanguage w) (isConnected w) (observer w)
    (checkInterval w) (monitoringActive w) (lastTranslationTime w)
    (wordBuffer w) (bufferTimeout w) (processedTexts w) v (isFirstCaption w)
    (lastSeenCaptionElement w) (clock w) (timers w) (nextTimerId w)
    (caption w) (sendCalls w) (inflight w).

Definition set_isFirstCaption (v : bool) (w : World) : World :=
  mkWorld (isMonitoring w) (lastProcessedText w) (processedWords w)
    (translationOverlay w) (targetLanguage w) (isConnected w) (observer w)
    (checkInterval w) (monitoringActive w) (lastTranslationTime w)
    (wordBuffer w) (bufferTimeout w) (processedTexts w) (skippedTexts w) v
    (lastSeenCaptionElement w) (clock w) (timers w) (nextTimerId w)
    (caption w) (sendCalls w) (inflight w).

Definition set_lastSeenCaptionElement (v : option Element) (w : World) : World :=
  mkWorld (isMonitoring w) (lastProcessedText w) (processedWords w)
    (translationOverlay w) (targetLanguage w) (isConnected w) (observer w)
    (checkInterval w) (monitoringActive w) (lastTranslationTime w)
    (wordBuffer w) (bufferTimeout w) (processedTexts w) (skippedTexts w)
    (isFirstCaption w) v (clock w) (timers w) (nextTimerId w) (caption w)
    (sendCalls w) (inflight w).

Definition set_clock (v : Z) (w : World) : World :=
  mkWorld (isMonitoring w) (lastProcessedText w) (processedWords w)
    (translationOverlay w) (targetLanguage w) (isConnected w) (observer w)
    (checkInterval w) (monitoringActive w) (lastTranslationTime w)
    (wordBuffer w) (bufferTimeout w) (processedTexts w) (skippedTexts w)
    (isFirstCaption w) (lastSeenCaptionElement w) v (timers w)
    (nextTimerId w) (caption w) (sendCalls w) (inflight w).

Definition set_timers (v : list Timer) (w : World) : World :=
  mkWorld (isMonitoring w) (lastProcessedText w) (processedWords w)
    (translationOverlay w) (targetLanguage w) (isConnected w) (observer w)
    (checkInterval w) (monitoringActive w) (lastTranslationTime w)
    (wordBuffer w) (bufferTimeout w) (processedTexts w) (skippedTexts w)
    (isFirstCaption w) (lastSeenCaptionElement w) (clock w) v
    (nextTimerId w) (caption w) (sendCalls w) (inflight w).

Definition set_nextTimerId (v : TimerId) (w : World) : World :=
  mkWorld (isMonitoring w) (lastProcessedText w) (processedWords w)
    (translationOverlay w) (targetLanguage w) (isConnected w) (observer w)
    (checkInterval w) (monitoringActive w) (lastTranslationTime w)
    (wordBuffer w) (bufferTimeout w) (processedTexts w) (skippedTexts w)
    (isFirstCaption w) (lastSeenCaptionElement w) (clock w) (timers w) v
    (caption w) (sendCalls w) (inflight w).

Definition set_caption (v : option (Element * string)) (w : World) : World :=
  mkWorld (isMonitoring w) (lastProcessedText w) (processedWords w)
    (translationOverlay w) (targetLanguage w) (isConnected w) (observer w)
    (checkInterval w) (monitoringActive w) (lastTranslationTime w)
    (wordBuffer w) (bufferTimeout w) (processedTexts w) (skippedTexts w)
    (isFirstCaption w) (lastSeenCaptionElement w) (clock w) (timers w)
    (nextTimerId w) v (sendCalls w) (inflight w).

Definition set_sendCalls (v : list string) (w : World) : World :=
  mkWorld (isMonitoring w) (lastProcessedText w) (processedWords w)
    (translationOverlay w) (targetLanguage w) (isConnected w) (observer w)
    (checkInterval w) (monitoringActive w) (lastTranslationTime w)
    (wordBuffer w) (bufferTimeout w) (processedTexts w) (skippedTexts w)
    (isFirstCaption w) (lastSeenCaptionElement w) (clock w) (timers w)
    (nextTimerId w) (caption w) v (inflight w).

Definition set_inflight (v : list string) (w : World) : World :=
  mkWorld (isMonitoring w) (lastProcessedText w) (processedWords w)
    (translationOverlay w) (targetLanguage w) (isConnected w) (observer w)
    (checkInterval w) (monitoringActive w) (lastTranslationTime w)
    (wordBuffer w) (bufferTimeout w) (processedTexts w) (skippedTexts w)
    (isFirstCaption w) (lastSeenCaptionElement w) (clock w) (timers w)
    (nextTimerId w) (caption w) (sendCalls w) v.

(* ===================================================================== *)
(* 4. Browser timers                                                     *)
(* ===================================================================== *)

Definition setTimeout (cb : Callback) (delay : Z) (w : World) : TimerId * World :=
  let id := nextTimerId w in
  (id, set_nextTimerId (Pos.succ id)
         (set_timers (timers w ++ [mkTimer id (clock w + delay) None cb]) w)).

Definition setInterval (cb : Callback) (delay : Z) (w : World) : TimerId * World :=
  let id := nextTimerId w in
  (id, set_nextTimerId (Pos.succ id)
         (set_timers (timers w ++ [mkTimer id (clock w + delay) (Some delay) cb]) w)).

(* clearTimeout and clearInterval share one pool of handles; clearing a
   handle that is not pending does nothing. *)
Definition clearTimeout (id : TimerId) (w : World) : World :=
  set_timers (filter (fun t => tid t ≠ id) (timers w)) w.

Definition clearInterval (id : TimerId) (w : World) : World := clearTimeout id w.

(* The pending timers that will run processWordBuffer. *)
Definition flushTimers (w : World) : list Timer :=
  filter (fun t => callback t = CbProcessWordBuffer) (timers w).

(* ===================================================================== *)
(* 5. Translation client: sendForTranslation and its completion          *)
(* ===================================================================== *)

(* The JSON body of a successful response. A missing or empty text field
   is the empty string, a missing confidence is 0 (all falsy). *)
Record TranslationResult : Type := mkTranslationResult {
  resOriginalText : string;
  resTranslatedText : string;
  resConfidence : Q;
  resAudioData : option (list N)
}.

(* How the fetch of sendForTranslation settles. *)
Inductive FetchOutcome : Type :=
| FetchRejected                                   (* fetch throws: network error *)
| FetchResponded (ok : bool) (body : option TranslationResult).
                                                  (* body None: response.json() throws *)

Inductive AudioAction : Type :=
| NoAudio
| PlayElevenLabsAudio (audioData : list N)
| PlayTranslatedSpeech (text : string).

Definition orElse (s fallback : string) : string := if truthy s then s else fallback.

(* The argument sendForTranslation passes to displayTranslation, by the
   branch taken: response.ok, the else branch, the catch block. *)
Definition translationShown (text : string) (o : FetchOutcome) : TranslationData :=
  match o with
  | FetchResponded true (Some result) =>
      mkTranslationData (orElse (resOriginalText result) text)
        (orElse (resTranslatedText result) "Translation failed")
        (if Qeq_bool (resConfidence result) 0 then 8 # 10 else resConfidence result)
  | FetchResponded false _ =>
      mkTranslationData text ("[Translated: " ++ text ++ "]") (5 # 10)
  | FetchResponded true None | FetchRejected =>
      mkTranslationData text ("[Translation Error: " ++ text ++ "]") (3 # 10)
  end.

Definition audioPlayed (o : FetchOutcome) : AudioAction :=
  match o with
  | FetchResponded true (Some result) =>
      if truthy (resTranslatedText result)
         && negb (JsString.eqb (resTranslatedText result) "Translation failed")
      then match resAudioData result with
           | Some (b :: data) => PlayElevenLabsAudio (b :: data)
           | _ => PlayTranslatedSpeech (resTranslatedText result)
           end
      else NoAudio
  | _ => NoAudio
  end.

Definition hideOverlay (w : World) : World :=
  match translationOverlay w with
  | Some o => set_translationOverlay
                (Some (mkOverlay (shownOriginal o) (shownTranslated o) false)) w
  | None => w
  end.

Definition displayTranslation (data : TranslationData) (w : World) : World :=
  match translationOverlay w with
  | None => w
  | Some _ =>
      let w := set_translationOverlay
                 (Some (mkOverlay (originalText data) (translatedText data) true)) w in
      snd (setTimeout CbHideOverlay 10000 w)
  end.

(* The synchronous part of sendForTranslation: the call is recorded, and
   unless the detector is disconnected a fetch is started. *)
Definition sendForTranslation (text : string) (w : World) : World :=
  let w := set_sendCalls (sendCalls w ++ [text]) w in
  if negb (isConnected w) then w
  else set_inflight (inflight w ++ [text]) w.

Fixpoint removeFirst (text : string) (l : list string) : list string :=
  match l with
  | [] => []
  | x :: r => if JsString.eqb x text then r else x :: removeFirst text r
  end.

(* The rest of sendForTranslation, run when the fetch for [text] settles. *)
Definition fetchSettled (text : string) (o : FetchOutcome) (w : World) : World :=
  if bool_decide (text ∈ inflight w) then
    displayTranslation (translationShown text o)
      (set_inflight (removeFirst text (inflight w)) w)
  else w.

(* ===================================================================== *)
(* 6. Word buffer, throttle and dedup guard                              *)
(* ===================================================================== *)

Definition addToWordBuffer (text : string) (w : World) : World :=
  if bool_decide (text ∈ skippedTexts w) then w
  else if bool_decide (text ∈ processedTexts w) then w
  else
    let w := set_wordBuffer
               (if truthy (wordBuffer w) then wordBuffer w ++ " " ++ text else text) w in
    let w := match bufferTimeout w with
             | Some id => clearTimeout id w
             | None => w
             end in
    let '(id, w) := setTimeout CbProcessWordBuffer 2000 w in
    set_bufferTimeout (Some id) w.

(* processWordBuffer up to the call of the dispatch function: the
   timestamp is taken and the text is marked as processed. *)
Definition markProcessed (w : World) : World :=
  let w := set_lastTranslationTime (clock w) w in
  set_processedTexts ({[wordBuffer w]} ∪ processedTexts w) w.

Definition processWordBuffer (w : World) : World :=
  if (0 <? String.length (trim (wordBuffer w)))%nat then
    if bool_decide (wordBuffer w ∈ skippedTexts w) then set_wordBuffer "" w
    else if bool_decide (wordBuffer w ∈ processedTexts w) then set_wordBuffer "" w
    else
      let now := clock w in
      if (now - lastTranslationTime w <? 2000)%Z then
        let '(id, w) := setTimeout CbProcessWordBuffer 2000 w in
        set_bufferTimeout (Some id) w
      else
        let w := markProcessed w in
        let w := sendForTranslation (wordBuffer w) w in
        set_wordBuffer "" w
  else w.

(* ===================================================================== *)
(* 7. Observation pass, start and stop                                   *)
(* ===================================================================== *)

(* The selector search of checkForClosedCaptions walks the caption nodes
   newest first and keeps the first one whose trimmed text passes
     text && text.length >= 3 && this.isValidClosedCaption(text).
   [caption] holds the newest caption node of the current document. *)
Definition locateCaption (w : World) : option (Element * string) :=
  match caption w with
  | Some (element, text) =>
      if truthy text && (3 <=? String.length text)%nat && isValidClosedCaption text
      then Some (element, text)
      else None
  | None => None
  end.

(* The body of  if (captionContainer && foundText) { ... }. *)
Definition onCaptionFound (captionContainer : Element) (foundText : string)
    (w : World) : World :=
  if isFirstCaption w then
    set_isFirstCaption false (set_lastProcessedText foundText w)
  else if bool_decide (foundText ∈ skippedTexts w) then w
  else if negb (JsString.eqb foundText (lastProcessedText w)) then
    let isSameElement :=
      bool_decide (Some captionContainer = lastSeenCaptionElement w) in
    let w :=
      if isSameElement then
        if (String.length (lastProcessedText w) <? String.length foundText)%nat then
          let newWords := extractNewWords (lastProcessedText w) foundText in
          if truthy newWords && (0 <? String.length (trim newWords))%nat then
            addToWordBuffer newWords (set_lastProcessedText foundText w)
          else
            set_lastProcessedText foundText w
        else w
      else
        addToWordBuffer foundText (set_lastProcessedText foundText w) in
    set_lastSeenCaptionElement (Some captionContainer) w
  else w.

Definition checkForClosedCaptions (w : World) : World :=
  if negb (monitoringActive w) then w
  else
    match locateCaption w with
    | Some (captionContainer, foundText) =>
        if truthy foundText then onCaptionFound captionContainer foundText w else w
    | None => w
    end.

Definition setupMutationObserver (w : World) : World := set_observer true w.

Definition startCaptionDetection (w : World) : World :=
  if isMonitoring w then w
  else
    let w := set_isMonitoring true w in
    let w := set_monitoringActive true w in
    let w := set_processedWords ∅ w in
    let w := set_processedTexts ∅ w in
    let w := set_skippedTexts ∅ w in
    let w := set_isFirstCaption true w in
    let w := set_lastProcessedText "" w in
    let w := set_lastSeenCaptionElement None w in
    let w := setupMutationObserver w in
    let '(id, w) := setInterval CbIntervalCheck 250 w in
    let w := set_checkInterval (Some id) w in
    checkForClosedCaptions w.

Definition stopCaptionDetection (w : World) : World :=
  let w := set_isMonitoring false w in
  let w := set_monitoringActive false w in
  let w := if observer w then set_observer false w else w in
  let w := match checkInterval w with
           | Some id => set_checkInterval None (clearInterval id w)
           | None => w
           end in
  let w := match bufferTimeout w with
           | Some id => set_bufferTimeout None (clearTimeout id w)
           | None => w
           end in
  let w := set_wordBuffer "" w in
  let w := set_processedTexts ∅ w in
  let w := set_skippedTexts ∅ w in
  set_isFirstCaption true w.

(* The MutationObserver callback; [shouldCheck] says whether the batch of
   mutations touched a caption node. *)
Definition onMutations (shouldCheck : bool) (w : World) : World :=
  if negb (observer w) then w
  else if negb (monitoringActive w) then w
  else if shouldCheck then snd (setTimeout CbMutationCheck 2000 w)
  else w.

(* The window message listener of setupMessageListener. *)
Definition onStartMessage (language : string) (w : World) : World :=
  startCaptionDetection (set_targetLanguage (orElse language "es") w).

Definition onStopMessage (w : World) : World := stopCaptionDetection w.

(* ===================================================================== *)
(* 8. Event loop                                                         *)
(* ===================================================================== *)

Definition runCallback (cb : Callback) (w : World) : World :=
  match cb with
  | CbProcessWordBuffer => processWordBuffer w
  | CbIntervalCheck | CbMutationCheck =>
      if monitoringActive w then checkForClosedCaptions w else w
  | CbHideOverlay => hideOverlay w
  end.

Definition findTimer (id : TimerId) (w : World) : option Timer :=
  List.find (fun t => bool_decide (tid t = id)) (timers w).

Definition rearm (id : TimerId) (p : Z) (w : World) : World :=
  set_timers
    (map (fun t => if bool_decide (tid t = id)
                   then mkTimer id (clock w + p) (Some p) (callback t) else t)
         (timers w)) w.

(* A pending timer fires once its delay has elapsed (never early); a
   timeout leaves the pool, an interval is armed again. *)
Definition fireTimer (id : TimerId) (w : World) : World :=
  match findTimer id w with
  | Some t =>
      if (due t <=? clock w)%Z then
        let w := match period t with
                 | None => clearTimeout id w
                 | Some p => rearm id p w
                 end in
        runCallback (callback t) w
      else w
  | None => w
  end.

(* Everything that can happen to a detector on a page. *)
Inductive Event : Type :=
| Tick (t : Z)                                   (* the clock reaches t *)
| Fire (id : TimerId)                            (* a due timer fires *)
| DomChange (c : option (Element * string))      (* the page re-renders *)
| Mutations (shouldCheck : bool)                 (* observer callback *)
| StartMessage (language : string)
| StopMessage
| TestCaptionDetection                           (* public test hook *)
| FetchSettled (text : string) (o : FetchOutcome).

Definition step (e : Event) (w : World) : World :=
  match e with
  | Tick t => if (clock w <=? t)%Z then set_clock t w else w
  | Fire id => fireTimer id w
  | DomChange c => set_caption c w
  | Mutations shouldCheck => onMutations shouldCheck w
  | StartMessage language => onStartMessage language w
  | StopMessage => onStopMessage w
  | TestCaptionDetection => checkForClosedCaptions w
  | FetchSettled text o => fetchSettled text o w
  end.

Definition run (es : list Event) (w : World) : World := fold_left (fun w e => step e w) es w.

(* The detector right after its constructor, on a page whose clock shows
   [t0] and whose newest caption is [c]. *)
Definition initial (t0 : Z) (c : option (Element * string)) : World :=
  mkWorld false "" ∅ (Some (mkOverlay "-" "-" false)) "es" true false None false 0
    "" None ∅ ∅ true None t0 [] 1%positive c [] [].

(* An execution in which every timer fires exactly when it is due: the
   clock never moves past the due time of a pending timer, and [Fire]
   names a pending timer whose delay has elapsed. *)
Fixpoint punctual (es : list Event) (w : World) : bool :=
  match es with
  | [] => true
  | e :: rest =>
      match e with
      | Tick t => (clock w <=? t)%Z && forallb (fun tm => (t <=? due tm)%Z) (timers w)
      | Fire id =>
          match findTimer id w with
          | Some tm => (due tm <=? clock w)%Z
          | None => false
          end
      | _ => true
      end && punctual rest (step e w)
  end.

(* [n] consecutive rounds of the 250 ms poll [id], the first at time [t]. *)
Fixpoint polls (id : TimerId) (t : Z) (n : nat) : list Event :=
  match n with
  | O => []
  | S n' => Tick t :: Fire id :: polls id (t + 250) n'
  end.

(* ===================================================================== *)
(* 9. Properties of executions                                           *)
(* ===================================================================== *)

(* The fields the dedup guard reads and writes. *)
Definition guardView (w : World) : bool * gset string * gset string * list string :=
  (isMonitoring w, processedTexts w, skippedTexts w, sendCalls w).

(* One or more steps of a session seen by the guard: the sets only grow,
   and every new call of sendForTranslation carries a text that was in
   neither set before and is in processedTexts afterwards. *)
Definition dispatchStep (w w' : World) : Prop :=
  isMonitoring w' = isMonitoring w
  ∧ processedTexts w ⊆ processedTexts w'
  ∧ skippedTexts w' = skippedTexts w
  ∧ ∃ sent, sendCalls w' = (sendCalls w ++ sent)%list
            ∧ NoDup sent
            ∧ ∀ x, x ∈ sent →
                (x ∉ processedTexts w) ∧ (x ∉ skippedTexts w) ∧ (x ∈ processedTexts w').

(* The fields the baseline logic reads and writes. *)
Definition baselineView (w : World)
  : bool * bool * string * option (Element * string) * string * list string :=
  (isMonitoring w, isFirstCaption w, lastProcessedText w, caption w,
   wordBuffer w, sendCalls w).

(* A view of the state that does not look at the timer pool, the overlay
   or the pending fetches. *)
Class AuxStable {A : Type} (V : World → A) : Prop := {
  stable_timers : ∀ v w, V (set_timers v w) = V w;
  stable_nextTimerId : ∀ v w, V (set_nextTimerId v w) = V w;
  stable_translationOverlay : ∀ v w, V (set_translationOverlay v w) = V w;
  stable_inflight : ∀ v w, V (set_inflight v w) = V w
}.

(* A session whose baseline has been taken. *)
Definition established (w : World) : Prop :=
  isMonitoring w = true ∧ isFirstCaption w = false.

(* The page never shows a caption text other than [T]. *)
Definition showsOnly (T : string) (e : Event) : Prop :=
  match e with
  | DomChange (Some (_, text)) => text = T
  | _ => True
  end.

(* Nothing is buffered, nothing has been sent beyond [calls], and the only
   text the detector has seen or can see is [T]. *)
Definition quiet (T : string) (calls : list string) (w : World) : Prop :=
  wordBuffer w = ""
  ∧ sendCalls w = calls
  ∧ (isFirstCaption w = true ∨ lastProcessedText w = T)
  ∧ ∀ element text, caption w = Some (element, text) → text = T.

(* Timer handles are handed out in increasing order. *)
Definition wellFormedTimers (w : World) : Prop :=
  ∀ tm, tm ∈ timers w → (tid tm < nextTimerId w)%positive.

(* ===================================================================== *)
(* 10. Concrete sessions                                                 *)
(* ===================================================================== *)

Definition E1 : Element := 11%positive.
Definition E2 : Element := 12%positive.

(* A fresh detector on a page whose caption node E1 reads "Hello". *)
Definition helloPage : World := initial 1000 (Some (E1, "Hello")).

(* Start; the same node E1 then grows to "Hello there" at 1600 ms; the
   poll of 1750 ms sees it; the polls go on until 5750 ms. The poll is
   timer 1, the buffer timeout is timer 2. *)
Definition helloObserved : list Event :=
  [StartMessage "es"] ++ polls 1%positive 1250 2
  ++ [Tick 1600; DomChange (Some (E1, "Hello there"))] ++ polls 1%positive 1750 1.

Definition helloScenario : list Event :=
  helloObserved ++ polls 1%positive 2000 7 ++ [Tick 3750; Fire 2%positive; Fire 1%positive] ++ polls 1%positive 4000 8.

(* A session that has sent the one-word caption "yes" of a second node. *)
Definition yesScenario : list Event :=
  [StartMessage "es"; Tick 1100; DomChange (Some (E2, "yes"))]
  ++ polls 1%positive 1250 8 ++ [Tick 3250; Fire 2%positive; Fire 1%positive].

Definition yesSent : World := run yesScenario helloPage.

(* A session in which node E1 has been seen with "Hello world again" and
   is then re-rendered with the shorter text "Hello world". *)
Definition shrinkScenario : list Event :=
  [StartMessage "es"; Tick 1100; DomChange (Some (E1, "Hello world again"))]
  ++ polls 1%positive 1250 1 ++ [Tick 1300; DomChange (Some (E1, "Hello world"))].

Definition shrunk : World := run shrinkScenario helloPage.

(* A session waiting for its first caption, which then appears. *)
Definition firstCaptionShown : World :=
  run [StartMessage "es"; Tick 1100; DomChange (Some (E1, "Hello"))] (initial 1000 None).

(* A running session with the text "there" in the buffer. *)
Definition thereBuffered : World :=
  addToWordBuffer "there" (run [StartMessage "es"; Tick 1200] helloPage).

(* After "yes" has been sent: another node says "no thanks", then node E2
   shows "yes" once more; the buffer timeout of this round is timer 3. *)
Definition yesAgain : list Event :=
  [Tick 3300; DomChange (Some (E1, "no thanks")); Tick 3500; Fire 1%positive;
   Tick 3600; DomChange (Some (E2, "yes")); Tick 3750; Fire 1%positive]
  ++ polls 1%positive 4000 6 ++ [Tick 5500; Fire 3%positive; Fire 1%positive].

(* The buffer after [text] has been added to it. *)
Definition appendFragment (buffer text : string) : string :=
  if truthy buffer then buffer ++ " " ++ text else text.

(* The session of [helloObserved], in which node E1 was last seen with
   "Hello there". *)
Definition helloThere : World := run helloObserved helloPage.

(* Every pending flush timer is the one the detector holds in
   bufferTimeout. *)
Definition flushOwned (w : World) : Prop :=
  ∀ tm, tm ∈ flushTimers w → bufferTimeout w = Some (tid tm).

(* addToWordBuffer called at time [t]. *)
Definition appendAt (t : Z) (text : string) (w : World) : World :=
  addToWordBuffer text (step (Tick t) w).

(* The flush timer set by an append made at time [t] with handle [id]. *)
Definition flushTimer (id : TimerId) (t : Z) : Timer :=
  mkTimer id (t + 2000) None CbProcessWordBuffer.

(* The timer pool after clearTimeout (or clearInterval) of a handle that
   may be null. *)
Definition cancel (handle : option TimerId) (pool : list Timer) : list Timer :=
  match handle with
  | Some id => filter (λ tm, tid tm ≠ id) pool
  | None => pool
  end.

(* A send that did not succeed: the fetch was rejected, the status was
   not a success, or the body could not be read. *)
Definition failed (o : FetchOutcome) : Prop :=
  match o with
  | FetchRejected => True
  | FetchResponded ok body => ok = false ∨ body = None
  end.

(* The session of [helloScenario] at its end: "Hello there" has been sent
   and its fetch is still pending. *)
Definition helloSent : World := run helloScenario helloPage.

(* ===================================================================== *)
(* 10b. The selector search of checkForClosedCaptions                    *)
(* ===================================================================== *)

(* A DOM node as the search reads it: its identity and its textContent
   (null for some kinds of node). *)
Record Node : Type := mkNode {
  nodeElement : Element;
  textContent : option string
}.

(* The page as the search queries it: the parent container of the caption
   lines, when document.querySelector finds it, with its querySelectorAll,
   and document.querySelectorAll. Matches come in document order. *)
Record Document : Type := mkDocument {
  parentContainer : option (string → list Node);
  querySelectorAll : string → list Node
}.

(* The double quote inside attribute selectors. *)
Definition dq : string := String (ascii_of_nat 34) EmptyString.

Definition captionLineSelector : string :=
  "#yDmH0d > c-wiz > div > div > div.TKU8Od > div.crqnQb > div > div.fJsklc.nulMpf.Didmac.G03iKb.hLkVuf > div > div > div.DtJ7e > div > div > div.nMcdL.bj4p3b > div.ygicle.VbkSUe".

Definition captionSelectors : list string :=
  [ captionLineSelector;
    "div.ygicle.VbkSUe";
    "div.nMcdL.bj4p3b > div.ygicle.VbkSUe";
    "[jsname=" ++ dq ++ "tgaKEf" ++ dq ++ "]";
    "[jsname=" ++ dq ++ "tgaKEf" ++ dq ++ "] span";
    "[jsname=" ++ dq ++ "tgaKEf" ++ dq ++ "] div";
    "[jsname=" ++ dq ++ "r4nke" ++ dq ++ "] span[jsname=" ++ dq ++ "r4nke" ++ dq ++ "]";
    "[jsname=" ++ dq ++ "r4nke" ++ dq ++ "] div[jsname=" ++ dq ++ "r4nke" ++ dq ++ "]";
    "span[jsname=" ++ dq ++ "r4nke" ++ dq ++ "]";
    "div[jsname=" ++ dq ++ "r4nke" ++ dq ++ "]" ].

Definition childSelectors : list string :=
  [ "div.nMcdL.bj4p3b > div.ygicle.VbkSUe";
    "div.ygicle.VbkSUe";
    "div[class*=" ++ dq ++ "ygicle" ++ dq ++ "]";
    "div[class*=" ++ dq ++ "VbkSUe" ++ dq ++ "]" ].

Definition broadSelector : string :=
  "div[class*=" ++ dq ++ "ygicle" ++ dq ++ "], div[class*=" ++ dq ++ "VbkSUe" ++ dq
  ++ "], div[class*=" ++ dq ++ "nMcdL" ++ dq ++ "], div[class*=" ++ dq ++ "bj4p3b" ++ dq ++ "]".

(* text && text.length >= 3 && this.isValidClosedCaption(text) *)
Definition acceptable (text : string) : bool :=
  truthy text && (3 <=? String.length text)%nat && isValidClosedCaption text.

(* text && text.length >= 3 && text.length <= 200
   && this.isValidClosedCaption(text) *)
Definition acceptableBroad (text : string) : bool :=
  truthy text && (3 <=? String.length text)%nat
  && (String.length text <=? 200)%nat && isValidClosedCaption text.

(* element.textContent?.trim() *)
Definition trimmedText (n : Node) : option string := trim <$> textContent n.

(* for (let i = ...; i >= 0; i--): the nodes at the indices below [i],
   highest index first; the first node whose text passes is kept. *)
Fixpoint scanDown (accept : string → bool) (nodes : list Node) (i : nat)
  : option (Element * string) :=
  match i with
  | O => None
  | S j =>
      match nodes !! j with
      | Some n =>
          match trimmedText n with
          | Some text =>
              if accept text then Some (nodeElement n, text)
              else scanDown accept nodes j
          | None => scanDown accept nodes j
          end
      | None => scanDown accept nodes j
      end
  end.

Definition scanNewest (accept : string → bool) (nodes : list Node)
  : option (Element * string) :=
  scanDown accept nodes (List.length nodes).

(* for (const selector of selectors) { ...; if (foundText) break; } *)
Fixpoint searchSelectors (query : string → list Node) (selectors : list string)
  : option (Element * string) :=
  match selectors with
  | [] => None
  | selector :: rest =>
      match scanNewest acceptable (query selector) with
      | Some found => Some found
      | None => searchSelectors query rest
      end
  end.

(* The three stages of the search: the children of the parent container,
   the caption selectors on the whole document, the broad class search. *)
Definition findCaption (doc : Document) : option (Element * string) :=
  let inParent :=
    match parentContainer doc with
    | Some query => searchSelectors query childSelectors
    | None => None
    end in
  match inParent with
  | Some found => Some found
  | None =>
      match searchSelectors (querySelectorAll doc) captionSelectors with
      | Some found => Some found
      | None => scanNewest acceptableBroad (querySelectorAll doc broadSelector)
      end
  end.

(* The node is among the matches of some query the search makes. *)
Definition onPage (doc : Document) (n : Node) : Prop :=
  (∃ query selector, parentContainer doc = Some query
                     ∧ selector ∈ childSelectors ∧ n ∈ query selector)
  ∨ (∃ selector, selector ∈ captionSelectors ∧ n ∈ querySelectorAll doc selector)
  ∨ n ∈ querySelectorAll doc broadSelector.

(* The node carries the text [text] once trimmed, and [accept] passes it. *)
Definition candidate (accept : string → bool) (n : Node) (found : Element * string)
  : Prop :=
  trimmedText n = Some (snd found) ∧ nodeElement n = fst found
  ∧ accept (snd found) = true.

Definition rejected (accept : string → bool) (n : Node) : Prop :=
  ∀ text, trimmedText n = Some text → accept text = false.

(* A page without the parent container whose caption lines, oldest first,
   read "  Hello  " (node E1) and " 12:30 " (node E2), followed by a node
   without text content. *)
Definition samplePage : Document :=
  mkDocument None
    (λ selector,
       if String.eqb selector "div.ygicle.VbkSUe"
       then [mkNode E1 (Some "  Hello  "); mkNode E2 (Some " 12:30 ");
             mkNode 13%positive None]
       else []).

(* The discipline of the timer pool: handles are below the next handle and
   pairwise distinct, every pending flush is the one held in
   bufferTimeout, and a flush is a timeout, not an interval. *)
Definition poolInv (w : World) : Prop :=
  wellFormedTimers w
  ∧ NoDup (tid <$> timers w)
  ∧ flushOwned w
  ∧ ∀ tm, tm ∈ flushTimers w → period tm = None.

(* The dedup records and the log of calls. *)
Definition recordView (w : World)
  : gset string * gset string * gset string * list string :=
  (processedWords w, skippedTexts w, processedTexts w, sendCalls w).

(* Nothing is ever put into skippedTexts or processedWords, and a text is
   recorded in processedTexts only when it is sent. *)
Definition recordInv (w : World) : Prop :=
  skippedTexts w = ∅ ∧ processedWords w = ∅
  ∧ ∀ x, x ∈ processedTexts w → x ∈ sendCalls w.

(* What a stopped detector must keep for nothing to be sent. *)
Definition stoppedView (w : World) : bool * bool * string * list string :=
  (isMonitoring w, monitoringActive w, wordBuffer w, sendCalls w).

Definition isStart (e : Event) : Prop :=
  match e with StartMessage _ => True | _ => False end.

(* The last dispatch lies in the past, and every pending flush is due at
   least 2000 ms after it. *)
Definition dueInv (w : World) : Prop :=
  (lastTranslationTime w <= clock w)%Z
  ∧ ∀ tm, tm ∈ flushTimers w → (lastTranslationTime w + 2000 <= due tm)%Z.

(* The session of [helloObserved] at 3750 ms, when its flush is due. *)
Definition helloDue : list Event :=
  helloObserved ++ polls 1%positive 2000 7 ++ [Tick 3750].

(* The pending timers of the 250 ms poll. *)
Definition pollTimers (w : World) : list Timer :=
  filter (fun t => callback t = CbIntervalCheck) (timers w).

(* The discipline of the poll: monitoring implies monitoringActive, the
   observer is connected exactly while monitoring, the handles in
   bufferTimeout and checkInterval are handles that have been handed out
   and name no timer but a flush and a poll, every pending poll is the
   interval held in checkInterval, nothing else is an interval, and a poll
   is pending exactly while monitoring. *)
Definition pollInv (w : World) : Prop :=
  (isMonitoring w = true → monitoringActive w = true)
  ∧ observer w = isMonitoring w
  ∧ (∀ tm, tm ∈ timers w → bufferTimeout w = Some (tid tm) →
           callback tm = CbProcessWordBuffer)
  ∧ (∀ b, bufferTimeout w = Some b → (b < nextTimerId w)%positive)
  ∧ (∀ c, checkInterval w = Some c → (c < nextTimerId w)%positive)
  ∧ (∀ tm, tm ∈ timers w → checkInterval w = Some (tid tm) →
           callback tm = CbIntervalCheck)
  ∧ (∀ tm, tm ∈ pollTimers w →
           checkInterval w = Some (tid tm) ∧ period tm = Some 250)
  ∧ (∀ tm, tm ∈ timers w → callback tm ≠ CbIntervalCheck → period tm = None)
  ∧ if isMonitoring w then ∃ tm, tm ∈ pollTimers w else pollTimers w = [].

(* destroy. It disconnects the observer and clears the poll, and takes the
   overlay element off the page: the second component says whether it
   did. [observer w] says that an observer is connected; the references
   destroy keeps in observer and checkInterval are read by nothing but a
   later disconnect and clearInterval. monitoringActive, the buffer and
   the pending timeouts are left as they are. *)
Definition destroy (w : World) : World * bool :=
  let w := set_isMonitoring false w in
  let w := if observer w then set_observer false w else w in
  let w := match checkInterval w with
           | Some id => clearInterval id w
           | None => w
           end in
  (w, match translationOverlay w with Some _ => true | None => false end).

(* Everything that can call into the detector: the events of the page, and
   the methods that other scripts and the console reach through
   window.captionDetector and the global hooks. *)
Inductive Call : Type :=
| Page (e : Event)
| Destroy                              (* captionDetector.destroy() *)
| DebugCaptionDetection                (* window.debugCaptionDetection() *)
| TestElevenLabsAudio                  (* window.testElevenLabsAudio() *)
| TestTranslation (text : string).     (* window.testTranslation(text) *)

(* debugCaptionDetection logs the fields and the matches of the selectors
   and then runs a check; testElevenLabsAudio fetches and plays on its own
   and neither reads nor writes a field of the detector; testTranslation
   calls sendForTranslation without going through the buffer. *)
Definition invoke (c : Call) (w : World) : World :=
  match c with
  | Page e => step e w
  | Destroy => fst (destroy w)
  | DebugCaptionDetection => checkForClosedCaptions w
  | TestElevenLabsAudio => w
  | TestTranslation text => sendForTranslation text w
  end.

Definition invokeAll (cs : list Call) (w : World) : World :=
  fold_left (fun w c => invoke c w) cs w.

(* The states a detector can be in: any calls made on a detector that has
   just been constructed. *)
Definition reachable (w : World) : Prop :=
  ∃ t0 c cs, w = invokeAll cs (initial t0 c).

(* The session of [helloObserved], destroyed, and started again at
   2100 ms. *)
Definition restarted : World :=
  invokeAll (map Page helloObserved
             ++ [Destroy; Page (Tick 2100); Page (StartMessage "es")])%list
    helloPage.

(* ===================================================================== *)
(* 11. The text differ                                                   *)
(* ===================================================================== *)

(* Membership in a concrete set, decided by evaluation. *)
Lemma in_by_compute (x : string) (X : gset string) :
  bool_decide (x ∈ X) = true → x ∈ X.
Proof. apply bool_decide_eq_true_1. Qed.

Lemma not_in_by_compute (x : string) (X : gset string) :
  bool_decide (x ∈ X) = false → x ∉ X.
Proof. apply bool_decide_eq_false_1. Qed.

Ltac by_compute :=
  first [apply in_by_compute | apply not_in_by_compute]; vm_compute; reflexivity.

Section Differ.

Implicit Types previousText currentText s p : string.

Lemma startsWith_app s p : startsWith s p = true ↔ ∃ rest, s = p ++ rest.
Proof.
  unfold startsWith. revert s.
  induction p as [|c p IH]; intros s; simpl.
  - split; [intros _; exists s; reflexivity | intros _; destruct s; reflexivity].
  - destruct s as [|d s]; simpl.
    + split; [discriminate | intros [rest H]; discriminate].
    + destruct (Ascii.ascii_dec c d) as [->|Hne].
      * rewrite IH. split; intros [rest H]; exists rest.
        -- by rewrite H.
        -- change (String d s = String d (p ++ rest)) in H. congruence.
      * split; [discriminate | intros [rest H]].
        change (String d s = String c (p ++ rest)) in H. congruence.
Qed.

Lemma truthy_nonempty s : s ≠ "" → truthy s = true.
Proof. destruct s; [congruence | reflexivity]. Qed.

(** C10: with an empty previous text the differ returns the current text
    as it is: nothing is trimmed and the two-character filter is not
    applied, so a one-character text comes back whole. *)
Theorem extractNewWords_empty_previous currentText :
  extractNewWords "" currentText = currentText
  ∧ extractNewWords "" " a " = " a "
  ∧ extractNewWords "" "x" = "x".
Proof. repeat split. Qed.

End Differ.

(* ===================================================================== *)
(* 12. Frame lemmas: what timers, overlay and fetches leave alone        *)
(* ===================================================================== *)

Section Frame.

Context {A : Type} (V : World → A) `{!AuxStable V}.

Lemma frame_setTimeout cb delay w : V (snd (setTimeout cb delay w)) = V w.
Proof. unfold setTimeout; cbn. by rewrite stable_nextTimerId, stable_timers. Qed.

Lemma frame_setInterval cb delay w : V (snd (setInterval cb delay w)) = V w.
Proof. unfold setInterval; cbn. by rewrite stable_nextTimerId, stable_timers. Qed.

Lemma frame_clearTimeout id w : V (clearTimeout id w) = V w.
Proof. unfold clearTimeout. apply stable_timers. Qed.

Lemma frame_rearm id p w : V (rearm id p w) = V w.
Proof. unfold rearm. apply stable_timers. Qed.

Lemma frame_hideOverlay w : V (hideOverlay w) = V w.
Proof. unfold hideOverlay. destruct (translationOverlay w); [apply stable_translationOverlay | done]. Qed.

Lemma frame_displayTranslation data w : V (displayTranslation data w) = V w.
Proof.
  unfold displayTranslation. destruct (translationOverlay w); [|done].
  by rewrite frame_setTimeout, stable_translationOverlay.
Qed.

Lemma frame_fetchSettled text o w : V (fetchSettled text o w) = V w.
Proof.
  unfold fetchSettled. case_bool_decide; [|done].
  by rewrite frame_displayTranslation, stable_inflight.
Qed.

Lemma frame_onMutations shouldCheck w : V (onMutations shouldCheck w) = V w.
Proof.
  unfold onMutations. repeat (case_match; [done|]).
  destruct shouldCheck; [apply frame_setTimeout | done].
Qed.

End Frame.

#[global] Instance guardView_stable : AuxStable guardView.
Proof. split; reflexivity. Qed.

#[global] Instance baselineView_stable : AuxStable baselineView.
Proof. split; reflexivity. Qed.

(* ===================================================================== *)
(* 13. At-most-once dispatch                                             *)
(* ===================================================================== *)

Lemma guardView_addToWordBuffer text w : guardView (addToWordBuffer text w) = guardView w.
Proof.
  unfold addToWordBuffer. repeat case_bool_decide; try reflexivity.
  destruct (bufferTimeout _); reflexivity.
Qed.

Lemma guardView_onCaptionFound el text w :
  guardView (onCaptionFound el text w) = guardView w.
Proof.
  unfold onCaptionFound.
  repeat (case_match; try reflexivity);
    first [ exact (guardView_addToWordBuffer _ (set_lastProcessedText text w))
          | reflexivity ].
Qed.

Lemma guardView_checkForClosedCaptions w :
  guardView (checkForClosedCaptions w) = guardView w.
Proof.
  unfold checkForClosedCaptions.
  repeat (case_match; try reflexivity). apply guardView_onCaptionFound.
Qed.

Lemma startCaptionDetection_monitoring w :
  isMonitoring w = true → startCaptionDetection w = w.
Proof. intros H. unfold startCaptionDetection. rewrite H. reflexivity. Qed.

Lemma guardView_dispatchStep w w' : guardView w' = guardView w → dispatchStep w w'.
Proof.
  unfold guardView, dispatchStep. intros [= HM HP HS HC].
  rewrite HM, HP, HS, HC. split; [done|]. split; [done|]. split; [done|].
  exists []. rewrite app_nil_r. split; [done|]. split; [apply NoDup_nil_2|].
  intros x Hx. inversion Hx.
Qed.

Lemma dispatchStep_refl w : dispatchStep w w.
Proof. by apply guardView_dispatchStep. Qed.

Lemma dispatchStep_trans w1 w2 w3 :
  dispatchStep w1 w2 → dispatchStep w2 w3 → dispatchStep w1 w3.
Proof.
  intros (HM1 & HP1 & HS1 & l1 & HC1 & HN1 & HX1) (HM2 & HP2 & HS2 & l2 & HC2 & HN2 & HX2).
  split; [congruence|]. split; [by etrans|]. split; [congruence|].
  exists (l1 ++ l2)%list.
  split; [rewrite HC2, HC1; by rewrite app_assoc|]. split.
  - apply NoDup_app. split; [done|]. split; [|done].
    intros x Hx1 Hx2. apply HX1 in Hx1. apply HX2 in Hx2. tauto.
  - intros x [Hx|Hx]%elem_of_app.
    + apply HX1 in Hx as (? & ? & ?). auto.
    + apply HX2 in Hx as (Hp & Hs & ?). rewrite <- HS1.
      split; [|by split]. intros Hin. apply Hp, HP1, Hin.
Qed.

Lemma processWordBuffer_dispatchStep w : dispatchStep w (processWordBuffer w).
Proof.
  unfold processWordBuffer.
  destruct (0 <? _)%nat; [|apply dispatchStep_refl].
  case_bool_decide as Hs; [by apply guardView_dispatchStep|].
  case_bool_decide as Hp; [by apply guardView_dispatchStep|].
  destruct (_ <? 2000)%Z; [by apply guardView_dispatchStep|].
  cbv zeta.
  remember (set_wordBuffer "" (sendForTranslation
              (wordBuffer (markProcessed w)) (markProcessed w))) as w' eqn:Hw'.
  assert (Hview : guardView w'
                  = (isMonitoring w, {[wordBuffer w]} ∪ processedTexts w,
                     skippedTexts w, (sendCalls w ++ [wordBuffer w])%list)).
  { subst w'. unfold sendForTranslation. destruct (negb _); reflexivity. }
  unfold dispatchStep. unfold guardView in Hview.
  injection Hview as -> -> -> ->.
  split; [done|]. split; [apply union_subseteq_r|]. split; [done|].
  exists [wordBuffer w]. split; [done|]. split; [apply NoDup_singleton|].
  intros x ->%list_elem_of_singleton.
  split; [done|]. split; [done|]. apply elem_of_union_l, elem_of_singleton_2. done.
Qed.

Lemma runCallback_dispatchStep cb w w' :
  guardView w' = guardView w → dispatchStep w (runCallback cb w').
Proof.
  intros Hv. apply dispatchStep_trans with w'; [by apply guardView_dispatchStep|].
  destruct cb; cbn.
  - apply processWordBuffer_dispatchStep.
  - apply guardView_dispatchStep. destruct (monitoringActive w'); [|done].
    apply guardView_checkForClosedCaptions.
  - apply guardView_dispatchStep. destruct (monitoringActive w'); [|done].
    apply guardView_checkForClosedCaptions.
  - apply guardView_dispatchStep, (frame_hideOverlay guardView).
Qed.

Lemma fireTimer_dispatchStep id w : dispatchStep w (fireTimer id w).
Proof.
  unfold fireTimer. destruct (findTimer id w) as [t|]; [|apply dispatchStep_refl].
  destruct (due t <=? clock w)%Z; [|apply dispatchStep_refl].
  apply runCallback_dispatchStep.
  destruct (period t); [apply (frame_rearm guardView) | apply (frame_clearTimeout guardView)].
Qed.

Lemma step_dispatchStep e w :
  isMonitoring w = true → e ≠ StopMessage → dispatchStep w (step e w).
Proof.
  intros HM He. destruct e; cbn.
  - apply guardView_dispatchStep. destruct (_ <=? _)%Z; reflexivity.
  - apply fireTimer_dispatchStep.
  - by apply guardView_dispatchStep.
  - apply guardView_dispatchStep, (frame_onMutations guardView).
  - apply guardView_dispatchStep. unfold onStartMessage.
    rewrite startCaptionDetection_monitoring by exact HM. reflexivity.
  - congruence.
  - apply guardView_dispatchStep, guardView_checkForClosedCaptions.
  - apply guardView_dispatchStep, (frame_fetchSettled guardView).
Qed.

Lemma run_dispatchStep es w :
  isMonitoring w = true → Forall (λ e, e ≠ StopMessage) es → dispatchStep w (run es w).
Proof.
  revert w. induction es as [|e es IH]; intros w HM Hes; [apply dispatchStep_refl|].
  inversion Hes as [|? ? He Hes']; subst. cbn.
  pose proof (step_dispatchStep e w HM He) as Hstep.
  apply dispatchStep_trans with (step e w); [done|].
  apply IH; [|done]. destruct Hstep as (-> & _). done.
Qed.

(** C1: within one monitoring session (no stop command), a text that is
    in processedTexts or in skippedTexts is never passed to
    sendForTranslation again, whatever the page, the timers and the
    observer do afterwards; and no text is passed to it twice. *)
Theorem no_redispatch (T : string) (w : World) (es : list Event) :
  isMonitoring w = true →
  Forall (λ e, e ≠ StopMessage) es →
  T ∈ processedTexts w ∨ T ∈ skippedTexts w →
  ∃ sent, sendCalls (run es w) = (sendCalls w ++ sent)%list
          ∧ (T ∉ sent) ∧ NoDup sent
          ∧ (T ∈ processedTexts (run es w) ∨ T ∈ skippedTexts (run es w)).
Proof.
  intros HM Hes HT.
  destruct (run_dispatchStep es w HM Hes) as (_ & HP & HS & sent & HC & HN & HX).
  exists sent. split; [done|]. split; [|split; [done|]].
  - intros Hin. apply HX in Hin. tauto.
  - rewrite HS. destruct HT as [HT|HT]; [left; by apply HP | by right].
Qed.

Lemma no_redispatch_witness :
  isMonitoring yesSent = true
  ∧ "yes" ∈ processedTexts yesSent
  ∧ ∃ sent, sendCalls (run yesAgain yesSent) = (sendCalls yesSent ++ sent)%list
          ∧ ("yes" ∉ sent) ∧ NoDup sent
          ∧ ("yes" ∈ processedTexts (run yesAgain yesSent)
             ∨ "yes" ∈ skippedTexts (run yesAgain yesSent)).
Proof.
  assert (HM : isMonitoring yesSent = true) by (vm_compute; reflexivity).
  assert (HT : "yes" ∈ processedTexts yesSent)
    by (by_compute).
  split; [exact HM|]. split; [exact HT|].
  apply (no_redispatch "yes" yesSent yesAgain HM); [|left; exact HT].
  unfold yesAgain. cbn [polls app]. repeat constructor; discriminate.
Defined.

(* The round of [yesAgain] is punctual and sends only the new text. *)
Example yesAgain_run :
  punctual yesAgain yesSent = true
  ∧ sendCalls (run yesAgain yesSent) = ["yes"; "no thanks"].
Proof. split; vm_compute; reflexivity. Qed.

(* ===================================================================== *)
(* 14. Baseline suppression                                              *)
(* ===================================================================== *)

Lemma locateCaption_Some w element text :
  locateCaption w = Some (element, text) →
  caption w = Some (element, text) ∧ truthy text = true.
Proof.
  unfold locateCaption. destruct (caption w) as [[el t]|]; [|discriminate].
  destruct (truthy t) eqn:Ht; cbn; [|discriminate].
  destruct (_ && _); [|discriminate]. intros [= -> ->]. done.
Qed.

Lemma processWordBuffer_empty w : wordBuffer w = "" → processWordBuffer w = w.
Proof. intros H. unfold processWordBuffer. rewrite H. reflexivity. Qed.

Lemma isFirstCaption_addToWordBuffer text w :
  isFirstCaption (addToWordBuffer text w) = isFirstCaption w.
Proof.
  unfold addToWordBuffer. repeat case_bool_decide; try reflexivity.
  destruct (bufferTimeout _); reflexivity.
Qed.

Lemma isFirstCaption_processWordBuffer w :
  isFirstCaption (processWordBuffer w) = isFirstCaption w.
Proof.
  unfold processWordBuffer, sendForTranslation.
  repeat (case_match; try reflexivity).
Qed.

Lemma isFirstCaption_onCaptionFound element text w :
  isFirstCaption (onCaptionFound element text w) = false.
Proof.
  unfold onCaptionFound. destruct (isFirstCaption w) eqn:HF; [reflexivity|].
  repeat (case_match; try exact HF); cbn;
    first [ exact HF
          | rewrite <- HF;
            exact (isFirstCaption_addToWordBuffer _ (set_lastProcessedText text w)) ].
Qed.

Lemma checkForClosedCaptions_baseline w element T :
  monitoringActive w = true →
  isFirstCaption w = true →
  locateCaption w = Some (element, T) →
  checkForClosedCaptions w = set_isFirstCaption false (set_lastProcessedText T w).
Proof.
  intros HA HF HL. unfold checkForClosedCaptions. rewrite HA, HL. cbn [negb].
  destruct (locateCaption_Some _ _ _ HL) as [_ ->].
  unfold onCaptionFound. rewrite HF. reflexivity.
Qed.

Lemma established_checkForClosedCaptions w :
  established w → established (checkForClosedCaptions w).
Proof.
  intros [HM HF]. split.
  - pose proof (guardView_checkForClosedCaptions w) as Hv.
    unfold guardView in Hv. injection Hv as -> _ _ _. done.
  - unfold checkForClosedCaptions. repeat (case_match; try done).
    apply isFirstCaption_onCaptionFound.
Qed.

Lemma established_view w w' :
  baselineView w' = baselineView w → established w → established w'.
Proof. unfold baselineView, established. intros [= -> -> _ _ _ _]. done. Qed.

Lemma step_established e w :
  e ≠ StopMessage → established w → established (step e w).
Proof.
  intros He Hw. destruct e; cbn [step].
  - destruct (_ <=? _)%Z; [|done]. by apply (established_view w).
  - unfold fireTimer. destruct (findTimer id w) as [tm|]; [|done].
    destruct (due tm <=? clock w)%Z; [|done].
    assert (Hw1 : established (match period tm with
                               | Some p => rearm id p w
                               | None => clearTimeout id w
                               end)).
    { apply (established_view w); [|done].
      destruct (period tm);
        [apply (frame_rearm baselineView) | apply (frame_clearTimeout baselineView)]. }
    revert Hw1. generalize (match period tm with
                            | Some p => rearm id p w
                            | None => clearTimeout id w
                            end). intros w1 Hw1.
    destruct (callback tm); cbn [runCallback].
    + destruct Hw1 as [HM HF]. split.
      * pose proof (processWordBuffer_dispatchStep w1) as (-> & _). done.
      * by rewrite isFirstCaption_processWordBuffer.
    + destruct (monitoringActive w1); [by apply established_checkForClosedCaptions | done].
    + destruct (monitoringActive w1); [by apply established_checkForClosedCaptions | done].
    + apply (established_view w1); [apply (frame_hideOverlay baselineView) | done].
  - exact Hw.
  - apply (established_view w); [apply (frame_onMutations baselineView) | done].
  - unfold onStartMessage. rewrite startCaptionDetection_monitoring; [|apply Hw].
    by apply (established_view w).
  - congruence.
  - by apply established_checkForClosedCaptions.
  - apply (established_view w); [apply (frame_fetchSettled baselineView) | done].
Qed.

Lemma run_established es w :
  Forall (λ e, e ≠ StopMessage) es → established w → established (run es w).
Proof.
  revert w. induction es as [|e es IH]; intros w Hes Hw; [done|].
  inversion Hes; subst. cbn. apply IH; [done|]. by apply step_established.
Qed.

Lemma quiet_view T calls w w' :
  baselineView w' = baselineView w → quiet T calls w → quiet T calls w'.
Proof. unfold baselineView, quiet. intros [= _ -> -> -> -> ->]. done. Qed.

Lemma quiet_checkForClosedCaptions T calls w :
  quiet T calls w → quiet T calls (checkForClosedCaptions w).
Proof.
  intros Hw. pose proof Hw as (HB & HC & HF & HD). unfold checkForClosedCaptions.
  destruct (negb _); [done|].
  destruct (locateCaption w) as [[el t]|] eqn:HL; [|done].
  destruct (locateCaption_Some _ _ _ HL) as [Hcap ->].
  apply HD in Hcap as Ht. subst t.
  unfold onCaptionFound. destruct (isFirstCaption w) eqn:H1.
  - unfold quiet; cbn. auto.
  - destruct HF as [HF|HF]; [congruence|].
    case_bool_decide; [done|].
    unfold JsString.eqb. rewrite bool_decide_eq_true_2 by done. done.
Qed.

Lemma quiet_step T calls e w :
  showsOnly T e → quiet T calls w → quiet T calls (step e w).
Proof.
  intros He Hw. destruct e; cbn [step].
  - destruct (_ <=? _)%Z; [|done]. by apply (quiet_view _ _ w).
  - unfold fireTimer. destruct (findTimer id w) as [tm|]; [|done].
    destruct (due tm <=? clock w)%Z; [|done].
    assert (Hw1 : quiet T calls (match period tm with
                                 | Some p => rearm id p w
                                 | None => clearTimeout id w
                                 end)).
    { apply (quiet_view _ _ w); [|done].
      destruct (period tm);
        [apply (frame_rearm baselineView) | apply (frame_clearTimeout baselineView)]. }
    revert Hw1. generalize (match period tm with
                            | Some p => rearm id p w
                            | None => clearTimeout id w
                            end). intros w1 Hw1.
    destruct (callback tm); cbn [runCallback].
    + rewrite processWordBuffer_empty; [done | apply Hw1].
    + destruct (monitoringActive w1); [by apply quiet_checkForClosedCaptions | done].
    + destruct (monitoringActive w1); [by apply quiet_checkForClosedCaptions | done].
    + apply (quiet_view _ _ w1); [apply (frame_hideOverlay baselineView) | done].
  - destruct Hw as (HB & HC & HF & HD). unfold quiet; cbn.
    split; [done|]. split; [done|]. split; [done|].
    intros el t ->. exact He.
  - apply (quiet_view _ _ w); [apply (frame_onMutations baselineView) | done].
  - unfold onStartMessage, startCaptionDetection.
    destruct (isMonitoring _); [by apply (quiet_view _ _ w)|].
    cbv zeta. apply quiet_checkForClosedCaptions.
    destruct Hw as (HB & HC & HF & HD). unfold quiet; cbn. auto.
  - destruct Hw as (HB & HC & HF & HD).
    unfold onStopMessage, stopCaptionDetection, quiet.
    destruct (observer _), (checkInterval _), (bufferTimeout _); cbn; auto.
  - by apply quiet_checkForClosedCaptions.
  - apply (quiet_view _ _ w); [apply (frame_fetchSettled baselineView) | done].
Qed.

Lemma quiet_run T calls es w :
  Forall (showsOnly T) es → quiet T calls w → quiet T calls (run es w).
Proof.
  revert w. induction es as [|e es IH]; intros w Hes Hw; [done|].
  inversion Hes; subst. cbn. apply IH; [done|]. by apply quiet_step.
Qed.

(** C6: the first located observation of a session, with text T, is only
    taken as the baseline: the pass stores T as the last processed text
    and clears the first-caption flag, and nothing else changes (nothing
    is buffered, no timer is set, sendForTranslation is not called). From
    then on the flag stays cleared for the rest of the session, and as
    long as the page shows no other text than T nothing is ever sent. *)
Theorem baseline_suppression (w : World) (element : Element) (T : string) :
  monitoringActive w = true →
  isFirstCaption w = true →
  locateCaption w = Some (element, T) →
  let w' := checkForClosedCaptions w in
  w' = set_isFirstCaption false (set_lastProcessedText T w)
  ∧ sendCalls w' = sendCalls w
  ∧ wordBuffer w' = wordBuffer w
  ∧ timers w' = timers w
  ∧ isFirstCaption w' = false
  ∧ (∀ es, isMonitoring w = true → Forall (λ e, e ≠ StopMessage) es →
           isFirstCaption (run es w') = false)
  ∧ (∀ es, wordBuffer w = "" → Forall (showsOnly T) es →
           sendCalls (run es w') = sendCalls w).
Proof.
  intros HA HF HL w'. subst w'.
  rewrite (checkForClosedCaptions_baseline _ _ _ HA HF HL).
  do 5 (split; [reflexivity|]). split.
  - intros es HM Hes. apply run_established; [done|]. split; [exact HM | reflexivity].
  - intros es HB Hes.
    destruct (locateCaption_Some _ _ _ HL) as [Hcap _].
    apply (quiet_run T (sendCalls w) es); [done|].
    unfold quiet; cbn. split; [done|]. split; [done|]. split; [by right|].
    intros el t. rewrite Hcap. congruence.
Qed.

Lemma baseline_suppression_witness :
  monitoringActive firstCaptionShown = true
  ∧ isFirstCaption firstCaptionShown = true
  ∧ locateCaption firstCaptionShown = Some (E1, "Hello")
  ∧ checkForClosedCaptions firstCaptionShown
    = set_isFirstCaption false (set_lastProcessedText "Hello" firstCaptionShown)
  ∧ sendCalls (checkForClosedCaptions firstCaptionShown) = [].
Proof.
  assert (HA : monitoringActive firstCaptionShown = true)
    by (vm_compute; reflexivity).
  assert (HF : isFirstCaption firstCaptionShown = true)
    by (vm_compute; reflexivity).
  assert (HL : locateCaption firstCaptionShown = Some (E1, "Hello"))
    by (vm_compute; reflexivity).
  destruct (baseline_suppression firstCaptionShown E1 "Hello" HA HF HL)
    as (H1 & H2 & _).
  split; [exact HA|]. split; [exact HF|]. split; [exact HL|].
  split; [exact H1 | etrans; [exact H2 | vm_compute; reflexivity]].
Defined.

(* The start command itself sends nothing and buffers nothing; when a
   caption is already on the page its text is the baseline. *)
Lemma startCaptionDetection_baseline w element T :
  isMonitoring w = false →
  locateCaption w = Some (element, T) →
  let w' := startCaptionDetection w in
  isFirstCaption w' = false ∧ lastProcessedText w' = T
  ∧ lastSeenCaptionElement w' = None
  ∧ wordBuffer w' = wordBuffer w ∧ sendCalls w' = sendCalls w.
Proof.
  intros HM HL. unfold startCaptionDetection, setInterval. rewrite HM.
  cbv beta iota zeta.
  erewrite checkForClosedCaptions_baseline; [cbn; done|reflexivity|reflexivity|exact HL].
Qed.

(* ===================================================================== *)
(* 15. Order of the checks of a flush                                    *)
(* ===================================================================== *)

(** C5: a flush of a non-blank buffer holding the text T checks, in this
    order: (a) T in skippedTexts: the text is dropped; (b) T in
    processedTexts: the text is dropped; (c) less than 2000 ms since the
    last dispatch: the buffer is kept as it is and the same flush is
    scheduled again 2000 ms later, nothing is sent or recorded; (d)
    otherwise the timestamp is updated and T is recorded in processedTexts
    in the state on which sendForTranslation is then called, after which
    the buffer is emptied. *)
Theorem flush_checks_in_order (w : World) :
  let T := wordBuffer w in
  (0 < String.length (trim T))%nat →
  (T ∈ skippedTexts w → processWordBuffer w = set_wordBuffer "" w)
  ∧ (T ∉ skippedTexts w → T ∈ processedTexts w →
       processWordBuffer w = set_wordBuffer "" w)
  ∧ (T ∉ skippedTexts w → T ∉ processedTexts w →
     (clock w - lastTranslationTime w < 2000)%Z →
       processWordBuffer w
       = set_bufferTimeout (Some (nextTimerId w))
           (snd (setTimeout CbProcessWordBuffer 2000 w))
       ∧ wordBuffer (processWordBuffer w) = T
       ∧ sendCalls (processWordBuffer w) = sendCalls w
       ∧ processedTexts (processWordBuffer w) = processedTexts w
       ∧ lastTranslationTime (processWordBuffer w) = lastTranslationTime w
       ∧ timers (processWordBuffer w)
         = (timers w
            ++ [mkTimer (nextTimerId w) (clock w + 2000) None CbProcessWordBuffer])%list)
  ∧ (T ∉ skippedTexts w → T ∉ processedTexts w →
     (2000 <= clock w - lastTranslationTime w)%Z →
       processWordBuffer w
       = set_wordBuffer "" (sendForTranslation T (markProcessed w))
       ∧ T ∈ processedTexts (markProcessed w)
       ∧ lastTranslationTime (markProcessed w) = clock w
       ∧ sendCalls (markProcessed w) = sendCalls w
       ∧ sendCalls (processWordBuffer w) = (sendCalls w ++ [T])%list
       ∧ processedTexts (processWordBuffer w) = {[T]} ∪ processedTexts w
       ∧ lastTranslationTime (processWordBuffer w) = clock w
       ∧ wordBuffer (processWordBuffer w) = ""
       ∧ timers (processWordBuffer w) = timers w).
Proof.
  intros T Hlen. subst T. unfold processWordBuffer.
  apply Nat.ltb_lt in Hlen. rewrite Hlen.
  split; [|split; [|split]].
  - intros Hs. by rewrite bool_decide_eq_true_2.
  - intros Hs Hp. rewrite bool_decide_eq_false_2 by done.
    by rewrite bool_decide_eq_true_2.
  - intros Hs Hp Ht. rewrite !bool_decide_eq_false_2 by done.
    apply Z.ltb_lt in Ht. rewrite Ht. cbn. done.
  - intros Hs Hp Ht. rewrite !bool_decide_eq_false_2 by done.
    apply Z.ltb_ge in Ht. rewrite Ht. cbv zeta.
    split; [reflexivity|].
    split; [apply elem_of_union_l, elem_of_singleton_2; reflexivity|].
    split; [reflexivity|]. split; [reflexivity|].
    unfold sendForTranslation. destruct (negb _); cbn; done.
Qed.

Lemma flush_checks_in_order_witness :
  (0 < String.length (trim (wordBuffer thereBuffered)))%nat
  ∧ wordBuffer (processWordBuffer thereBuffered) = "there"
  ∧ sendCalls (processWordBuffer thereBuffered) = []
  ∧ sendCalls (processWordBuffer (step (Tick 3200) thereBuffered)) = ["there"]
  ∧ wordBuffer (processWordBuffer (step (Tick 3200) thereBuffered)) = "".
Proof.
  pose (later := step (Tick 3200) thereBuffered).
  assert (Hlen : (0 < String.length (trim (wordBuffer thereBuffered)))%nat)
    by (vm_compute; lia).
  assert (Hs : wordBuffer thereBuffered ∉ skippedTexts thereBuffered)
    by (by_compute).
  assert (Hp : wordBuffer thereBuffered ∉ processedTexts thereBuffered)
    by (by_compute).
  assert (Ht : (clock thereBuffered - lastTranslationTime thereBuffered < 2000)%Z)
    by (vm_compute; reflexivity).
  assert (Hlen' : (0 < String.length (trim (wordBuffer later)))%nat)
    by (vm_compute; lia).
  assert (Hs' : wordBuffer later ∉ skippedTexts later)
    by (by_compute).
  assert (Hp' : wordBuffer later ∉ processedTexts later)
    by (by_compute).
  assert (Ht' : (2000 <= clock later - lastTranslationTime later)%Z)
    by (vm_compute; discriminate).
  split; [exact Hlen|].
  destruct (flush_checks_in_order thereBuffered Hlen) as (_ & _ & Hc & _).
  destruct (Hc Hs Hp Ht) as (_ & H1 & H2 & _).
  split; [etrans; [exact H1 | vm_compute; reflexivity]|].
  split; [etrans; [exact H2 | vm_compute; reflexivity]|].
  destruct (flush_checks_in_order later Hlen') as (_ & _ & _ & Hd).
  destruct (Hd Hs' Hp' Ht') as (_ & _ & _ & _ & H3 & _ & _ & H4 & _).
  split; [etrans; [exact H3 | vm_compute; reflexivity] | exact H4].
Defined.

(* ===================================================================== *)
(* 16. The scenario "Hello", then "Hello there" on the same node         *)
(* ===================================================================== *)

(** C2: evaluation of the scenario on a fresh detector. The baseline pass
    stores the text "Hello" but not the node, so when the same node E1
    later reads "Hello there" the pass does not treat it as the same
    speaker: the whole text "Hello there" goes into the buffer, and the
    one dispatch made after the 2000 ms delay carries "Hello there", not
    the difference "there". *)
Theorem hello_scenario_sends_whole_text :
  punctual helloScenario helloPage = true
  ∧ lastProcessedText (run [StartMessage "es"] helloPage) = "Hello"
  ∧ lastSeenCaptionElement (run [StartMessage "es"] helloPage) = None
  ∧ extractNewWords "Hello" "Hello there" = "there"
  ∧ wordBuffer (run helloObserved helloPage) = "Hello there"
  ∧ flushTimers (run helloObserved helloPage)
    = [mkTimer 2%positive 3750 None CbProcessWordBuffer]
  ∧ sendCalls (run helloScenario helloPage) = ["Hello there"]
  ∧ sendCalls (run helloScenario helloPage) ≠ ["there"].
Proof.
  split; [vm_compute; reflexivity|].
  split; [vm_compute; reflexivity|].
  split; [vm_compute; reflexivity|].
  split; [vm_compute; reflexivity|].
  split; [vm_compute; reflexivity|].
  split; [vm_compute; reflexivity|].
  split; [vm_compute; reflexivity|].
  vm_compute. discriminate.
Qed.

(* ===================================================================== *)
(* 17. Classification of an observation                                  *)
(* ===================================================================== *)

Lemma nonblank_iff s :
  truthy s && (0 <? String.length (trim s))%nat = true ↔ trim s ≠ "".
Proof.
  destruct s as [|c s]; [cbn; split; [discriminate | congruence]|].
  cbn [truthy isEmpty negb andb].
  destruct (trim (String c s)); cbn; split; congruence.
Qed.

Lemma addToWordBuffer_seen text w :
  text ∈ skippedTexts w ∨ text ∈ processedTexts w → addToWordBuffer text w = w.
Proof.
  intros H. unfold addToWordBuffer.
  case_bool_decide; [done|]. case_bool_decide; [done|]. tauto.
Qed.

Lemma addToWordBuffer_fresh text w :
  text ∉ skippedTexts w → text ∉ processedTexts w →
  wordBuffer (addToWordBuffer text w) = appendFragment (wordBuffer w) text
  ∧ bufferTimeout (addToWordBuffer text w) = Some (nextTimerId w)
  ∧ timers (addToWordBuffer text w)
    = (match bufferTimeout w with
       | Some id => filter (λ tm, tid tm ≠ id) (timers w)
       | None => timers w
       end ++ [mkTimer (nextTimerId w) (clock w + 2000) None CbProcessWordBuffer])%list
  ∧ nextTimerId (addToWordBuffer text w) = Pos.succ (nextTimerId w)
  ∧ clock (addToWordBuffer text w) = clock w
  ∧ guardView (addToWordBuffer text w) = guardView w
  ∧ lastTranslationTime (addToWordBuffer text w) = lastTranslationTime w.
Proof.
  intros Hs Hp. unfold addToWordBuffer.
  rewrite !bool_decide_eq_false_2 by done.
  destruct (bufferTimeout w) eqn:Hb; cbn; rewrite ?Hb; done.
Qed.

(** C4 (as amended): in a pass with the baseline established, a current
    text that is not in skippedTexts and differs from the last processed
    text is handled as follows. Same node as last seen and strictly longer
    text: continuation; the difference computed by extractNewWords, when
    it is not blank, is handed to addToWordBuffer, and the last processed
    text becomes the current text. Same node and text not strictly longer:
    the observation is ignored, nothing is buffered and nothing is
    updated. Different node: new turn; the whole current text is handed to
    addToWordBuffer and becomes the last processed text. addToWordBuffer
    appends what it is given unless that text is already in
    processedTexts. *)
Theorem classification (w : World) (element : Element) (text : string) :
  isFirstCaption w = false →
  text ∉ skippedTexts w →
  text ≠ lastProcessedText w →
  let last := lastProcessedText w in
  let newWords := extractNewWords last text in
  (lastSeenCaptionElement w = Some element →
   (String.length last < String.length text)%nat →
     (trim newWords ≠ "" →
        onCaptionFound element text w
        = set_lastSeenCaptionElement (Some element)
            (addToWordBuffer newWords (set_lastProcessedText text w)))
     ∧ (trim newWords = "" →
        onCaptionFound element text w
        = set_lastSeenCaptionElement (Some element) (set_lastProcessedText text w)))
  ∧ (lastSeenCaptionElement w = Some element →
     (String.length text <= String.length last)%nat →
       onCaptionFound element text w = w)
  ∧ (lastSeenCaptionElement w ≠ Some element →
       onCaptionFound element text w
       = set_lastSeenCaptionElement (Some element)
           (addToWordBuffer text (set_lastProcessedText text w))
       ∧ (text ∉ processedTexts w →
          wordBuffer (onCaptionFound element text w)
          = appendFragment (wordBuffer w) text)
       ∧ (text ∈ processedTexts w →
          wordBuffer (onCaptionFound element text w) = wordBuffer w)).
Proof.
  intros HF Hs Hne last newWords. unfold onCaptionFound.
  rewrite HF, (bool_decide_eq_false_2 _ Hs).
  unfold JsString.eqb. rewrite (bool_decide_eq_false_2 _ Hne). cbn [negb].
  fold last. fold newWords.
  split; [|split].
  - intros Hel Hlen. rewrite bool_decide_eq_true_2 by done.
    apply Nat.ltb_lt in Hlen. rewrite Hlen. split; intros Hn.
    + apply nonblank_iff in Hn. by rewrite Hn.
    + destruct (_ && _) eqn:Hc; [|done]. apply nonblank_iff in Hc. done.
  - intros Hel Hlen. rewrite bool_decide_eq_true_2 by done.
    apply Nat.ltb_ge in Hlen. rewrite Hlen.
    destruct w; cbn in *; subst; reflexivity.
  - intros Hel. rewrite bool_decide_eq_false_2 by done.
    split; [reflexivity|]. split; intros Hp; cbn.
    + by destruct (addToWordBuffer_fresh text (set_lastProcessedText text w)) as (-> & _).
    + by rewrite addToWordBuffer_seen; [|right].
Qed.

Lemma classification_witness :
  isFirstCaption helloThere = false
  ∧ ("Hello there friend" ∉ skippedTexts helloThere)
  ∧ "Hello there friend" ≠ lastProcessedText helloThere
  ∧ onCaptionFound E1 "Hello there friend" helloThere
    = set_lastSeenCaptionElement (Some E1)
        (addToWordBuffer (extractNewWords (lastProcessedText helloThere)
                            "Hello there friend")
           (set_lastProcessedText "Hello there friend" helloThere))
  ∧ extractNewWords (lastProcessedText helloThere) "Hello there friend" = "friend"
  ∧ wordBuffer (onCaptionFound E2 "Good morning" helloThere)
    = "Hello there Good morning".
Proof.
  assert (HF : isFirstCaption helloThere = false) by (vm_compute; reflexivity).
  assert (Hs : "Hello there friend" ∉ skippedTexts helloThere)
    by (by_compute).
  assert (Hne : "Hello there friend" ≠ lastProcessedText helloThere)
    by (vm_compute; discriminate).
  assert (Hel : lastSeenCaptionElement helloThere = Some E1)
    by (vm_compute; reflexivity).
  assert (Hlen : (String.length (lastProcessedText helloThere)
                  < String.length "Hello there friend")%nat)
    by (vm_compute; lia).
  assert (Hnb : trim (extractNewWords (lastProcessedText helloThere)
                        "Hello there friend") ≠ "")
    by (vm_compute; discriminate).
  split; [exact HF|]. split; [exact Hs|]. split; [exact Hne|].
  split; [|split; [vm_compute; reflexivity|]].
  - destruct (classification helloThere E1 "Hello there friend" HF Hs Hne)
      as (Hcont & _).
    destruct (Hcont Hel Hlen) as [Hnew _]. exact (Hnew Hnb).
  - assert (Hs2 : "Good morning" ∉ skippedTexts helloThere)
      by (by_compute).
    assert (Hne2 : "Good morning" ≠ lastProcessedText helloThere)
      by (vm_compute; discriminate).
    assert (Hel2 : lastSeenCaptionElement helloThere ≠ Some E2)
      by (vm_compute; discriminate).
    assert (Hp2 : "Good morning" ∉ processedTexts helloThere)
      by (by_compute).
    destruct (classification helloThere E2 "Good morning" HF Hs2 Hne2)
      as (_ & _ & Hturn).
    destruct (Hturn Hel2) as (_ & Hbuf & _).
    etrans; [exact (Hbuf Hp2) | vm_compute; reflexivity].
Defined.

(** C4 (counterexample): node E1 was last seen with "Hello world again"
    and now reads "Hello world": same node, text not strictly longer. The
    pass does not buffer the whole current text as a new turn; it leaves
    the detector as it was. *)
Lemma same_node_shorter_text_is_ignored :
  locateCaption shrunk = Some (E1, "Hello world")
  ∧ isFirstCaption shrunk = false
  ∧ ("Hello world" ∉ skippedTexts shrunk)
  ∧ ("Hello world" ∉ processedTexts shrunk)
  ∧ "Hello world" ≠ lastProcessedText shrunk
  ∧ lastSeenCaptionElement shrunk = Some E1
  ∧ ¬ (String.length (lastProcessedText shrunk) < String.length "Hello world")%nat
  ∧ checkForClosedCaptions shrunk = shrunk
  ∧ wordBuffer (checkForClosedCaptions shrunk) = "Hello world again"
  ∧ wordBuffer (set_lastSeenCaptionElement (Some E1)
                  (addToWordBuffer "Hello world"
                     (set_lastProcessedText "Hello world" shrunk)))
    = "Hello world again Hello world".
Proof.
  split; [vm_compute; reflexivity|]. split; [vm_compute; reflexivity|].
  split; [by_compute|].
  split; [by_compute|].
  split; [vm_compute; discriminate|]. split; [vm_compute; reflexivity|].
  split; [vm_compute; lia|].
  split; [vm_compute; reflexivity|]. split; vm_compute; reflexivity.
Qed.

(* ===================================================================== *)
(* 18. Debounce of the word buffer                                       *)
(* ===================================================================== *)

Lemma tick_later t w : (clock w <= t)%Z → step (Tick t) w = set_clock t w.
Proof. intros H. cbn. apply Z.leb_le in H. by rewrite H. Qed.

Lemma processWordBuffer_blank w :
  trim (wordBuffer w) = "" → processWordBuffer w = w.
Proof. intros H. unfold processWordBuffer. rewrite H. reflexivity. Qed.

Lemma processWordBuffer_sends w :
  trim (wordBuffer w) ≠ "" →
  wordBuffer w ∉ skippedTexts w →
  wordBuffer w ∉ processedTexts w →
  (2000 <= clock w - lastTranslationTime w)%Z →
  processWordBuffer w
  = set_wordBuffer "" (sendForTranslation (wordBuffer w) (markProcessed w)).
Proof.
  intros Hb Hs Hp Ht. unfold processWordBuffer.
  destruct (trim (wordBuffer w)) eqn:Htrim; [done|]. cbn [String.length Nat.ltb Nat.leb].
  rewrite !bool_decide_eq_false_2 by done.
  apply Z.ltb_ge in Ht. rewrite Ht. reflexivity.
Qed.

Lemma flushTimers_app l1 l2 w :
  timers w = (l1 ++ l2)%list →
  flushTimers w
  = (filter (λ tm, callback tm = CbProcessWordBuffer) l1
     ++ filter (λ tm, callback tm = CbProcessWordBuffer) l2)%list.
Proof. intros H. unfold flushTimers. rewrite H. apply filter_app. Qed.

Lemma flushOwned_cleared w :
  flushOwned w →
  filter (λ tm, callback tm = CbProcessWordBuffer)
    (match bufferTimeout w with
     | Some id => filter (λ tm, tid tm ≠ id) (timers w)
     | None => timers w
     end) = [].
Proof.
  intros Hown. apply elem_of_nil_inv. intros tm Htm.
  apply list_elem_of_filter in Htm as [Hcb Htm].
  destruct (bufferTimeout w) as [id|] eqn:Hb.
  - apply list_elem_of_filter in Htm as [Hid Htm].
    assert (Hin : tm ∈ flushTimers w) by (apply list_elem_of_filter; done).
    apply Hown in Hin. congruence.
  - assert (Hin : tm ∈ flushTimers w) by (apply list_elem_of_filter; done).
    apply Hown in Hin. congruence.
Qed.

Lemma find_newest (id : TimerId) (l : list Timer) (x : Timer) :
  (∀ tm, tm ∈ l → tid tm ≠ id) → tid x = id →
  List.find (λ tm, bool_decide (tid tm = id)) (l ++ [x]) = Some x.
Proof.
  intros Hl Hx. induction l as [|y l IH]; cbn.
  - by rewrite bool_decide_eq_true_2.
  - rewrite bool_decide_eq_false_2 by (apply Hl; left).
    apply IH. intros tm Hin. apply Hl. by right.
Qed.

(* What one append of a text that passes the dedup guard does. *)
Lemma appendAt_fresh t text w :
  (clock w <= t)%Z →
  text ∉ skippedTexts w → text ∉ processedTexts w →
  flushOwned w → wellFormedTimers w →
  let w' := appendAt t text w in
  wordBuffer w' = appendFragment (wordBuffer w) text
  ∧ clock w' = t
  ∧ bufferTimeout w' = Some (nextTimerId w)
  ∧ flushTimers w' = [flushTimer (nextTimerId w) t]
  ∧ findTimer (nextTimerId w) w' = Some (flushTimer (nextTimerId w) t)
  ∧ guardView w' = guardView w
  ∧ lastTranslationTime w' = lastTranslationTime w
  ∧ flushOwned w' ∧ wellFormedTimers w'.
Proof.
  intros Ht Hs Hp Hown Hwf w'. subst w'. unfold appendAt.
  rewrite (tick_later _ _ Ht).
  destruct (addToWordBuffer_fresh text (set_clock t w) Hs Hp)
    as (Hbuf & Hbt & Htm & Hnext & Hclock & Hview & Hlast).
  cbn [set_clock wordBuffer bufferTimeout timers nextTimerId clock
       lastTranslationTime] in *.
  assert (Hflush : flushTimers (addToWordBuffer text (set_clock t w))
                   = [flushTimer (nextTimerId w) t]).
  { rewrite (flushTimers_app _ _ _ Htm), (flushOwned_cleared w Hown). reflexivity. }
  split; [done|]. split; [done|]. split; [done|]. split; [done|].
  split; [|split; [done|split; [done|split]]].
  - unfold findTimer. rewrite Htm. apply find_newest; [|reflexivity].
    intros tm Hin Heq.
    assert (Hin' : tm ∈ timers w).
    { destruct (bufferTimeout w); [|done].
      by apply list_elem_of_filter in Hin as [_ ?]. }
    apply Hwf in Hin'. rewrite Heq in Hin'. lia.
  - intros tm. rewrite Hflush, Hbt. by intros ->%list_elem_of_singleton.
  - intros tm. rewrite Htm, Hnext. intros [Hin| ->%list_elem_of_singleton]%elem_of_app.
    + assert (Hin' : tm ∈ timers w).
      { destruct (bufferTimeout w); [|done].
        by apply list_elem_of_filter in Hin as [_ ?]. }
      apply Hwf in Hin'. lia.
    + cbn. lia.
Qed.

Lemma guardView_fields w w' :
  guardView w' = guardView w →
  processedTexts w' = processedTexts w
  ∧ skippedTexts w' = skippedTexts w
  ∧ sendCalls w' = sendCalls w.
Proof. unfold guardView. intros [= _ -> -> ->]. done. Qed.

Lemma append_assoc3 (a b c : string) : ((a ++ b) ++ c = a ++ b ++ c)%string.
Proof.
  induction a as [|x a IH]; [reflexivity|].
  change (String x ((a ++ b) ++ c) = String x (a ++ b ++ c)). by rewrite IH.
Qed.

Lemma appendFragment_nonempty buffer text :
  buffer ≠ "" → appendFragment buffer text = buffer ++ " " ++ text.
Proof. intros H. unfold appendFragment. by rewrite truthy_nonempty. Qed.

Lemma append_nonempty (a b : string) : a ≠ "" → (a ++ b)%string ≠ "".
Proof. destruct a; [done|]. intros _. discriminate. Qed.

(* Firing the flush timer of a buffer that passes the guard and the
   throttle. *)
Lemma fireTimer_flush id t0 w :
  findTimer id w = Some (flushTimer id t0) →
  flushTimers w = [flushTimer id t0] →
  (t0 + 2000 <= clock w)%Z →
  (lastTranslationTime w <= t0)%Z →
  trim (wordBuffer w) ≠ "" →
  wordBuffer w ∉ skippedTexts w →
  wordBuffer w ∉ processedTexts w →
  let w' := fireTimer id w in
  sendCalls w' = (sendCalls w ++ [wordBuffer w])%list
  ∧ wordBuffer w' = ""
  ∧ flushTimers w' = []
  ∧ wordBuffer w ∈ processedTexts w'.
Proof.
  intros Hfind Hflush Hdue Hlast Hb Hs Hp w'. subst w'. unfold fireTimer.
  rewrite Hfind. cbn [due period callback flushTimer runCallback].
  apply Z.leb_le in Hdue as Hdue'. rewrite Hdue'.
  rewrite processWordBuffer_sends; [| done | done | done | cbn; lia].
  assert (Hnone : flushTimers (clearTimeout id w) = []).
  { apply elem_of_nil_inv. intros tm Htm.
    apply list_elem_of_filter in Htm as [Hcb Htm]. cbn in Htm.
    apply list_elem_of_filter in Htm as [Hid Htm].
    assert (Hin : tm ∈ flushTimers w) by (apply list_elem_of_filter; done).
    rewrite Hflush in Hin. apply list_elem_of_singleton in Hin. subst tm. done. }
  unfold sendForTranslation. destruct (negb _); cbn.
  all: split; [done|]; split; [done|]; split; [exact Hnone|].
  all: apply elem_of_union_l, elem_of_singleton_2; reflexivity.
Qed.

Lemma fireTimer_early id t0 w :
  findTimer id w = Some (flushTimer id t0) →
  (clock w < t0 + 2000)%Z →
  fireTimer id w = w.
Proof.
  intros Hfind Hdue. unfold fireTimer. rewrite Hfind. cbn [due flushTimer].
  apply Z.leb_gt in Hdue. by rewrite Hdue.
Qed.

(* The only pending flush, set at [t0] for a buffer that passes the guard:
   it does nothing before [t0 + 2000] and sends the buffer from then on. *)
Lemma pending_flush id t0 w :
  findTimer id w = Some (flushTimer id t0) →
  flushTimers w = [flushTimer id t0] →
  clock w = t0 →
  (lastTranslationTime w <= t0)%Z →
  (∀ t, (t0 <= t < t0 + 2000)%Z →
        fireTimer id (step (Tick t) w) = step (Tick t) w)
  ∧ (∀ t, (t0 + 2000 <= t)%Z →
          trim (wordBuffer w) ≠ "" →
          wordBuffer w ∉ skippedTexts w → wordBuffer w ∉ processedTexts w →
          let w' := fireTimer id (step (Tick t) w) in
          sendCalls w' = (sendCalls w ++ [wordBuffer w])%list
          ∧ wordBuffer w' = ""
          ∧ flushTimers w' = []
          ∧ wordBuffer w ∈ processedTexts w').
Proof.
  intros Hfind Hflush Hclock Hlast. split.
  - intros t Ht. rewrite tick_later by lia.
    apply (fireTimer_early id t0); [exact Hfind | cbn; lia].
  - intros t Ht Hnb Hs Hp w'. subst w'. rewrite tick_later by lia.
    apply (fireTimer_flush id t0 (set_clock t w));
      [exact Hfind | exact Hflush | cbn; lia | exact Hlast
      | exact Hnb | exact Hs | exact Hp].
Qed.

(** C7 (as amended): take a detector with an empty buffer and three texts,
    the first non-empty, none of them in processedTexts or skippedTexts,
    appended at times at most 500 ms apart. Each append concatenates its
    text with one separating space and replaces the pending flush timer by
    one due 2000 ms after that append, so no flush runs between the
    appends. After the third append the buffer holds the three texts
    joined by single spaces and the only pending flush is due 2000 ms
    after the last append; fired then (and not before), it sends the
    joined text once and empties the buffer, provided the joined text
    passes the dedup guard. A flush of a blank buffer does nothing. *)
Theorem debounce_coalescing (w : World) (f1 f2 f3 : string) (t1 t2 t3 : Z) :
  wordBuffer w = "" → flushOwned w → wellFormedTimers w →
  (lastTranslationTime w <= clock w)%Z →
  f1 ≠ "" →
  (∀ f, f ∈ [f1; f2; f3] → (f ∉ skippedTexts w) ∧ (f ∉ processedTexts w)) →
  (clock w <= t1)%Z → (t1 <= t2 <= t1 + 500)%Z → (t2 <= t3 <= t2 + 500)%Z →
  let w1 := appendAt t1 f1 w in
  let w2 := appendAt t2 f2 w1 in
  let w3 := appendAt t3 f3 w2 in
  let joined := f1 ++ " " ++ f2 ++ " " ++ f3 in
  let id := nextTimerId w2 in
  (flushTimers w1 = [flushTimer (nextTimerId w) t1]
   ∧ ∀ tm, tm ∈ flushTimers w1 → (t2 < due tm)%Z)
  ∧ (flushTimers w2 = [flushTimer (nextTimerId w1) t2]
     ∧ ∀ tm, tm ∈ flushTimers w2 → (t3 < due tm)%Z)
  ∧ wordBuffer w3 = joined
  ∧ flushTimers w3 = [flushTimer id t3]
  ∧ sendCalls w3 = sendCalls w
  ∧ (∀ t, (t3 <= t < t3 + 2000)%Z →
          fireTimer id (step (Tick t) w3) = step (Tick t) w3)
  ∧ (∀ t, (t3 + 2000 <= t)%Z →
          trim joined ≠ "" →
          joined ∉ skippedTexts w → joined ∉ processedTexts w →
          let w4 := fireTimer id (step (Tick t) w3) in
          sendCalls w4 = (sendCalls w ++ [joined])%list
          ∧ wordBuffer w4 = ""
          ∧ flushTimers w4 = []
          ∧ joined ∈ processedTexts w4)
  ∧ (∀ w0, trim (wordBuffer w0) = "" → processWordBuffer w0 = w0).
Proof.
  intros Hbuf Hown Hwf Hlast Hf1 Hfresh Ht1 Ht2 Ht3 w1 w2 w3 joined id.
  destruct (Hfresh f1) as [Hs1 Hp1]; [repeat constructor|].
  destruct (Hfresh f2) as [Hs2 Hp2]; [repeat constructor|].
  destruct (Hfresh f3) as [Hs3 Hp3]; [repeat constructor|].
  destruct (appendAt_fresh t1 f1 w Ht1 Hs1 Hp1 Hown Hwf)
    as (Hb1 & Hc1 & _ & Hfl1 & _ & Hv1 & Hl1 & Hown1 & Hwf1).
  fold w1 in Hb1, Hc1, Hfl1, Hv1, Hl1, Hown1, Hwf1.
  destruct (guardView_fields _ _ Hv1) as (Hp1' & Hs1' & Hcalls1).
  assert (Hc12 : (clock w1 <= t2)%Z) by lia.
  destruct (appendAt_fresh t2 f2 w1 Hc12) as
    (Hb2 & Hc2 & _ & Hfl2 & _ & Hv2 & Hl2 & Hown2 & Hwf2);
    [by rewrite Hs1' | by rewrite Hp1' | done | done |].
  fold w2 in Hb2, Hc2, Hfl2, Hv2, Hl2, Hown2, Hwf2.
  destruct (guardView_fields _ _ Hv2) as (Hp2' & Hs2' & Hcalls2).
  assert (Hc23 : (clock w2 <= t3)%Z) by lia.
  destruct (appendAt_fresh t3 f3 w2 Hc23) as
    (Hb3 & Hc3 & _ & Hfl3 & Hfind3 & Hv3 & Hl3 & Hown3 & Hwf3);
    [by rewrite Hs2', Hs1' | by rewrite Hp2', Hp1' | done | done |].
  fold w3 in Hb3, Hc3, Hfl3, Hfind3, Hv3, Hl3, Hown3, Hwf3. fold id in Hfl3, Hfind3.
  destruct (guardView_fields _ _ Hv3) as (Hp3' & Hs3' & Hcalls3).
  clearbody w3 w2 w1.
  assert (Hjoined : wordBuffer w3 = joined).
  { rewrite Hb3, Hb2, Hb1, Hbuf. unfold appendFragment at 3. cbn [truthy isEmpty negb].
    rewrite (appendFragment_nonempty f1) by done.
    rewrite appendFragment_nonempty by (by apply append_nonempty).
    subst joined. by rewrite !append_assoc3. }
  split; [split; [done|]|].
  { intros tm. rewrite Hfl1. intros ->%list_elem_of_singleton. cbn. lia. }
  split; [split; [done|]|].
  { intros tm. rewrite Hfl2. intros ->%list_elem_of_singleton. cbn. lia. }
  split; [done|]. split; [done|].
  split; [by rewrite Hcalls3, Hcalls2, Hcalls1|].
  assert (Hlast3 : (lastTranslationTime w3 <= t3)%Z) by lia.
  destruct (pending_flush id t3 w3 Hfind3 Hfl3 Hc3 Hlast3) as [Hearly Hfire].
  split; [exact Hearly|]. split; [|apply processWordBuffer_blank].
  intros t Ht Hnb Hsj Hpj.
  rewrite <- Hjoined, <- Hcalls1, <- Hcalls2, <- Hcalls3.
  apply Hfire; [done | by rewrite Hjoined
               | by rewrite Hjoined, Hs3', Hs2', Hs1'
               | by rewrite Hjoined, Hp3', Hp2', Hp1'].
Qed.

Lemma debounce_coalescing_witness :
  wordBuffer yesSent = ""
  ∧ "well" ≠ ""
  ∧ wordBuffer (appendAt 3500 "indeed" (appendAt 3400 "then"
                  (appendAt 3300 "well" yesSent)))
    = "well then indeed"
  ∧ flushTimers (appendAt 3500 "indeed" (appendAt 3400 "then"
                   (appendAt 3300 "well" yesSent)))
    = [flushTimer 5%positive 3500]
  ∧ sendCalls (fireTimer 5%positive
                 (step (Tick 5500)
                    (appendAt 3500 "indeed" (appendAt 3400 "then"
                       (appendAt 3300 "well" yesSent)))))
    = ["yes"; "well then indeed"].
Proof.
  assert (Hbuf : wordBuffer yesSent = "") by (vm_compute; reflexivity).
  assert (Hown : flushOwned yesSent).
  { intros tm Hin. exfalso. revert Hin.
    assert (flushTimers yesSent = []) as -> by (vm_compute; reflexivity).
    apply not_elem_of_nil. }
  assert (Hwf : wellFormedTimers yesSent).
  { intros tm Hin. revert Hin.
    assert (timers yesSent = [mkTimer 1%positive 3500 (Some 250) CbIntervalCheck])
      as -> by (vm_compute; reflexivity).
    intros ->%list_elem_of_singleton. vm_compute. reflexivity. }
  assert (Hlast : (lastTranslationTime yesSent <= clock yesSent)%Z)
    by (vm_compute; discriminate).
  assert (Hf1 : "well" ≠ "") by discriminate.
  assert (Hfresh : ∀ f, f ∈ ["well"; "then"; "indeed"] →
                     (f ∉ skippedTexts yesSent) ∧ (f ∉ processedTexts yesSent)).
  { intros f Hf. repeat (apply elem_of_cons in Hf as [->|Hf]);
      [| | |exfalso; exact (not_elem_of_nil _ Hf)];
      (split; by_compute). }
  assert (Ht1 : (clock yesSent <= 3300)%Z) by (vm_compute; discriminate).
  assert (Ht2 : (3300 <= 3400 <= 3300 + 500)%Z) by lia.
  assert (Ht3 : (3400 <= 3500 <= 3400 + 500)%Z) by lia.
  pose proof (debounce_coalescing yesSent "well" "then" "indeed" 3300 3400 3500
                Hbuf Hown Hwf Hlast Hf1 Hfresh Ht1 Ht2 Ht3) as H.
  cbv zeta in H. destruct H as (_ & _ & Hj & Hfl & _ & _ & Hsend & _).
  assert (Hid : nextTimerId (appendAt 3400 "then" (appendAt 3300 "well" yesSent))
                = 5%positive) by (vm_compute; reflexivity).
  rewrite Hid in Hfl, Hsend.
  split; [exact Hbuf|]. split; [exact Hf1|].
  split; [etrans; [exact Hj | vm_compute; reflexivity]|].
  split; [exact Hfl|].
  destruct (Hsend 5500) as (Hcalls & _);
    [lia | vm_compute; discriminate
    | by_compute
    | by_compute |].
  etrans; [exact Hcalls | vm_compute; reflexivity].
Defined.

(** C7 (counterexample): in a session that has already sent "yes", the
    texts "well", "yes" and "indeed" are appended 100 ms apart. The second
    append is stopped by the dedup guard: it neither concatenates its text
    nor restarts the timer, and the buffer ends as "well indeed", not as
    the three texts joined by spaces. *)
Lemma processed_fragment_is_not_appended :
  "yes" ∈ processedTexts yesSent
  ∧ wordBuffer yesSent = ""
  ∧ appendAt 3400 "yes" (appendAt 3300 "well" yesSent)
    = step (Tick 3400) (appendAt 3300 "well" yesSent)
  ∧ flushTimers (appendAt 3400 "yes" (appendAt 3300 "well" yesSent))
    = [flushTimer 3%positive 3300]
  ∧ wordBuffer (appendAt 3500 "indeed" (appendAt 3400 "yes"
                  (appendAt 3300 "well" yesSent)))
    = "well indeed"
  ∧ wordBuffer (appendAt 3500 "indeed" (appendAt 3400 "yes"
                  (appendAt 3300 "well" yesSent)))
    ≠ "well yes indeed".
Proof.
  split; [by_compute|].
  split; [vm_compute; reflexivity|]. split; [vm_compute; reflexivity|].
  split; [vm_compute; reflexivity|]. split; [vm_compute; reflexivity|].
  vm_compute. discriminate.
Qed.

(* ===================================================================== *)
(* 19. Stop                                                              *)
(* ===================================================================== *)

Lemma cancel_subset handle pool tm : tm ∈ cancel handle pool → tm ∈ pool.
Proof.
  destruct handle; cbn; [|done]. by intros [_ ?]%list_elem_of_filter.
Qed.

Lemma stopCaptionDetection_closed_form w :
  stopCaptionDetection w
  = mkWorld false (lastProcessedText w) (processedWords w) (translationOverlay w)
      (targetLanguage w) (isConnected w) false None false (lastTranslationTime w)
      "" None ∅ ∅ true (lastSeenCaptionElement w) (clock w)
      (cancel (bufferTimeout w) (cancel (checkInterval w) (timers w)))
      (nextTimerId w) (caption w) (sendCalls w) (inflight w).
Proof.
  destruct w as [isM lastT pWords ovl lang conn obs chk act lastTime buf
                 bufT pTexts sTexts first lastEl clk tms nextId cap calls infl].
  destruct obs, chk as [idc|], bufT as [idb|]; reflexivity.
Qed.




(* ===================================================================== *)
(* 20. Failure of a send                                                 *)
(* ===================================================================== *)

Lemma flushTimers_displayTranslation data w :
  flushTimers (displayTranslation data w) = flushTimers w.
Proof.
  unfold displayTranslation. destruct (translationOverlay w); [|reflexivity].
  unfold flushTimers. cbn. rewrite filter_app. cbn.
  rewrite decide_False by discriminate. apply app_nil_r.
Qed.

Lemma removeFirst_subset text l x : x ∈ removeFirst text l → x ∈ l.
Proof.
  induction l as [|y l IH]; cbn; [done|].
  destruct (JsString.eqb y text).
  - intros Hx. by right.
  - intros [->|Hx]%elem_of_cons; [left | right; by apply IH].
Qed.

Lemma inflight_displayTranslation data w :
  inflight (displayTranslation data w) = inflight w.
Proof. unfold displayTranslation. destruct (translationOverlay w); reflexivity. Qed.

Lemma overlay_displayTranslation data w ov :
  translationOverlay w = Some ov →
  translationOverlay (displayTranslation data w)
  = Some (mkOverlay (originalText data) (translatedText data) true).
Proof. intros H. unfold displayTranslation. rewrite H. reflexivity. Qed.

(** C9 (as amended): when the send of a text T does not succeed, nothing
    reaches the observation pipeline: the completion only writes to the
    overlay. A rejected fetch (network error) or an unreadable body shows
    "[Translation Error: T]"; a response with a non-success status shows
    "[Translated: T]"; no audio is played. The dedup sets, the buffer, the
    flush timers and the list of calls are unchanged, no new fetch is
    started, and for the rest of the session T is never sent again. *)
Theorem send_failure_is_contained (w : World) (T : string) (o : FetchOutcome) :
  let w' := fetchSettled T o w in
  (o = FetchRejected ∨ o = FetchResponded true None →
     translationShown T o
     = mkTranslationData T ("[Translation Error: " ++ T ++ "]") (3 # 10))
  ∧ (∀ body, o = FetchResponded false body →
       translationShown T o
       = mkTranslationData T ("[Translated: " ++ T ++ "]") (5 # 10))
  ∧ (failed o → audioPlayed o = NoAudio)
  ∧ (∀ overlay, T ∈ inflight w → translationOverlay w = Some overlay →
       translationOverlay w'
       = Some (mkOverlay (originalText (translationShown T o))
                 (translatedText (translationShown T o)) true))
  ∧ guardView w' = guardView w
  ∧ baselineView w' = baselineView w
  ∧ flushTimers w' = flushTimers w
  ∧ (T ∈ processedTexts w → T ∈ processedTexts w')
  ∧ sendCalls w' = sendCalls w
  ∧ (∀ x, x ∈ inflight w' → x ∈ inflight w)
  ∧ (isMonitoring w = true → T ∈ processedTexts w →
     ∀ es, Forall (λ e, e ≠ StopMessage) es →
       ∃ sent, sendCalls (run es w') = (sendCalls w ++ sent)%list ∧ T ∉ sent).
Proof.
  intros w'.
  assert (Hg : guardView w' = guardView w) by apply (frame_fetchSettled guardView).
  assert (Hb : baselineView w' = baselineView w)
    by apply (frame_fetchSettled baselineView).
  destruct (guardView_fields _ _ Hg) as (Hp & Hs & Hc).
  split; [intros [-> | ->]; reflexivity|].
  split; [intros body ->; reflexivity|].
  split; [destruct o as [|[] [r|]]; cbn; try reflexivity; intros [?|?]; congruence|].
  split.
  { intros overlay Hin Hov. subst w'. unfold fetchSettled.
    rewrite bool_decide_eq_true_2 by done.
    by apply (overlay_displayTranslation _ _ overlay). }
  split; [done|]. split; [done|]. split.
  { subst w'. unfold fetchSettled. case_bool_decide; [|done].
    by rewrite flushTimers_displayTranslation. }
  split; [by rewrite Hp|]. split; [done|]. split.
  { intros x. subst w'. unfold fetchSettled. case_bool_decide; [|done].
    rewrite inflight_displayTranslation. cbn. apply removeFirst_subset. }
  intros HM HT es Hes.
  assert (HM' : isMonitoring w' = true).
  { unfold guardView in Hg. injection Hg as -> _ _ _. done. }
  destruct (run_dispatchStep es w' HM' Hes) as (_ & _ & _ & sent & Hsend & _ & HX).
  exists sent. split; [by rewrite Hsend, Hc|].
  intros Hin. apply HX in Hin as (Hnot & _). apply Hnot. by rewrite Hp.
Qed.

Lemma send_failure_is_contained_witness :
  translatedText (translationShown "Hello there" FetchRejected)
  = "[Translation Error: Hello there]"
  ∧ translationOverlay (fetchSettled "Hello there" FetchRejected helloSent)
    = Some (mkOverlay "Hello there" "[Translation Error: Hello there]" true)
  ∧ sendCalls (fetchSettled "Hello there" FetchRejected helloSent) = ["Hello there"].
Proof.
  destruct (send_failure_is_contained helloSent "Hello there" FetchRejected)
    as (Hshown & _ & _ & Hov & _ & _ & _ & _ & Hcalls & _).
  assert (Hin : "Hello there" ∈ inflight helloSent).
  { assert (inflight helloSent = ["Hello there"]) as -> by (vm_compute; reflexivity).
    apply list_elem_of_singleton. reflexivity. }
  assert (Ho : translationOverlay helloSent = Some (mkOverlay "-" "-" false))
    by (vm_compute; reflexivity).
  split; [rewrite Hshown; [vm_compute; reflexivity | left; reflexivity]|].
  split; [etrans; [exact (Hov _ Hin Ho) | vm_compute; reflexivity]|].
  etrans; [exact Hcalls | vm_compute; reflexivity].
Defined.

(** C9 (counterexample): the fetch for "Hello there" comes back with a
    non-success status. The overlay then shows "[Translated: Hello
    there]", not "[Translation Error: Hello there]". *)
Lemma non_success_status_shows_translated :
  "Hello there" ∈ processedTexts helloSent
  ∧ inflight helloSent = ["Hello there"]
  ∧ failed (FetchResponded false None)
  ∧ translationOverlay (fetchSettled "Hello there" (FetchResponded false None) helloSent)
    = Some (mkOverlay "Hello there" "[Translated: Hello there]" true)
  ∧ translatedText (translationShown "Hello there" (FetchResponded false None))
    ≠ "[Translation Error: Hello there]".
Proof.
  split; [by_compute|]. split; [vm_compute; reflexivity|].
  split; [left; reflexivity|]. split; [vm_compute; reflexivity|].
  vm_compute. discriminate.
Qed.

(* ===================================================================== *)
(* 21. Strings: trimming and the caption validity check                  *)
(* ===================================================================== *)

Section Trimming.

Implicit Types s a b : string.

Lemma existsChar_trimStart p s :
  (∀ c, p c = true → isWhiteSpace c = false) →
  existsChar p (trimStart s) = existsChar p s.
Proof.
  intros Hp. induction s as [|c s IH]; [reflexivity|]. cbn.
  destruct (isWhiteSpace c) eqn:Hc; [|reflexivity].
  rewrite IH. destruct (p c) eqn:Hpc; [|reflexivity].
  apply Hp in Hpc. congruence.
Qed.

Lemma existsChar_trimEnd p s :
  (∀ c, p c = true → isWhiteSpace c = false) →
  existsChar p (trimEnd s) = existsChar p s.
Proof.
  intros Hp. induction s as [|c s IH]; [reflexivity|]. cbn.
  destruct (trimEnd s) as [|d r] eqn:Ht.
  - rewrite <- IH. cbn. destruct (isWhiteSpace c) eqn:Hc; cbn.
    + destruct (p c) eqn:Hpc; [|reflexivity]. apply Hp in Hpc. congruence.
    + by rewrite orb_false_r.
  - cbn. cbn in IH. by rewrite IH.
Qed.

Lemma existsChar_trim p s :
  (∀ c, p c = true → isWhiteSpace c = false) →
  existsChar p (trim s) = existsChar p s.
Proof.
  intros Hp. unfold trim. by rewrite existsChar_trimEnd, existsChar_trimStart.
Qed.

Lemma existsChar_forallChar p q s :
  (∀ c, p c = true → q c = false) →
  existsChar p s = true → forallChar q s = false.
Proof.
  intros Hpq. induction s as [|c s IH]; [discriminate|]. cbn.
  destruct (p c) eqn:Hpc; cbn.
  - intros _. by rewrite (Hpq _ Hpc).
  - intros H. rewrite (IH H). apply andb_false_r.
Qed.

Lemma letter_not_whitespace c : isAsciiLetter c = true → isWhiteSpace c = false.
Proof.
  destruct c as [[] [] [] [] [] [] [] []]; vm_compute; congruence.
Qed.

Lemma letter_not_number_or_punctuation c :
  isAsciiLetter c = true → isNumberOrPunctuation c = false.
Proof.
  destruct c as [[] [] [] [] [] [] [] []]; vm_compute; congruence.
Qed.

End Trimming.

Lemma isValidClosedCaption_letter text :
  existsChar isAsciiLetter text = true →
  isValidClosedCaption text = (3 <=? String.length text)%nat.
Proof.
  intros Hl. unfold isValidClosedCaption.
  assert (Htrim : existsChar isAsciiLetter (trim text) = true)
    by (rewrite existsChar_trim; [done | apply letter_not_whitespace]).
  assert (Hne : truthy text = true) by (destruct text; [discriminate | reflexivity]).
  assert (Hlen : (String.length (trim text) =? 0)%nat = false)
    by (destruct (trim text); [discriminate | reflexivity]).
  rewrite Hne, Hlen, Hl. cbn [negb orb andb].
  rewrite (existsChar_forallChar _ _ _ letter_not_number_or_punctuation Hl).
  cbn [negb]. apply andb_true_r.
Qed.

Lemma isValidClosedCaption_no_letter text :
  existsChar isAsciiLetter text = false → isValidClosedCaption text = false.
Proof.
  intros Hl. unfold isValidClosedCaption. rewrite Hl. by destruct (_ || _).
Qed.

(** X1: isValidClosedCaption accepts a text exactly when it contains an
    ASCII letter and has at least three characters; the checks for a blank
    text and for "only numbers and punctuation" never reject a text that
    passes these two. *)
Theorem isValidClosedCaption_letter_and_length (text : string) :
  isValidClosedCaption text
  = existsChar isAsciiLetter text && (3 <=? String.length text)%nat.
Proof.
  destruct (existsChar isAsciiLetter text) eqn:Hl; cbn [andb].
  - by apply isValidClosedCaption_letter.
  - by apply isValidClosedCaption_no_letter.
Qed.

(* ===================================================================== *)
(* 22. The text differ on arbitrary inputs                               *)
(* ===================================================================== *)

Section DifferLaws.

Implicit Types s a b previousText currentText : string.

Lemma append_nil_r s : s ++ "" = s.
Proof.
  induction s as [|c s IH]; [reflexivity|].
  change (String c (s ++ "") = String c s). by rewrite IH.
Qed.

Lemma length_append a b :
  String.length (a ++ b) = (String.length a + String.length b)%nat.
Proof.
  induction a as [|c a IH]; [reflexivity|].
  change (S (String.length (a ++ b)) = S (String.length a + String.length b)).
  by rewrite IH.
Qed.

(* Trimming only removes characters at the two ends. *)
Lemma trimStart_infix s : ∃ pre, s = pre ++ trimStart s.
Proof.
  induction s as [|c s [pre IH]]; [by exists ""|]. cbn.
  destruct (isWhiteSpace c).
  - exists (String c pre). change (String c s = String c (pre ++ trimStart s)).
    by rewrite <- IH.
  - by exists "".
Qed.

Lemma trimEnd_infix s : ∃ post, s = trimEnd s ++ post.
Proof.
  induction s as [|c s [post IH]]; [by exists ""|]. cbn.
  destruct (trimEnd s) as [|d r] eqn:Ht.
  - destruct (isWhiteSpace c).
    + by exists (String c s).
    + exists post. change (String c s = String c ("" ++ post)). by rewrite <- IH.
  - exists post. change (String c s = String c (String d r ++ post)). by rewrite <- IH.
Qed.

Lemma trim_infix s : ∃ pre post, s = pre ++ trim s ++ post.
Proof.
  destruct (trimStart_infix s) as [pre Hpre].
  destruct (trimEnd_infix (trimStart s)) as [post Hpost].
  exists pre, post. unfold trim. by rewrite <- Hpost.
Qed.

Lemma length_trim s : (String.length (trim s) <= String.length s)%nat.
Proof.
  destruct (trim_infix s) as (pre & post & H).
  rewrite H at 2. rewrite !length_append. lia.
Qed.

Lemma substringFrom_suffix n s : ∃ pre, s = pre ++ substringFrom n s
                                        ∧ String.length pre = Nat.min n (String.length s).
Proof.
  revert s. induction n as [|n IH]; intros s; [by exists ""|].
  destruct s as [|c s]; [by exists ""|].
  destruct (IH s) as (pre & Hs & Hlen). exists (String c pre). split.
  - change (String c s = String c (pre ++ substringFrom n s)). by rewrite <- Hs.
  - cbn. by rewrite Hlen.
Qed.


(* The result of a trim starts and ends with a character that is not
   white space, so trimming it again changes nothing. *)
Lemma trimEnd_head c s :
  isWhiteSpace c = false → ∃ r, trimEnd (String c s) = String c r.
Proof.
  intros Hc. cbn. destruct (trimEnd s); rewrite ?Hc; eauto.
Qed.

Lemma trimEnd_idempotent s : trimEnd (trimEnd s) = trimEnd s.
Proof.
  induction s as [|c s IH]; [reflexivity|]. cbn.
  destruct (trimEnd s) as [|d r] eqn:Ht.
  - destruct (isWhiteSpace c) eqn:Hc; [reflexivity|]. cbn. by rewrite Hc.
  - cbn [trimEnd] in IH |- *. rewrite IH. reflexivity.
Qed.

Lemma trimStart_head s :
  trimStart s = "" ∨ ∃ c r, trimStart s = String c r ∧ isWhiteSpace c = false.
Proof.
  induction s as [|c s IH]; [by left|]. cbn.
  destruct (isWhiteSpace c) eqn:Hc; [exact IH|]. right. eauto.
Qed.

Lemma trim_idempotent s : trim (trim s) = trim s.
Proof.
  unfold trim. destruct (trimStart_head s) as [-> | (c & r & -> & Hc)]; [reflexivity|].
  destruct (trimEnd_head c r Hc) as [r' Hr]. rewrite Hr.
  cbn [trimStart]. rewrite Hc. rewrite <- Hr. apply trimEnd_idempotent.
Qed.

End DifferLaws.

(** X2: for a non-empty previous text the differ returns either the empty
    string or a text of at least two characters without white space at
    either end; the result is never longer than the current text exceeds
    the previous one, and it occurs in the current text at or after the
    offset given by the length of the previous text. *)
Theorem extractNewWords_result (previousText currentText : string) :
  previousText ≠ "" →
  let result := extractNewWords previousText currentText in
  (result = "" ∨ (2 <= String.length result)%nat)
  ∧ trim result = result
  ∧ (String.length result
     <= String.length currentText - String.length previousText)%nat
  ∧ ∃ before after,
      substringFrom (String.length previousText) currentText
      = before ++ result ++ after.
Proof.
  intros Hne result. subst result. unfold extractNewWords.
  rewrite (truthy_nonempty _ Hne). cbn [negb].
  set (suffix := substringFrom (String.length previousText) currentText).
  assert (Hempty : ("" = "" ∨ (2 <= String.length "")%nat)
                   ∧ trim "" = ""
                   ∧ (String.length ""
                      <= String.length currentText - String.length previousText)%nat
                   ∧ ∃ before after, suffix = before ++ "" ++ after).
  { split; [by left|]. split; [reflexivity|]. split; [cbn; lia|].
    by exists "", suffix. }
  destruct (_ <=? _)%nat; [exact Hempty|].
  destruct (negb _); [exact Hempty|].
  destruct (Nat.leb_spec 2 (String.length (trim suffix))) as [Hlen|_]; [|exact Hempty].
  split; [by right|]. split; [apply trim_idempotent|]. split.
  - pose proof (length_trim suffix) as Ht.
    destruct (substringFrom_suffix (String.length previousText) currentText)
      as (pre & Hcur & Hpre).
    fold suffix in Hcur.
    assert (String.length currentText
            = (String.length pre + String.length suffix)%nat)
      by (rewrite Hcur at 1; apply length_append).
    lia.
  - apply trim_infix.
Qed.

Lemma extractNewWords_result_witness :
  "Hello wor" ≠ ""
  ∧ trim (extractNewWords "Hello wor" "Hello world now")
    = extractNewWords "Hello wor" "Hello world now"
  ∧ (String.length (extractNewWords "Hello wor" "Hello world now") <= 15 - 9)%nat.
Proof.
  assert (Hne : "Hello wor" ≠ "") by discriminate.
  destruct (extractNewWords_result "Hello wor" "Hello world now" Hne)
    as (_ & Htrim & Hlen & _).
  split; [exact Hne|]. split; [exact Htrim | exact Hlen].
Defined.

Section Extension.

Implicit Types s a b previousText rest : string.






Lemma forallChar_removeAll cls s :
  forallChar (λ c, negb (cls c)) (removeAll cls s) = true.
Proof.
  induction s as [|c s IH]; [reflexivity|]. cbn [removeAll].
  destruct (cls c) eqn:Hc; [exact IH|]. cbn [forallChar]. by rewrite Hc, IH.
Qed.

Lemma lowerChar_normal c :
  isStrippedPunctuation c = false →
  isStrippedPunctuation (lowerChar c) = false ∧ isAsciiCapital (lowerChar c) = false.
Proof.
  destruct c as [[] [] [] [] [] [] [] []]; vm_compute; intros; split; congruence.
Qed.

Lemma forallChar_toLowerCase s :
  forallChar (λ c, negb (isStrippedPunctuation c)) s = true →
  forallChar (λ c, negb (isStrippedPunctuation c) && negb (isAsciiCapital c))
    (toLowerCase s) = true.
Proof.
  induction s as [|c s IH]; [reflexivity|]. cbn [forallChar toLowerCase].
  intros [Hc Hs]%andb_prop. apply negb_true_iff in Hc.
  destruct (lowerChar_normal c Hc) as [-> ->]. cbn [negb andb]. by apply IH.
Qed.

Lemma forallChar_app p a b :
  forallChar p (a ++ b) = forallChar p a && forallChar p b.
Proof.
  induction a as [|c a IH]; [reflexivity|].
  change (p c && forallChar p (a ++ b) = p c && forallChar p a && forallChar p b).
  by rewrite IH, andb_assoc.
Qed.

Lemma forallChar_trim p s : forallChar p s = true → forallChar p (trim s) = true.
Proof.
  destruct (trim_infix s) as (pre & post & Hs). intros H.
  rewrite Hs, !forallChar_app in H.
  by apply andb_prop in H as [_ [H _]%andb_prop].
Qed.

End Extension.

(** C3: for a non-empty previous text the differ returns the empty string
    when the normalized current text is not strictly longer than the
    normalized previous text or does not start with it; otherwise it
    returns the trimmed part of the original current text from the length
    of the original previous text on, provided that part has at least two
    characters, and the empty string if it has fewer. The normalized text
    is the text without the marks . , ! ? ; : then lower-cased, then
    trimmed: it has none of these marks and no capital A-Z, and no white
    space at either end. So the comparison ignores drift in case,
    punctuation and outer white space, while the result is cut from the
    original text: "Hello wor" and "Hello world now" give "ld now",
    "HELLO" and "hello there" give "there", "Hello, wor" and
    "hello world now" give "d now", " Hello" and "Hello there!" give
    "there!"; "Hello." and "HELLO!" give the empty string (not longer), as
    do "Hello" and "Help me now" (not a prefix). *)
Theorem extractNewWords_spec (previousText currentText : string) :
  previousText ≠ "" →
  let np := normalizeText previousText in
  let nc := normalizeText currentText in
  let suffix := trim (substringFrom (String.length previousText) currentText) in
  ((¬ (String.length np < String.length nc)%nat ∨ ¬ (∃ rest, nc = np ++ rest)) →
     extractNewWords previousText currentText = "")
  ∧ (((String.length np < String.length nc)%nat ∧ (∃ rest, nc = np ++ rest)) →
       ((2 ≤ String.length suffix)%nat →
          extractNewWords previousText currentText = suffix)
       ∧ ((String.length suffix < 2)%nat →
          extractNewWords previousText currentText = ""))
  ∧ extractNewWords "Hello wor" "Hello world now" = "ld now"
  ∧ (∀ text,
       normalizeText text = trim (toLowerCase (removeAll isStrippedPunctuation text))
       ∧ forallChar (λ c, negb (isStrippedPunctuation c) && negb (isAsciiCapital c))
           (normalizeText text) = true
       ∧ trim (normalizeText text) = normalizeText text)
  ∧ normalizeText "  Hello, World!  " = "hello world"
  ∧ extractNewWords "HELLO" "hello there" = "there"
  ∧ extractNewWords "Hello, wor" "hello world now" = "d now"
  ∧ extractNewWords " Hello" "Hello there!" = "there!"
  ∧ extractNewWords "Hello." "HELLO!" = ""
  ∧ extractNewWords "Hello" "Help me now" = "".
Proof.
  intros Hne np nc suffix.
  assert (Hnorm : ∀ text,
    normalizeText text = trim (toLowerCase (removeAll isStrippedPunctuation text))
    ∧ forallChar (λ c, negb (isStrippedPunctuation c) && negb (isAsciiCapital c))
        (normalizeText text) = true
    ∧ trim (normalizeText text) = normalizeText text).
  { intros text. split; [reflexivity|]. split.
    - apply forallChar_trim, forallChar_toLowerCase, forallChar_removeAll.
    - apply trim_idempotent. }
  assert (Hcases :
    ((¬ (String.length np < String.length nc)%nat ∨ ¬ (∃ rest, nc = np ++ rest)) →
       extractNewWords previousText currentText = "")
    ∧ (((String.length np < String.length nc)%nat ∧ (∃ rest, nc = np ++ rest)) →
         ((2 ≤ String.length suffix)%nat →
            extractNewWords previousText currentText = suffix)
         ∧ ((String.length suffix < 2)%nat →
            extractNewWords previousText currentText = ""))).
  { unfold extractNewWords. rewrite (truthy_nonempty _ Hne). cbn [negb].
    fold np nc suffix. split.
    - intros [Hlen | Hpre].
      + destruct (Nat.leb_spec (String.length nc) (String.length np));
          [reflexivity | lia].
      + destruct (String.length nc <=? String.length np)%nat; [reflexivity|].
        destruct (startsWith nc np) eqn:Hs; [|reflexivity].
        exfalso. apply Hpre. by apply startsWith_app.
    - intros [Hlen Hpre].
      destruct (Nat.leb_spec (String.length nc) (String.length np)); [lia|].
      apply startsWith_app in Hpre. rewrite Hpre. cbn [negb].
      split; intros Hs.
      + destruct (Nat.leb_spec 2 (String.length suffix)); [reflexivity | lia].
      + destruct (Nat.leb_spec 2 (String.length suffix)); [lia | reflexivity]. }
  destruct Hcases as [Hempty Hcut].
  split; [exact Hempty|]. split; [exact Hcut|].
  split; [vm_compute; reflexivity|]. split; [exact Hnorm|].
  split; [vm_compute; reflexivity|]. split; [vm_compute; reflexivity|].
  split; [vm_compute; reflexivity|]. split; [vm_compute; reflexivity|].
  split; vm_compute; reflexivity.
Qed.

Lemma extractNewWords_spec_witness :
  "HELLO!" ≠ ""
  ∧ normalizeText "HELLO!" = "hello"
  ∧ normalizeText "Hello there." = "hello there"
  ∧ extractNewWords "HELLO!" "Hello there." = "there.".
Proof.
  assert (Hne : "HELLO!" ≠ "") by discriminate.
  assert (Hp : normalizeText "HELLO!" = "hello") by (vm_compute; reflexivity).
  assert (Hc : normalizeText "Hello there." = "hello there")
    by (vm_compute; reflexivity).
  split; [exact Hne|]. split; [exact Hp|]. split; [exact Hc|].
  destruct (extractNewWords_spec "HELLO!" "Hello there." Hne) as (_ & Hcut & _).
  cbv zeta in Hcut. rewrite Hp, Hc in Hcut.
  assert (Hlonger : (String.length "hello" < String.length "hello there")%nat)
    by (cbn; lia).
  assert (Hprefix : ∃ rest, "hello there" = "hello" ++ rest)
    by (exists " there"; reflexivity).
  destruct (Hcut (conj Hlonger Hprefix)) as [Hsuffix _].
  assert (Hs : trim (substringFrom (String.length "HELLO!") "Hello there.")
               = "there.") by (vm_compute; reflexivity).
  rewrite Hs in Hsuffix. apply Hsuffix. cbn. lia.
Defined.



(* ===================================================================== *)
(* 23. The selector search                                               *)
(* ===================================================================== *)

Section Search.

Variable accept : string → bool.

Lemma scanDown_Some nodes i found :
  scanDown accept nodes i = Some found →
  ∃ j n, (j < i)%nat ∧ nodes !! j = Some n ∧ candidate accept n found
         ∧ ∀ k m, (j < k < i)%nat → nodes !! k = Some m → rejected accept m.
Proof.
  induction i as [|i IH]; [discriminate|]. cbn [scanDown].
  assert (Hrec : scanDown accept nodes i = Some found →
                 (∀ m, nodes !! i = Some m → rejected accept m) →
                 ∃ j n, (j < S i)%nat ∧ nodes !! j = Some n ∧ candidate accept n found
                        ∧ ∀ k m, (j < k < S i)%nat → nodes !! k = Some m →
                                 rejected accept m).
  { intros H Hi. destruct (IH H) as (j & n & Hj & Hn & Hc & Hrej).
    exists j, n. split; [lia|]. split; [done|]. split; [done|].
    intros k m Hk Hm. destruct (decide (k = i)) as [->|]; [by apply Hi|].
    apply (Hrej k); [lia | done]. }
  destruct (nodes !! i) as [n|] eqn:Hn; [|intros H; apply Hrec; [done | congruence]].
  destruct (trimmedText n) as [text|] eqn:Ht.
  - destruct (accept text) eqn:Ha.
    + intros [= <-]. exists i, n. split; [lia|]. split; [done|].
      split; [by split|]. intros k m Hk. lia.
    + intros H. apply Hrec; [done|]. intros m [= <-] text' Ht'. congruence.
  - intros H. apply Hrec; [done|]. intros m [= <-] text' Ht'. congruence.
Qed.

Lemma scanDown_None nodes i :
  scanDown accept nodes i = None →
  ∀ k m, (k < i)%nat → nodes !! k = Some m → rejected accept m.
Proof.
  induction i as [|i IH]; [intros _ k m Hk; lia|]. cbn [scanDown].
  intros H k m Hk Hm.
  destruct (decide (k = i)) as [->|Hne].
  - rewrite Hm in H. intros text Ht. rewrite Ht in H.
    destruct (accept text); [discriminate | reflexivity].
  - apply (IH) with k; [|lia|done].
    destruct (nodes !! i) as [n|]; [|done].
    destruct (trimmedText n) as [text|]; [|done].
    destruct (accept text); [discriminate | done].
Qed.

(* The scan keeps the last node, in document order, whose text passes. *)
Lemma scanNewest_Some nodes found :
  scanNewest accept nodes = Some found ↔
  ∃ before n after,
    nodes = (before ++ n :: after)%list ∧ candidate accept n found
    ∧ ∀ m, m ∈ after → rejected accept m.
Proof.
  unfold scanNewest. split.
  - intros H. apply scanDown_Some in H as (j & n & Hj & Hn & Hc & Hrej).
    exists (take j nodes), n, (drop (S j) nodes).
    split; [symmetry; by apply take_drop_middle|]. split; [done|].
    intros m [k Hk]%list_elem_of_lookup. rewrite lookup_drop in Hk.
    apply (Hrej (S j + k)%nat); [|done].
    apply lookup_lt_Some in Hk. lia.
  - intros (before & n & after & -> & (Ht & Hel & Ha) & Hrej).
    destruct (scanDown accept (before ++ n :: after) (List.length (before ++ n :: after)))
      as [found'|] eqn:Hscan.
    + apply scanDown_Some in Hscan as (j & n' & Hj & Hn' & (Ht' & Hel' & Ha') & Hrej').
      destruct (Nat.lt_trichotomy j (List.length before)) as [Hlt|[->|Hgt]].
      * exfalso. assert (Hrn : rejected accept n).
        { apply (Hrej' (List.length before)); [rewrite length_app in *; cbn; lia|].
          by rewrite list_lookup_middle. }
        specialize (Hrn _ Ht). congruence.
      * rewrite list_lookup_middle in Hn' by done. injection Hn' as <-.
        destruct found, found'; cbn in *. congruence.
      * exfalso. rewrite lookup_app_r in Hn' by lia.
        destruct (j - List.length before)%nat as [|k] eqn:Hk; [lia|]. cbn in Hn'.
        assert (Hm : n' ∈ after) by (apply list_elem_of_lookup; eauto).
        specialize (Hrej _ Hm _ Ht'). congruence.
    + exfalso. assert (Hrn : rejected accept n).
      { apply (scanDown_None _ _ Hscan (List.length before));
          [rewrite length_app; cbn; lia | by rewrite list_lookup_middle]. }
      specialize (Hrn _ Ht). congruence.
Qed.

Lemma scanNewest_None nodes :
  scanNewest accept nodes = None ↔ ∀ m, m ∈ nodes → rejected accept m.
Proof.
  unfold scanNewest. split.
  - intros H m [k Hk]%list_elem_of_lookup.
    apply (scanDown_None _ _ H k); [by apply lookup_lt_Some in Hk | done].
  - intros Hrej. destruct (scanDown accept nodes (List.length nodes)) as [found|] eqn:H;
      [|done].
    apply scanDown_Some in H as (j & n & _ & Hn & (Ht & _ & Ha) & _).
    assert (Hin : n ∈ nodes) by (apply list_elem_of_lookup; eauto).
    specialize (Hrej _ Hin _ Ht). congruence.
Qed.

End Search.

Lemma acceptable_valid text : acceptable text = isValidClosedCaption text.
Proof.
  unfold acceptable. destruct (existsChar isAsciiLetter text) eqn:Hl.
  - rewrite (isValidClosedCaption_letter _ Hl).
    destruct text; [discriminate|]. cbn [truthy isEmpty negb andb].
    apply andb_diag.
  - rewrite (isValidClosedCaption_no_letter _ Hl). apply andb_false_r.
Qed.

Lemma acceptableBroad_acceptable text :
  acceptableBroad text = true → acceptable text = true.
Proof.
  unfold acceptableBroad, acceptable.
  intros [[[H1 H2]%andb_prop _]%andb_prop H3]%andb_prop.
  by rewrite H1, H2, H3.
Qed.

Lemma searchSelectors_Some query selectors found :
  searchSelectors query selectors = Some found →
  ∃ selector, selector ∈ selectors
              ∧ scanNewest acceptable (query selector) = Some found.
Proof.
  induction selectors as [|s rest IH]; [discriminate|]. cbn.
  destruct (scanNewest acceptable (query s)) as [f|] eqn:Hs.
  - intros [= <-]. exists s. split; [left | done].
  - intros H. destruct (IH H) as (s' & Hin & Hs'). exists s'. split; [by right | done].
Qed.

Lemma searchSelectors_None query selectors :
  searchSelectors query selectors = None ↔
  ∀ selector, selector ∈ selectors → scanNewest acceptable (query selector) = None.
Proof.
  induction selectors as [|s rest IH]; cbn.
  - split; [intros _ s Hs; inversion Hs | done].
  - destruct (scanNewest acceptable (query s)) as [f|] eqn:Hs.
    + split; [discriminate|]. intros H. rewrite <- Hs. apply H. left.
    + rewrite IH. split.
      * intros H s' [->|Hin]%elem_of_cons; [done | by apply H].
      * intros H s' Hin. apply H. by right.
Qed.

(** X4: a scan over the matches of one selector keeps the newest match
    (the last in document order) whose trimmed text passes the check, and
    finds nothing exactly when no match passes; nodes without text content
    are passed over. *)
Theorem scan_keeps_newest_acceptable (accept : string → bool) (nodes : list Node)
    (found : Element * string) :
  (scanNewest accept nodes = Some found ↔
   ∃ before n after,
     nodes = (before ++ n :: after)%list ∧ candidate accept n found
     ∧ ∀ m, m ∈ after → rejected accept m)
  ∧ (scanNewest accept nodes = None ↔ ∀ m, m ∈ nodes → rejected accept m).
Proof. split; [apply scanNewest_Some | apply scanNewest_None]. Qed.

(** X5: whatever the selector search returns is the trimmed text content
    of a node the page really has, it has at least three characters,
    contains an ASCII letter and passes isValidClosedCaption; the
    observation pass accepts it as it is. *)
Theorem findCaption_sound (doc : Document) (element : Element) (text : string) :
  findCaption doc = Some (element, text) →
  (∃ n, onPage doc n ∧ nodeElement n = element ∧ trimmedText n = Some text)
  ∧ isValidClosedCaption text = true
  ∧ (3 <= String.length text)%nat
  ∧ existsChar isAsciiLetter text = true
  ∧ ∀ w, locateCaption (set_caption (findCaption doc) w) = Some (element, text).
Proof.
  intros Hfind.
  assert (Hnode : ∃ n, onPage doc n ∧ candidate acceptable n (element, text)).
  { unfold findCaption in Hfind.
    destruct (parentContainer doc) as [query|] eqn:Hparent.
    - destruct (searchSelectors query childSelectors) as [f|] eqn:H1.
      + injection Hfind as ->.
        apply searchSelectors_Some in H1 as (s & Hs & Hscan).
        apply scanNewest_Some in Hscan as (b & n & a & Hn & Hc & _).
        exists n. split; [|done]. left. exists query, s.
        split; [done|]. split; [done|]. rewrite Hn. apply elem_of_app. right. left.
      + destruct (searchSelectors (querySelectorAll doc) captionSelectors)
          as [f|] eqn:H2.
        * injection Hfind as ->.
          apply searchSelectors_Some in H2 as (s & Hs & Hscan).
          apply scanNewest_Some in Hscan as (b & n & a & Hn & Hc & _).
          exists n. split; [|done]. right. left. exists s.
          split; [done|]. rewrite Hn. apply elem_of_app. right. left.
        * apply scanNewest_Some in Hfind as (b & n & a & Hn & (Ht & Hel & Ha) & _).
          exists n. split.
          -- right. right. rewrite Hn. apply elem_of_app. right. left.
          -- split; [done|]. split; [done|]. by apply acceptableBroad_acceptable.
    - destruct (searchSelectors (querySelectorAll doc) captionSelectors)
        as [f|] eqn:H2.
      + injection Hfind as ->.
        apply searchSelectors_Some in H2 as (s & Hs & Hscan).
        apply scanNewest_Some in Hscan as (b & n & a & Hn & Hc & _).
        exists n. split; [|done]. right. left. exists s.
        split; [done|]. rewrite Hn. apply elem_of_app. right. left.
      + apply scanNewest_Some in Hfind as (b & n & a & Hn & (Ht & Hel & Ha) & _).
        exists n. split.
        * right. right. rewrite Hn. apply elem_of_app. right. left.
        * split; [done|]. split; [done|]. by apply acceptableBroad_acceptable. }
  destruct Hnode as (n & Hpage & Ht & Hel & Ha). cbn [fst snd] in Ht, Hel, Ha.
  pose proof Ha as Hv. rewrite acceptable_valid in Hv.
  pose proof Hv as Hlen.
  destruct (existsChar isAsciiLetter text) eqn:Hletter;
    [|by rewrite (isValidClosedCaption_no_letter _ Hletter) in Hlen].
  rewrite (isValidClosedCaption_letter _ Hletter) in Hlen.
  apply Nat.leb_le in Hlen.
  split; [by exists n|]. split; [done|]. split; [done|]. split; [done|].
  intros w. unfold locateCaption. cbn [caption set_caption]. rewrite Hfind.
  fold (acceptable text). by rewrite Ha.
Qed.

Lemma findCaption_sound_witness :
  findCaption samplePage = Some (E1, "Hello")
  ∧ isValidClosedCaption "Hello" = true
  ∧ existsChar isAsciiLetter "Hello" = true.
Proof.
  assert (H : findCaption samplePage = Some (E1, "Hello"))
    by (vm_compute; reflexivity).
  destruct (findCaption_sound samplePage E1 "Hello" H) as (_ & Hv & _ & Hl & _).
  split; [exact H|]. split; [exact Hv | exact Hl].
Defined.

(** X6: the selector search finds nothing exactly when no match of any of
    its queries has an acceptable text: none among the children of the
    parent container (when the page has one), none among the matches of
    the caption selectors, and none of at most 200 characters among the
    matches of the broad class search. A page without any of these nodes
    gives no caption and no error. *)
Theorem findCaption_None (doc : Document) :
  findCaption doc = None ↔
  (∀ query selector m,
     parentContainer doc = Some query → selector ∈ childSelectors →
     m ∈ query selector → rejected acceptable m)
  ∧ (∀ selector m,
       selector ∈ captionSelectors → m ∈ querySelectorAll doc selector →
       rejected acceptable m)
  ∧ (∀ m, m ∈ querySelectorAll doc broadSelector → rejected acceptableBroad m).
Proof.
  unfold findCaption. split.
  - intros H.
    destruct (parentContainer doc) as [query|] eqn:Hparent.
    + destruct (searchSelectors query childSelectors) eqn:H1; [discriminate|].
      destruct (searchSelectors (querySelectorAll doc) captionSelectors) eqn:H2;
        [discriminate|].
      split; [|split].
      * intros q s m [= <-] Hs Hm.
        pose proof (proj1 (searchSelectors_None _ _) H1 s Hs) as Hscan.
        by apply (proj1 (scanNewest_None _ _) Hscan).
      * intros s m Hs Hm.
        pose proof (proj1 (searchSelectors_None _ _) H2 s Hs) as Hscan.
        by apply (proj1 (scanNewest_None _ _) Hscan).
      * by apply scanNewest_None.
    + destruct (searchSelectors (querySelectorAll doc) captionSelectors) eqn:H2;
        [discriminate|].
      split; [|split].
      * intros q s m [=].
      * intros s m Hs Hm.
        pose proof (proj1 (searchSelectors_None _ _) H2 s Hs) as Hscan.
        by apply (proj1 (scanNewest_None _ _) Hscan).
      * by apply scanNewest_None.
  - intros (H1 & H2 & H3).
    assert (Hcap : searchSelectors (querySelectorAll doc) captionSelectors = None).
    { apply searchSelectors_None. intros s Hs. apply scanNewest_None.
      intros m Hm. by apply (H2 s). }
    assert (Hbroad : scanNewest acceptableBroad (querySelectorAll doc broadSelector)
                     = None) by by apply scanNewest_None.
    destruct (parentContainer doc) as [query|] eqn:Hparent.
    + assert (searchSelectors query childSelectors = None) as ->.
      { apply searchSelectors_None. intros s Hs. apply scanNewest_None.
        intros m Hm. by apply (H1 query s). }
      by rewrite Hcap.
    + by rewrite Hcap.
Qed.

(* ===================================================================== *)
(* 24. Invariants of the timer pool                                      *)
(* ===================================================================== *)

Section Pool.

Implicit Types (pool : list Timer) (next id : TimerId).

Lemma findTimer_Some id w tm :
  findTimer id w = Some tm → tm ∈ timers w ∧ tid tm = id.
Proof.
  unfold findTimer. intros [Hin Hid]%find_some.
  split; [by apply list_elem_of_In | by apply bool_decide_eq_true_1 in Hid].
Qed.

Lemma poolInv_view w w' :
  timers w' = timers w → nextTimerId w' = nextTimerId w →
  bufferTimeout w' = bufferTimeout w →
  poolInv w → poolInv w'.
Proof.
  unfold poolInv, wellFormedTimers, flushOwned, flushTimers.
  intros -> -> ->. done.
Qed.

Lemma flushTimers_snoc w pool tm :
  timers w = (pool ++ [tm])%list →
  flushTimers w
  = (filter (λ t, callback t = CbProcessWordBuffer) pool
     ++ if decide (callback tm = CbProcessWordBuffer) then [tm] else [])%list.
Proof.
  intros H. unfold flushTimers. rewrite H, filter_app. reflexivity.
Qed.

(* A new timer that is not a flush. *)
Lemma poolInv_alloc w w' due p cb :
  cb ≠ CbProcessWordBuffer →
  timers w' = (timers w ++ [mkTimer (nextTimerId w) due p cb])%list →
  nextTimerId w' = Pos.succ (nextTimerId w) →
  bufferTimeout w' = bufferTimeout w →
  poolInv w → poolInv w'.
Proof.
  intros Hcb Ht Hn Hb (Hwf & Hnd & Hown & Hone).
  split; [|split; [|split]].
  - intros tm. rewrite Ht, Hn. intros [Hin| ->%list_elem_of_singleton]%elem_of_app.
    + apply Hwf in Hin. lia.
    + cbn. lia.
  - rewrite Ht, fmap_app. apply NoDup_app. split; [done|]. split; [|apply NoDup_singleton].
    intros x [tm [-> Hin]]%list_elem_of_fmap Heq%list_elem_of_singleton.
    apply Hwf in Hin. cbn in Heq. rewrite Heq in Hin. lia.
  - intros tm. rewrite (flushTimers_snoc _ _ _ Ht), Hb.
    rewrite decide_False by done. rewrite app_nil_r. apply Hown.
  - intros tm. rewrite (flushTimers_snoc _ _ _ Ht).
    rewrite decide_False by done. rewrite app_nil_r. apply Hone.
Qed.

(* A new flush, set when no flush is pending. *)
Lemma poolInv_alloc_flush w w' due :
  flushTimers w = [] →
  timers w' = (timers w ++ [mkTimer (nextTimerId w) due None CbProcessWordBuffer])%list →
  nextTimerId w' = Pos.succ (nextTimerId w) →
  bufferTimeout w' = Some (nextTimerId w) →
  poolInv w → poolInv w'.
Proof.
  intros Hnone Ht Hn Hb (Hwf & Hnd & Hown & Hone).
  split; [|split; [|split]].
  - intros tm. rewrite Ht, Hn. intros [Hin| ->%list_elem_of_singleton]%elem_of_app.
    + apply Hwf in Hin. lia.
    + cbn. lia.
  - rewrite Ht, fmap_app. apply NoDup_app. split; [done|]. split; [|apply NoDup_singleton].
    intros x [tm [-> Hin]]%list_elem_of_fmap Heq%list_elem_of_singleton.
    apply Hwf in Hin. cbn in Heq. rewrite Heq in Hin. lia.
  - intros tm. rewrite (flushTimers_snoc _ _ _ Ht), Hb.
    fold (flushTimers w). rewrite Hnone. cbn.
    by intros ->%list_elem_of_singleton.
  - intros tm. rewrite (flushTimers_snoc _ _ _ Ht).
    fold (flushTimers w). rewrite Hnone. cbn.
    by intros ->%list_elem_of_singleton.
Qed.

(* Cancelling leaves a part of the pool. *)
Lemma poolInv_filter w w' (P : Timer → Prop) `{!∀ tm, Decision (P tm)} :
  timers w' = filter P (timers w) →
  nextTimerId w' = nextTimerId w →
  bufferTimeout w' = bufferTimeout w →
  poolInv w → poolInv w'.
Proof.
  intros Ht Hn Hb (Hwf & Hnd & Hown & Hone).
  assert (Hflush : ∀ tm, tm ∈ flushTimers w' → tm ∈ flushTimers w).
  { intros tm. unfold flushTimers. rewrite Ht.
    intros [Hcb [_ Hin]%list_elem_of_filter]%list_elem_of_filter.
    by apply list_elem_of_filter. }
  split; [|split; [|split]].
  - intros tm. rewrite Ht, Hn. intros [_ Hin]%list_elem_of_filter. by apply Hwf.
  - rewrite Ht. eapply sublist_NoDup; [exact Hnd | apply fmap_sublist, sublist_filter].
  - intros tm Hin. rewrite Hb. by apply Hown, Hflush.
  - intros tm Hin. by apply Hone, Hflush.
Qed.

Lemma poolInv_clearTimeout id w : poolInv w → poolInv (clearTimeout id w).
Proof. by apply (poolInv_filter w _ (λ tm, tid tm ≠ id)). Qed.

Lemma flushTimers_cleared w id tm :
  poolInv w → tm ∈ timers w → tid tm = id → callback tm = CbProcessWordBuffer →
  flushTimers (clearTimeout id w) = [].
Proof.
  intros (_ & _ & Hown & _) Hin Hid Hcb. apply elem_of_nil_inv. intros tm' Htm'.
  apply list_elem_of_filter in Htm' as [Hcb' Htm']. cbn in Htm'.
  apply list_elem_of_filter in Htm' as [Hne Htm'].
  assert (H1 : bufferTimeout w = Some (tid tm))
    by (apply Hown, list_elem_of_filter; done).
  assert (H2 : bufferTimeout w = Some (tid tm'))
    by (apply Hown, list_elem_of_filter; done).
  congruence.
Qed.

(* An interval that fires is armed again under the same handle. *)
Lemma poolInv_rearm id p w tm :
  tm ∈ timers w → tid tm = id → callback tm ≠ CbProcessWordBuffer →
  poolInv w → poolInv (rearm id p w).
Proof.
  intros Hin Hid Hcb (Hwf & Hnd & Hown & Hone).
  assert (Hother : ∀ t, t ∈ timers w → tid t = id → t = tm).
  { intros t Ht Heq. apply list_elem_of_lookup in Ht as [i Hi].
    apply list_elem_of_lookup in Hin as [j Hj].
    assert (i = j) as ->; [|congruence].
    eapply NoDup_lookup; [exact Hnd | |].
    - rewrite list_lookup_fmap, Hi. reflexivity.
    - rewrite list_lookup_fmap, Hj. cbn. congruence. }
  assert (Hmem : ∀ t, t ∈ timers (rearm id p w) →
                 ∃ t0, t0 ∈ timers w ∧ tid t = tid t0 ∧ callback t = callback t0
                       ∧ (callback t0 = CbProcessWordBuffer → t = t0)).
  { intros t. cbn. intros [t0 [-> Ht0]]%list_elem_of_fmap. exists t0.
    split; [done|]. case_bool_decide as Heq; [|done].
    cbn. split; [done|]. split; [done|]. intros Hf.
    rewrite (Hother _ Ht0 Heq) in Hf. done. }
  split; [|split; [|split]].
  - intros t Ht. apply Hmem in Ht as (t0 & Ht0 & -> & _). by apply Hwf.
  - cbn. rewrite <- list_fmap_compose.
    erewrite list_fmap_ext; [exact Hnd|].
    intros i t _. cbn. case_bool_decide; done.
  - intros t [Hcb' Ht]%list_elem_of_filter.
    apply Hmem in Ht as (t0 & Ht0 & Htid & Hcb0 & Heq).
    rewrite Hcb0 in Hcb'. rewrite (Heq Hcb'). apply Hown.
    by apply list_elem_of_filter.
  - intros t [Hcb' Ht]%list_elem_of_filter.
    apply Hmem in Ht as (t0 & Ht0 & Htid & Hcb0 & Heq).
    rewrite Hcb0 in Hcb'. rewrite (Heq Hcb'). apply Hone.
    by apply list_elem_of_filter.
Qed.

End Pool.

Section PoolMethods.

Lemma poolInv_setTimeout cb delay w :
  cb ≠ CbProcessWordBuffer → poolInv w → poolInv (snd (setTimeout cb delay w)).
Proof.
  intros Hcb. by apply (poolInv_alloc w _ (clock w + delay) None cb).
Qed.

Lemma poolInv_setInterval delay w :
  poolInv w → poolInv (snd (setInterval CbIntervalCheck delay w)).
Proof. by apply (poolInv_alloc w _ (clock w + delay) (Some delay) CbIntervalCheck). Qed.

Lemma poolInv_hideOverlay w : poolInv w → poolInv (hideOverlay w).
Proof.
  unfold hideOverlay. destruct (translationOverlay w); [|done].
  by apply poolInv_view.
Qed.

Lemma poolInv_displayTranslation data w :
  poolInv w → poolInv (displayTranslation data w).
Proof.
  intros Hinv. unfold displayTranslation. destruct (translationOverlay w); [|done].
  apply poolInv_setTimeout; [done|]. revert Hinv. by apply poolInv_view.
Qed.

Lemma poolInv_fetchSettled text o w : poolInv w → poolInv (fetchSettled text o w).
Proof.
  intros Hinv. unfold fetchSettled. case_bool_decide; [|done].
  apply poolInv_displayTranslation. revert Hinv. by apply poolInv_view.
Qed.

Lemma poolInv_onMutations shouldCheck w :
  poolInv w → poolInv (onMutations shouldCheck w).
Proof.
  unfold onMutations. repeat (case_match; [done|]).
  destruct shouldCheck; [|done]. by apply poolInv_setTimeout.
Qed.

Lemma flushTimers_cancel_held w :
  flushOwned w → flushTimers (set_timers (cancel (bufferTimeout w) (timers w)) w) = [].
Proof. intros Hown. exact (flushOwned_cleared w Hown). Qed.

Lemma poolInv_cancel handle w :
  poolInv w → poolInv (set_timers (cancel handle (timers w)) w).
Proof.
  destruct handle as [id|]; [apply poolInv_clearTimeout|].
  by apply poolInv_view.
Qed.

Lemma poolInv_addToWordBuffer text w :
  poolInv w → poolInv (addToWordBuffer text w).
Proof.
  intros Hinv. unfold addToWordBuffer.
  case_bool_decide; [done|]. case_bool_decide; [done|].
  set (buffer := if truthy (wordBuffer w) then _ else _). cbv zeta.
  change (bufferTimeout (set_wordBuffer buffer w)) with (bufferTimeout w).
  pose (w1 := set_timers (cancel (bufferTimeout w) (timers w)) w).
  assert (Hinv1 : poolInv w1) by by apply poolInv_cancel.
  assert (Hnone : flushTimers w1 = []) by (apply flushTimers_cancel_held, Hinv).
  subst w1. destruct (bufferTimeout w) as [b|] eqn:Hb;
    cbn [cancel] in Hinv1, Hnone.
  - by apply (poolInv_alloc_flush _ _ (clock w + 2000) Hnone).
  - by apply (poolInv_alloc_flush _ _ (clock w + 2000) Hnone).
Qed.

Lemma poolInv_processWordBuffer w :
  flushTimers w = [] → poolInv w → poolInv (processWordBuffer w).
Proof.
  intros Hnone Hinv. unfold processWordBuffer.
  destruct (0 <? _)%nat; [|done].
  case_bool_decide; [revert Hinv; by apply poolInv_view|].
  case_bool_decide; [revert Hinv; by apply poolInv_view|].
  destruct (_ <? 2000)%Z.
  - by apply (poolInv_alloc_flush w _ (clock w + 2000)).
  - revert Hinv. apply poolInv_view;
      unfold sendForTranslation, markProcessed; destruct (negb _); reflexivity.
Qed.

Lemma poolInv_onCaptionFound element text w :
  poolInv w → poolInv (onCaptionFound element text w).
Proof.
  intros Hinv. unfold onCaptionFound.
  destruct (isFirstCaption w); [revert Hinv; by apply poolInv_view|].
  case_bool_decide; [done|]. destruct (negb _); [|done].
  assert (Hlast : poolInv (set_lastProcessedText text w))
    by (revert Hinv; by apply poolInv_view).
  case_bool_decide.
  - destruct (_ <? _)%nat.
    + destruct (_ && _).
      * apply (poolInv_view (addToWordBuffer
                 (extractNewWords (lastProcessedText w) text)
                 (set_lastProcessedText text w))); [done..|].
        by apply poolInv_addToWordBuffer.
      * revert Hinv. by apply poolInv_view.
    + revert Hinv. by apply poolInv_view.
  - apply (poolInv_view (addToWordBuffer text (set_lastProcessedText text w)));
      [done..|].
    by apply poolInv_addToWordBuffer.
Qed.

Lemma poolInv_checkForClosedCaptions w :
  poolInv w → poolInv (checkForClosedCaptions w).
Proof.
  intros Hinv. unfold checkForClosedCaptions.
  destruct (negb _); [done|]. destruct (locateCaption w) as [[el text]|]; [|done].
  destruct (truthy text); [|done]. by apply poolInv_onCaptionFound.
Qed.

Lemma poolInv_startCaptionDetection w :
  poolInv w → poolInv (startCaptionDetection w).
Proof.
  intros Hinv. unfold startCaptionDetection, setInterval.
  destruct (isMonitoring w); [done|]. cbv beta iota zeta.
  apply poolInv_checkForClosedCaptions.
  by apply (poolInv_alloc w _ (clock w + 250) (Some 250) CbIntervalCheck).
Qed.

Lemma poolInv_stopCaptionDetection w :
  poolInv w → poolInv (stopCaptionDetection w).
Proof.
  intros Hinv. rewrite stopCaptionDetection_closed_form.
  pose (w1 := set_timers (cancel (checkInterval w) (timers w)) w).
  assert (Hinv1 : poolInv w1) by by apply poolInv_cancel.
  pose (w2 := set_timers (cancel (bufferTimeout w1) (timers w1)) w1).
  assert (Hinv2 : poolInv w2) by by apply poolInv_cancel.
  assert (Hnone : flushTimers w2 = []) by (apply flushTimers_cancel_held, Hinv1).
  destruct Hinv2 as (Hwf & Hnd & _ & _).
  split; [exact Hwf|]. split; [exact Hnd|].
  split; intros tm Htm; change (tm ∈ flushTimers w2) in Htm;
    rewrite Hnone in Htm; by apply not_elem_of_nil in Htm.
Qed.

Lemma poolInv_fireTimer id w : poolInv w → poolInv (fireTimer id w).
Proof.
  intros Hinv. unfold fireTimer.
  destruct (findTimer id w) as [tm|] eqn:Hfind; [|done].
  apply findTimer_Some in Hfind as [Hin Hid].
  destruct (due tm <=? clock w)%Z; [|done].
  destruct (decide (callback tm = CbProcessWordBuffer)) as [Hcb|Hcb].
  - assert (Hp : period tm = None).
    { destruct Hinv as (_ & _ & _ & Hone). apply Hone.
      by apply list_elem_of_filter. }
    rewrite Hp, Hcb. cbn [runCallback].
    apply poolInv_processWordBuffer; [|by apply poolInv_clearTimeout].
    by apply (flushTimers_cleared w id tm).
  - assert (Hinv1 : poolInv (match period tm with
                             | Some p => rearm id p w
                             | None => clearTimeout id w
                             end)).
    { destruct (period tm); [by apply (poolInv_rearm id _ w tm)|].
      by apply poolInv_clearTimeout. }
    revert Hinv1. generalize (match period tm with
                              | Some p => rearm id p w
                              | None => clearTimeout id w
                              end). intros w1 Hinv1.
    destruct (callback tm); cbn [runCallback]; [done| | |].
    + destruct (monitoringActive w1); [|done]. by apply poolInv_checkForClosedCaptions.
    + destruct (monitoringActive w1); [|done]. by apply poolInv_checkForClosedCaptions.
    + by apply poolInv_hideOverlay.
Qed.

Lemma poolInv_step e w : poolInv w → poolInv (step e w).
Proof.
  intros Hinv. destruct e; cbn [step].
  - destruct (_ <=? _)%Z; [|done]. revert Hinv. by apply poolInv_view.
  - by apply poolInv_fireTimer.
  - revert Hinv. by apply poolInv_view.
  - by apply poolInv_onMutations.
  - apply poolInv_startCaptionDetection. revert Hinv. by apply poolInv_view.
  - by apply poolInv_stopCaptionDetection.
  - by apply poolInv_checkForClosedCaptions.
  - by apply poolInv_fetchSettled.
Qed.

Lemma poolInv_run es w : poolInv w → poolInv (run es w).
Proof.
  revert w. induction es as [|e es IH]; intros w Hinv; [done|].
  cbn. by apply IH, poolInv_step.
Qed.

Lemma poolInv_initial t0 c : poolInv (initial t0 c).
Proof.
  split; [|split; [|split]].
  - intros tm Htm. by apply not_elem_of_nil in Htm.
  - apply NoDup_nil_2.
  - intros tm Htm. by apply not_elem_of_nil in Htm.
  - intros tm Htm. by apply not_elem_of_nil in Htm.
Qed.

End PoolMethods.

(* ===================================================================== *)
(* 25. The dedup records, and a stopped detector                         *)
(* ===================================================================== *)

#[global] Instance recordView_stable : AuxStable recordView.
Proof. split; reflexivity. Qed.

#[global] Instance stoppedView_stable : AuxStable stoppedView.
Proof. split; reflexivity. Qed.

Section Records.

Lemma recordInv_view w w' : recordView w' = recordView w → recordInv w → recordInv w'.
Proof. unfold recordView, recordInv. intros [= -> -> -> ->]. done. Qed.

Lemma recordView_addToWordBuffer text w :
  recordView (addToWordBuffer text w) = recordView w.
Proof.
  unfold addToWordBuffer. repeat case_bool_decide; try reflexivity.
  destruct (bufferTimeout _); reflexivity.
Qed.

Lemma recordView_onCaptionFound el text w :
  recordView (onCaptionFound el text w) = recordView w.
Proof.
  unfold onCaptionFound.
  repeat (case_match; try reflexivity);
    first [ exact (recordView_addToWordBuffer _ (set_lastProcessedText text w))
          | reflexivity ].
Qed.

Lemma recordView_checkForClosedCaptions w :
  recordView (checkForClosedCaptions w) = recordView w.
Proof.
  unfold checkForClosedCaptions.
  repeat (case_match; try reflexivity). apply recordView_onCaptionFound.
Qed.

Lemma recordInv_processWordBuffer w : recordInv w → recordInv (processWordBuffer w).
Proof.
  intros Hinv. unfold processWordBuffer.
  destruct (0 <? _)%nat; [|done].
  case_bool_decide; [revert Hinv; by apply recordInv_view|].
  case_bool_decide; [revert Hinv; by apply recordInv_view|].
  destruct (_ <? 2000)%Z; [revert Hinv; by apply recordInv_view|].
  destruct Hinv as (Hs & Hw & Hp).
  assert (Hview : recordView (set_wordBuffer "" (sendForTranslation
                     (wordBuffer (markProcessed w)) (markProcessed w)))
                  = (processedWords w, skippedTexts w,
                     {[wordBuffer w]} ∪ processedTexts w,
                     (sendCalls w ++ [wordBuffer w])%list)).
  { unfold sendForTranslation. destruct (negb _); reflexivity. }
  cbv zeta. revert Hview.
  generalize (set_wordBuffer "" (sendForTranslation
                (wordBuffer (markProcessed w)) (markProcessed w))).
  intros w' [= Hw' Hs' Hp' Hc']. unfold recordInv.
  rewrite Hw', Hs', Hp', Hc'. split; [done|]. split; [done|].
  intros x [->%elem_of_singleton | Hx]%elem_of_union; apply elem_of_app;
    [right; left | left; by apply Hp].
Qed.

Lemma recordInv_startCaptionDetection w :
  recordInv w → recordInv (startCaptionDetection w).
Proof.
  intros Hinv. unfold startCaptionDetection, setInterval.
  destruct (isMonitoring w); [done|]. cbv beta iota zeta.
  apply (recordInv_view _ _ (recordView_checkForClosedCaptions _)).
  split; [reflexivity|]. split; [reflexivity|]. intros x Hx.
  by apply not_elem_of_empty in Hx.
Qed.

Lemma recordInv_stopCaptionDetection w :
  recordInv w → recordInv (stopCaptionDetection w).
Proof.
  intros (Hs & Hw & Hp). rewrite stopCaptionDetection_closed_form.
  split; [reflexivity|]. split; [exact Hw|]. intros x Hx.
  by apply not_elem_of_empty in Hx.
Qed.

Lemma recordInv_step e w : recordInv w → recordInv (step e w).
Proof.
  intros Hinv. destruct e; cbn [step].
  - destruct (_ <=? _)%Z; [|done]. revert Hinv. by apply recordInv_view.
  - unfold fireTimer. destruct (findTimer id w) as [tm|]; [|done].
    destruct (due tm <=? clock w)%Z; [|done].
    assert (Hinv1 : recordInv (match period tm with
                               | Some p => rearm id p w
                               | None => clearTimeout id w
                               end)).
    { revert Hinv. apply recordInv_view. destruct (period tm);
        [apply (frame_rearm recordView) | apply (frame_clearTimeout recordView)]. }
    revert Hinv1. generalize (match period tm with
                              | Some p => rearm id p w
                              | None => clearTimeout id w
                              end). intros w1 Hinv1.
    destruct (callback tm); cbn [runCallback].
    + by apply recordInv_processWordBuffer.
    + destruct (monitoringActive w1); [|done].
      by apply (recordInv_view _ _ (recordView_checkForClosedCaptions _)).
    + destruct (monitoringActive w1); [|done].
      by apply (recordInv_view _ _ (recordView_checkForClosedCaptions _)).
    + by apply (recordInv_view _ _ (frame_hideOverlay recordView _)).
  - revert Hinv. by apply recordInv_view.
  - by apply (recordInv_view _ _ (frame_onMutations recordView _ _)).
  - apply recordInv_startCaptionDetection. revert Hinv. by apply recordInv_view.
  - by apply recordInv_stopCaptionDetection.
  - by apply (recordInv_view _ _ (recordView_checkForClosedCaptions _)).
  - by apply (recordInv_view _ _ (frame_fetchSettled recordView _ _ _)).
Qed.

Lemma recordInv_run es w : recordInv w → recordInv (run es w).
Proof.
  revert w. induction es as [|e es IH]; intros w Hinv; [done|].
  cbn. by apply IH, recordInv_step.
Qed.

End Records.

Section Stopped.

Lemma stopped_step calls e w :
  ¬ isStart e →
  stoppedView w = (false, false, "", calls) →
  stoppedView (step e w) = (false, false, "", calls).
Proof.
  intros He Hw. destruct e; cbn [step].
  - destruct (_ <=? _)%Z; exact Hw.
  - unfold fireTimer. destruct (findTimer id w) as [tm|]; [|done].
    destruct (due tm <=? clock w)%Z; [|done].
    assert (Hw1 : stoppedView (match period tm with
                               | Some p => rearm id p w
                               | None => clearTimeout id w
                               end) = (false, false, "", calls)).
    { rewrite <- Hw. destruct (period tm);
        [apply (frame_rearm stoppedView) | apply (frame_clearTimeout stoppedView)]. }
    revert Hw1. generalize (match period tm with
                            | Some p => rearm id p w
                            | None => clearTimeout id w
                            end). intros w1 Hw1.
    pose proof Hw1 as [= _ Hact Hbuf _].
    destruct (callback tm); cbn [runCallback].
    + by rewrite processWordBuffer_empty.
    + by rewrite Hact.
    + by rewrite Hact.
    + by rewrite (frame_hideOverlay stoppedView).
  - exact Hw.
  - by rewrite (frame_onMutations stoppedView).
  - by destruct He.
  - unfold onStopMessage. rewrite stopCaptionDetection_closed_form.
    injection Hw as _ _ _ Hc. unfold stoppedView; cbn. by rewrite Hc.
  - unfold checkForClosedCaptions. pose proof Hw as [= _ Hact _ _]. by rewrite Hact.
  - by rewrite (frame_fetchSettled stoppedView).
Qed.

Lemma stopped_run calls es w :
  Forall (λ e, ¬ isStart e) es →
  stoppedView w = (false, false, "", calls) →
  stoppedView (run es w) = (false, false, "", calls).
Proof.
  revert w. induction es as [|e es IH]; intros w Hes Hw; [done|].
  inversion Hes; subst. cbn. apply IH; [done|]. by apply stopped_step.
Qed.

End Stopped.

(** X9: after a stop nothing is sent and nothing is buffered until the
    next start command: whatever timers still fire, whatever the page and
    the observer do and whichever fetches settle, the list of calls of
    sendForTranslation stays as it was at the stop and the buffer stays
    empty. *)
Theorem stopped_detector_is_silent (w : World) (es : list Event) :
  Forall (λ e, ¬ isStart e) es →
  let w' := run es (stopCaptionDetection w) in
  sendCalls w' = sendCalls w
  ∧ wordBuffer w' = ""
  ∧ isMonitoring w' = false ∧ monitoringActive w' = false.
Proof.
  intros Hes w'.
  assert (H0 : stoppedView (stopCaptionDetection w) = (false, false, "", sendCalls w))
    by (rewrite stopCaptionDetection_closed_form; reflexivity).
  pose proof (stopped_run _ es _ Hes H0) as Hv. fold w' in Hv.
  unfold stoppedView in Hv. injection Hv as -> -> -> ->. done.
Qed.

Lemma stopped_detector_is_silent_witness :
  wordBuffer helloThere = "Hello there"
  ∧ sendCalls (run [Tick 3750; Fire 2%positive; Fire 1%positive;
                    DomChange (Some (E2, "Good morning")); TestCaptionDetection;
                    Mutations true; Tick 5750; Fire 3%positive]
                 (stopCaptionDetection helloThere)) = [].
Proof.
  split; [vm_compute; reflexivity|].
  destruct (stopped_detector_is_silent helloThere
              [Tick 3750; Fire 2%positive; Fire 1%positive;
               DomChange (Some (E2, "Good morning")); TestCaptionDetection;
               Mutations true; Tick 5750; Fire 3%positive]) as (Hcalls & _).
  - repeat constructor; intros [].
  - etrans; [exact Hcalls | vm_compute; reflexivity].
Defined.

(* ===================================================================== *)
(* 26. The throttle of processWordBuffer                                 *)
(* ===================================================================== *)

Section Throttle.

Lemma dueInv_weaken w w' :
  (∀ tm, tm ∈ flushTimers w' → tm ∈ flushTimers w) →
  lastTranslationTime w' = lastTranslationTime w →
  (clock w <= clock w')%Z →
  dueInv w → dueInv w'.
Proof.
  intros Hsub Hlast Hclock [H1 H2]. split; rewrite Hlast; [lia|].
  intros tm Htm. by apply H2, Hsub.
Qed.

Lemma dueInv_view w w' :
  timers w' = timers w → lastTranslationTime w' = lastTranslationTime w →
  clock w' = clock w → dueInv w → dueInv w'.
Proof.
  intros Ht Hl Hc. apply dueInv_weaken; [|done|lia].
  unfold flushTimers. by rewrite Ht.
Qed.

Lemma dueInv_alloc w w' due p cb :
  cb ≠ CbProcessWordBuffer →
  timers w' = (timers w ++ [mkTimer (nextTimerId w) due p cb])%list →
  lastTranslationTime w' = lastTranslationTime w →
  clock w' = clock w → dueInv w → dueInv w'.
Proof.
  intros Hcb Ht Hl Hc. apply dueInv_weaken; [|done|lia].
  intros tm. rewrite (flushTimers_snoc _ _ _ Ht).
  rewrite decide_False by done. by rewrite app_nil_r.
Qed.

Lemma dueInv_alloc_flush w w' :
  timers w' = (timers w ++ [mkTimer (nextTimerId w) (clock w + 2000) None
                              CbProcessWordBuffer])%list →
  lastTranslationTime w' = lastTranslationTime w →
  clock w' = clock w → dueInv w → dueInv w'.
Proof.
  intros Ht Hl Hc [H1 H2]. split; rewrite Hl; [lia|].
  intros tm. rewrite (flushTimers_snoc _ _ _ Ht). cbn.
  intros [Hin| ->%list_elem_of_singleton]%elem_of_app; [by apply H2 | cbn; lia].
Qed.

Lemma dueInv_filter w w' (P : Timer → Prop) `{!∀ tm, Decision (P tm)} :
  timers w' = filter P (timers w) →
  lastTranslationTime w' = lastTranslationTime w →
  clock w' = clock w → dueInv w → dueInv w'.
Proof.
  intros Ht Hl Hc. apply dueInv_weaken; [|done|lia].
  intros tm. unfold flushTimers. rewrite Ht.
  intros [Hcb [_ Hin]%list_elem_of_filter]%list_elem_of_filter.
  by apply list_elem_of_filter.
Qed.

Lemma dueInv_cancel handle w :
  dueInv w → dueInv (set_timers (cancel handle (timers w)) w).
Proof.
  destruct handle as [id|]; [|by apply dueInv_view].
  by apply (dueInv_filter w _ (λ tm, tid tm ≠ id)).
Qed.

Lemma flushTimers_rearm id p w tm t :
  NoDup (tid <$> timers w) →
  tm ∈ timers w → tid tm = id → callback tm ≠ CbProcessWordBuffer →
  t ∈ flushTimers (rearm id p w) → t ∈ flushTimers w.
Proof.
  intros Hnd Hin Hid Hcb [Hcbt Ht]%list_elem_of_filter.
  cbn in Ht. apply list_elem_of_fmap in Ht as [t0 [-> Ht0]].
  case_bool_decide as Heq; [|by apply list_elem_of_filter].
  exfalso. cbn in Hcbt.
  assert (t0 = tm) as ->; [|done].
  apply list_elem_of_lookup in Ht0 as [i Hi].
  apply list_elem_of_lookup in Hin as [j Hj].
  assert (i = j) as ->; [|congruence].
  eapply NoDup_lookup; [exact Hnd | |].
  - rewrite list_lookup_fmap, Hi. reflexivity.
  - rewrite list_lookup_fmap, Hj. cbn. congruence.
Qed.

Lemma dueInv_hideOverlay w : dueInv w → dueInv (hideOverlay w).
Proof.
  unfold hideOverlay. destruct (translationOverlay w); [|done]. by apply dueInv_view.
Qed.

Lemma dueInv_displayTranslation data w : dueInv w → dueInv (displayTranslation data w).
Proof.
  intros Hinv. unfold displayTranslation. destruct (translationOverlay w); [|done].
  by apply (dueInv_alloc w _ (clock w + 10000) None CbHideOverlay).
Qed.

Lemma dueInv_fetchSettled text o w : dueInv w → dueInv (fetchSettled text o w).
Proof.
  intros Hinv. unfold fetchSettled. case_bool_decide; [|done].
  apply dueInv_displayTranslation. revert Hinv. by apply dueInv_view.
Qed.

Lemma dueInv_onMutations shouldCheck w : dueInv w → dueInv (onMutations shouldCheck w).
Proof.
  intros Hinv. unfold onMutations. repeat (case_match; [done|]).
  destruct shouldCheck; [|done].
  by apply (dueInv_alloc w _ (clock w + 2000) None CbMutationCheck).
Qed.

Lemma dueInv_addToWordBuffer text w : dueInv w → dueInv (addToWordBuffer text w).
Proof.
  intros Hinv. unfold addToWordBuffer.
  case_bool_decide; [done|]. case_bool_decide; [done|].
  set (buffer := if truthy (wordBuffer w) then _ else _). cbv zeta.
  change (bufferTimeout (set_wordBuffer buffer w)) with (bufferTimeout w).
  pose proof (dueInv_cancel (bufferTimeout w) w Hinv) as Hinv1.
  revert Hinv1. destruct (bufferTimeout w) as [b|]; cbn [cancel];
    by apply dueInv_alloc_flush.
Qed.

Lemma dueInv_processWordBuffer w :
  flushTimers w = [] → dueInv w → dueInv (processWordBuffer w).
Proof.
  intros Hnone Hinv. unfold processWordBuffer.
  destruct (0 <? _)%nat; [|done].
  case_bool_decide; [revert Hinv; by apply dueInv_view|].
  case_bool_decide; [revert Hinv; by apply dueInv_view|].
  destruct (_ <? 2000)%Z; [revert Hinv; by apply dueInv_alloc_flush|].
  cbv zeta. unfold sendForTranslation, markProcessed.
  destruct (negb _); (split; [cbn; lia|]);
    intros tm Htm; change (tm ∈ flushTimers w) in Htm; rewrite Hnone in Htm;
    by apply not_elem_of_nil in Htm.
Qed.

Lemma dueInv_onCaptionFound element text w :
  dueInv w → dueInv (onCaptionFound element text w).
Proof.
  intros Hinv. unfold onCaptionFound.
  destruct (isFirstCaption w); [revert Hinv; by apply dueInv_view|].
  case_bool_decide; [done|]. destruct (negb _); [|done].
  assert (Hlast : dueInv (set_lastProcessedText text w))
    by (revert Hinv; by apply dueInv_view).
  case_bool_decide.
  - destruct (_ <? _)%nat.
    + destruct (_ && _).
      * apply (dueInv_view (addToWordBuffer
                 (extractNewWords (lastProcessedText w) text)
                 (set_lastProcessedText text w))); [done..|].
        by apply dueInv_addToWordBuffer.
      * revert Hinv. by apply dueInv_view.
    + revert Hinv. by apply dueInv_view.
  - apply (dueInv_view (addToWordBuffer text (set_lastProcessedText text w)));
      [done..|].
    by apply dueInv_addToWordBuffer.
Qed.

Lemma dueInv_checkForClosedCaptions w : dueInv w → dueInv (checkForClosedCaptions w).
Proof.
  intros Hinv. unfold checkForClosedCaptions.
  destruct (negb _); [done|]. destruct (locateCaption w) as [[el text]|]; [|done].
  destruct (truthy text); [|done]. by apply dueInv_onCaptionFound.
Qed.

Lemma dueInv_startCaptionDetection w : dueInv w → dueInv (startCaptionDetection w).
Proof.
  intros Hinv. unfold startCaptionDetection, setInterval.
  destruct (isMonitoring w); [done|]. cbv beta iota zeta.
  apply dueInv_checkForClosedCaptions.
  by apply (dueInv_alloc w _ (clock w + 250) (Some 250) CbIntervalCheck).
Qed.

Lemma dueInv_stopCaptionDetection w : dueInv w → dueInv (stopCaptionDetection w).
Proof.
  intros Hinv. rewrite stopCaptionDetection_closed_form.
  pose proof (dueInv_cancel (checkInterval w) w Hinv) as Hinv1.
  pose proof (dueInv_cancel (bufferTimeout w) _ Hinv1) as Hinv2.
  revert Hinv2. by apply dueInv_view.
Qed.

(* What firing a pending flush does in a state that satisfies the two
   invariants. *)
Lemma fireTimer_flush_unthrottled id tm w :
  poolInv w → dueInv w →
  findTimer id w = Some tm → callback tm = CbProcessWordBuffer →
  (due tm <= clock w)%Z →
  (2000 <= clock w - lastTranslationTime w)%Z
  ∧ fireTimer id w = processWordBuffer (clearTimeout id w)
  ∧ flushTimers (clearTimeout id w) = [].
Proof.
  intros Hpool [Hlast Hdue] Hfind Hcb Hfire.
  pose proof (findTimer_Some _ _ _ Hfind) as [Hin Hid].
  assert (Hflush : tm ∈ flushTimers w) by by apply list_elem_of_filter.
  split; [apply Hdue in Hflush; lia|]. split.
  - unfold fireTimer. rewrite Hfind.
    apply Z.leb_le in Hfire. rewrite Hfire.
    destruct Hpool as (_ & _ & _ & Hone). rewrite (Hone _ Hflush), Hcb. reflexivity.
  - by apply (flushTimers_cleared w id tm).
Qed.

Lemma fullInv_fireTimer id w :
  poolInv w → dueInv w → dueInv (fireTimer id w).
Proof.
  intros Hpool Hinv.
  destruct (findTimer id w) as [tm|] eqn:Hfind;
    [|unfold fireTimer; by rewrite Hfind].
  destruct (Z.leb_spec (due tm) (clock w)) as [Hfire|Hearly];
    [|unfold fireTimer; rewrite Hfind;
      by assert ((due tm <=? clock w)%Z = false) as -> by by apply Z.leb_gt].
  pose proof (findTimer_Some _ _ _ Hfind) as [Hin Hid].
  destruct (decide (callback tm = CbProcessWordBuffer)) as [Hcb|Hcb].
  - destruct (fireTimer_flush_unthrottled id tm w) as (_ & -> & Hnone); [done..|].
    apply dueInv_processWordBuffer; [done|].
    by apply (dueInv_filter w _ (λ t, tid t ≠ id)).
  - unfold fireTimer. rewrite Hfind.
    apply Z.leb_le in Hfire. rewrite Hfire.
    assert (Hinv1 : dueInv (match period tm with
                            | Some p => rearm id p w
                            | None => clearTimeout id w
                            end)).
    { destruct (period tm); [|by apply (dueInv_filter w _ (λ t, tid t ≠ id))].
      revert Hinv. apply dueInv_weaken; [|done|done].
      intros t. apply (flushTimers_rearm id _ w tm); [apply Hpool|done..]. }
    revert Hinv1. generalize (match period tm with
                              | Some p => rearm id p w
                              | None => clearTimeout id w
                              end). intros w1 Hinv1.
    destruct (callback tm); cbn [runCallback]; [done| | |].
    + destruct (monitoringActive w1); [|done]. by apply dueInv_checkForClosedCaptions.
    + destruct (monitoringActive w1); [|done]. by apply dueInv_checkForClosedCaptions.
    + by apply dueInv_hideOverlay.
Qed.

Lemma fullInv_step e w : poolInv w → dueInv w → dueInv (step e w).
Proof.
  intros Hpool Hinv. destruct e; cbn [step].
  - destruct (Z.leb_spec (clock w) t); [|done].
    revert Hinv. apply dueInv_weaken; [done | done | cbn; lia].
  - by apply fullInv_fireTimer.
  - revert Hinv. by apply dueInv_view.
  - by apply dueInv_onMutations.
  - apply dueInv_startCaptionDetection. revert Hinv. by apply dueInv_view.
  - by apply dueInv_stopCaptionDetection.
  - by apply dueInv_checkForClosedCaptions.
  - by apply dueInv_fetchSettled.
Qed.

Lemma fullInv_run es w : poolInv w → dueInv w → dueInv (run es w).
Proof.
  revert w. induction es as [|e es IH]; intros w Hpool Hinv; [done|].
  cbn. apply IH; [by apply poolInv_step | by apply fullInv_step].
Qed.

End Throttle.

(** X10: as long as timers never fire before they are due, the throttle
    of processWordBuffer never delays a flush. In every state reached
    from a detector constructed at a time t0 >= 0, when the pending flush
    fires at least 2000 ms have passed since the last dispatch, so the
    retry branch is not taken: afterwards no flush is pending, and a
    non-blank buffer whose text is not in processedTexts has been sent
    and emptied. *)
Theorem throttle_never_delays (t0 : Z) (c : option (Element * string))
    (es : list Event) (id : TimerId) (tm : Timer) :
  (0 <= t0)%Z →
  let w := run es (initial t0 c) in
  findTimer id w = Some tm → callback tm = CbProcessWordBuffer →
  (due tm <= clock w)%Z →
  (2000 <= clock w - lastTranslationTime w)%Z
  ∧ flushTimers (fireTimer id w) = []
  ∧ (trim (wordBuffer w) ≠ "" → wordBuffer (fireTimer id w) = "")
  ∧ (trim (wordBuffer w) ≠ "" → wordBuffer w ∉ processedTexts w →
       sendCalls (fireTimer id w) = (sendCalls w ++ [wordBuffer w])%list).
Proof.
  intros Ht0 w Hfind Hcb Hfire.
  assert (Hpool : poolInv w) by apply poolInv_run, poolInv_initial.
  assert (Hdue : dueInv w).
  { apply fullInv_run; [apply poolInv_initial|]. split; [cbn; lia|].
    intros t Ht. by apply not_elem_of_nil in Ht. }
  assert (Hskip : skippedTexts w = ∅).
  { assert (Hr : recordInv w); [|apply Hr].
    apply recordInv_run. split; [reflexivity|]. split; [reflexivity|].
    intros x Hx. by apply not_elem_of_empty in Hx. }
  clearbody w.
  destruct (fireTimer_flush_unthrottled id tm w) as (Hth & -> & Hnone); [done..|].
  split; [done|].
  assert (Hcases :
    let w1 := clearTimeout id w in
    (trim (wordBuffer w) = "" ∧ processWordBuffer w1 = w1)
    ∨ (trim (wordBuffer w) ≠ "" ∧ (wordBuffer w ∈ processedTexts w)
       ∧ processWordBuffer w1 = set_wordBuffer "" w1)
    ∨ (trim (wordBuffer w) ≠ "" ∧ (wordBuffer w ∉ processedTexts w)
       ∧ processWordBuffer w1
         = set_wordBuffer "" (sendForTranslation (wordBuffer w1) (markProcessed w1)))).
  { cbv zeta.
    destruct (decide (trim (wordBuffer w) = "")) as [Hb|Hb];
      [left; split; [done|]; by apply processWordBuffer_blank|].
    right. destruct (decide (wordBuffer w ∈ processedTexts w)) as [Hp|Hp].
    - left. split; [done|]. split; [done|]. unfold processWordBuffer.
      cbn [wordBuffer clearTimeout set_timers skippedTexts processedTexts].
      destruct (trim (wordBuffer w)); [done|]. cbn [String.length Nat.ltb Nat.leb].
      rewrite Hskip, bool_decide_eq_false_2 by apply not_elem_of_empty.
      by rewrite bool_decide_eq_true_2.
    - right. split; [done|]. split; [done|].
      apply processWordBuffer_sends; cbn; [done| |done|lia].
      rewrite Hskip. apply not_elem_of_empty. }
  cbv zeta in Hcases.
  destruct Hcases as [[Hb ->] | [(Hb & Hp & ->) | (Hb & Hp & ->)]].
  - split; [done|]. split; intros; congruence.
  - split; [done|]. split; [done|]. intros; congruence.
  - unfold sendForTranslation, markProcessed.
    destruct (negb _); (split; [exact Hnone|]); split; done.
Qed.

Lemma throttle_never_delays_witness :
  (0 <= 1000)%Z
  ∧ findTimer 2%positive (run helloDue (initial 1000 (Some (E1, "Hello"))))
    = Some (mkTimer 2%positive 3750 None CbProcessWordBuffer)
  ∧ sendCalls (fireTimer 2%positive
                 (run helloDue (initial 1000 (Some (E1, "Hello")))))
    = ["Hello there"].
Proof.
  assert (Ht0 : (0 <= 1000)%Z) by lia.
  assert (Hfind : findTimer 2%positive
                    (run helloDue (initial 1000 (Some (E1, "Hello"))))
                  = Some (mkTimer 2%positive 3750 None CbProcessWordBuffer))
    by (vm_compute; reflexivity).
  assert (Hfire : (due (mkTimer 2%positive 3750 None CbProcessWordBuffer)
                   <= clock (run helloDue (initial 1000 (Some (E1, "Hello")))))%Z)
    by (vm_compute; discriminate).
  assert (Hb : trim (wordBuffer (run helloDue (initial 1000 (Some (E1, "Hello")))))
               ≠ "") by (vm_compute; discriminate).
  assert (Hp : wordBuffer (run helloDue (initial 1000 (Some (E1, "Hello"))))
               ∉ processedTexts (run helloDue (initial 1000 (Some (E1, "Hello")))))
    by by_compute.
  split; [exact Ht0|]. split; [exact Hfind|].
  pose proof (throttle_never_delays 1000 (Some (E1, "Hello")) helloDue 2%positive
                (mkTimer 2%positive 3750 None CbProcessWordBuffer)
                Ht0 Hfind eq_refl Hfire) as (_ & _ & _ & Hsend).
  etrans; [exact (Hsend Hb Hp) | vm_compute; reflexivity].
Defined.

(* ===================================================================== *)
(* 27. Overlay, observer and the first change after the baseline         *)
(* ===================================================================== *)

Section OverlayAndObserver.

Lemma find_first (id : TimerId) (l : list Timer) (x : Timer) (r : list Timer) :
  (∀ tm, tm ∈ l → tid tm ≠ id) → tid x = id →
  List.find (λ tm, bool_decide (tid tm = id)) (l ++ x :: r) = Some x.
Proof.
  intros Hl Hx. induction l as [|y l IH]; cbn.
  - by rewrite bool_decide_eq_true_2.
  - rewrite bool_decide_eq_false_2 by (apply Hl; left).
    apply IH. intros tm Hin. apply Hl. by right.
Qed.

Lemma displayTranslation_shown data w overlay :
  translationOverlay w = Some overlay →
  displayTranslation data w
  = set_nextTimerId (Pos.succ (nextTimerId w))
      (set_timers (timers w ++ [mkTimer (nextTimerId w) (clock w + 10000) None
                                  CbHideOverlay])
         (set_translationOverlay
            (Some (mkOverlay (originalText data) (translatedText data) true)) w)).
Proof. intros H. unfold displayTranslation. rewrite H. reflexivity. Qed.

Lemma onMutations_scheduled w :
  observer w = true → monitoringActive w = true →
  onMutations true w
  = set_nextTimerId (Pos.succ (nextTimerId w))
      (set_timers (timers w ++ [mkTimer (nextTimerId w) (clock w + 2000) None
                                  CbMutationCheck]) w).
Proof. intros Ho Ha. unfold onMutations. rewrite Ho, Ha. reflexivity. Qed.

End OverlayAndObserver.

(** X11: the hide timers of the overlay are never cancelled. When a second
    translation is displayed before the 10 s of the first have passed, the
    hide timer of the first still fires 10 s after the first display and
    hides the overlay while it shows the second translation, whose own
    hide timer is still pending. *)
Theorem stale_hide_timer_hides_newer_translation (w : World)
    (first second : TranslationData) (t2 : Z) (overlay : Overlay) :
  translationOverlay w = Some overlay →
  wellFormedTimers w →
  (clock w <= t2 < clock w + 10000)%Z →
  let w1 := displayTranslation first w in
  let w2 := displayTranslation second (step (Tick t2) w1) in
  let w3 := fireTimer (nextTimerId w) (step (Tick (clock w + 10000)) w2) in
  translationOverlay w2
  = Some (mkOverlay (originalText second) (translatedText second) true)
  ∧ translationOverlay w3
    = Some (mkOverlay (originalText second) (translatedText second) false)
  ∧ clock w3 = (clock w + 10000)%Z
  ∧ mkTimer (Pos.succ (nextTimerId w)) (t2 + 10000) None CbHideOverlay ∈ timers w3.
Proof.
  intros Hov Hwf Ht2 w1 w2 w3.
  assert (H1 : w1 = set_nextTimerId (Pos.succ (nextTimerId w))
      (set_timers (timers w ++ [mkTimer (nextTimerId w) (clock w + 10000) None
                                  CbHideOverlay])
         (set_translationOverlay
            (Some (mkOverlay (originalText first) (translatedText first) true)) w)))
    by (by apply (displayTranslation_shown _ _ overlay)).
  assert (Hc1 : clock w1 = clock w) by (by rewrite H1).
  assert (H2 : w2 = displayTranslation second (set_clock t2 w1))
    by (subst w2; rewrite tick_later by lia; reflexivity).
  rewrite (displayTranslation_shown second (set_clock t2 w1)
             (mkOverlay (originalText first) (translatedText first) true))
    in H2 by (by rewrite H1).
  assert (Hc2 : clock w2 = t2) by (by rewrite H2).
  assert (Ht : timers w2
               = (timers w
                  ++ mkTimer (nextTimerId w) (clock w + 10000) None CbHideOverlay
                  :: [mkTimer (Pos.succ (nextTimerId w)) (t2 + 10000) None
                        CbHideOverlay])%list).
  { rewrite H2, H1. cbn. by rewrite <- app_assoc. }
  assert (Ho2 : translationOverlay w2
                = Some (mkOverlay (originalText second) (translatedText second) true))
    by (by rewrite H2).
  clearbody w2 w1.
  split; [done|].
  assert (Hstep : step (Tick (clock w + 10000)) w2 = set_clock (clock w + 10000) w2)
    by (apply tick_later; lia).
  assert (Hfind : findTimer (nextTimerId w) (set_clock (clock w + 10000) w2)
                  = Some (mkTimer (nextTimerId w) (clock w + 10000) None CbHideOverlay)).
  { unfold findTimer. cbn [timers set_clock]. rewrite Ht.
    apply find_first; [|reflexivity].
    intros tm Hin Heq. apply Hwf in Hin. rewrite Heq in Hin. lia. }
  subst w3. rewrite Hstep. unfold fireTimer. rewrite Hfind.
  cbn [due period callback runCallback clock set_clock].
  rewrite Z.leb_refl. unfold hideOverlay.
  change (translationOverlay (clearTimeout (nextTimerId w)
                                (set_clock (clock w + 10000) w2)))
    with (translationOverlay w2).
  rewrite Ho2.
  cbn [shownOriginal shownTranslated]. split; [reflexivity|]. split; [reflexivity|].
  cbn. rewrite Ht. apply list_elem_of_filter. split; [cbn; lia|].
  apply elem_of_app. right. right. left.
Qed.

Lemma stale_hide_timer_hides_newer_translation_witness :
  translationOverlay helloSent = Some (mkOverlay "-" "-" false)
  ∧ translationOverlay
      (fireTimer (nextTimerId helloSent)
         (step (Tick (clock helloSent + 10000))
            (displayTranslation (mkTranslationData "b" "B" 1)
               (step (Tick 14000)
                  (displayTranslation (mkTranslationData "a" "A" 1) helloSent)))))
    = Some (mkOverlay "b" "B" false).
Proof.
  assert (Hov : translationOverlay helloSent = Some (mkOverlay "-" "-" false))
    by (vm_compute; reflexivity).
  assert (Hwf : wellFormedTimers helloSent).
  { intros tm Hin. revert Hin.
    assert (timers helloSent = [mkTimer 1%positive 6000 (Some 250) CbIntervalCheck])
      as -> by (vm_compute; reflexivity).
    intros ->%list_elem_of_singleton. vm_compute. reflexivity. }
  assert (Ht : (clock helloSent <= 14000 < clock helloSent + 10000)%Z)
    by (vm_compute; split; [discriminate | reflexivity]).
  split; [exact Hov|].
  pose proof (stale_hide_timer_hides_newer_translation helloSent
                (mkTranslationData "a" "A" 1) (mkTranslationData "b" "B" 1)
                14000 _ Hov Hwf Ht) as (_ & H & _).
  exact H.
Defined.

(** X12: the delayed checks scheduled by the observer are not coalesced.
    While monitoring, each batch of caption mutations adds one more
    pending check, due 2000 ms later, and cancels none: after n batches
    the pool holds all the timers it had before and n new checks. *)
Theorem mutation_checks_accumulate (n : nat) (w : World) :
  observer w = true → monitoringActive w = true →
  let w' := Nat.iter n (onMutations true) w in
  ∃ added,
    timers w' = (timers w ++ added)%list
    ∧ List.length added = n
    ∧ Forall (λ tm, callback tm = CbMutationCheck
                    ∧ due tm = (clock w + 2000)%Z ∧ period tm = None) added
    ∧ baselineView w' = baselineView w.
Proof.
  intros Ho Ha. cbv zeta. induction n as [|n IH].
  - exists []. by rewrite app_nil_r.
  - destruct IH as (added & Ht & Hlen & Hall & Hview).
    rewrite Nat.iter_succ. set (wn := Nat.iter n (onMutations true) w) in *.
    assert (Hon : observer wn = true ∧ monitoringActive wn = true ∧ clock wn = clock w).
    { subst wn. clear Ht Hlen Hall Hview added.
      induction n as [|n IHn]; [done|]. rewrite Nat.iter_succ.
      destruct IHn as (H1 & H2 & H3). by rewrite onMutations_scheduled. }
    destruct Hon as (Hon & Han & Hcn).
    rewrite (onMutations_scheduled wn Hon Han).
    exists (added ++ [mkTimer (nextTimerId wn) (clock wn + 2000) None
                        CbMutationCheck])%list.
    split; [cbn; by rewrite Ht, app_assoc|].
    split; [rewrite length_app; cbn; lia|].
    split; [|exact Hview].
    apply Forall_app. split; [done|]. apply Forall_singleton. by rewrite Hcn.
Qed.

Lemma mutation_checks_accumulate_witness :
  observer helloThere = true
  ∧ List.length (timers (Nat.iter 3 (onMutations true) helloThere))
    = (List.length (timers helloThere) + 3)%nat.
Proof.
  assert (Ho : observer helloThere = true) by (vm_compute; reflexivity).
  assert (Ha : monitoringActive helloThere = true) by (vm_compute; reflexivity).
  split; [exact Ho|].
  destruct (mutation_checks_accumulate 3 helloThere Ho Ha)
    as (added & Ht & Hlen & _).
  rewrite Ht, length_app, Hlen. reflexivity.
Defined.

Lemma lastProcessedText_addToWordBuffer text w :
  lastProcessedText (addToWordBuffer text w) = lastProcessedText w.
Proof.
  unfold addToWordBuffer. repeat case_bool_decide; try reflexivity.
  destruct (bufferTimeout _); reflexivity.
Qed.

(** X13: the baseline pass records the text but not the node. Hence the
    first text that differs from the baseline is always handled as a new
    turn, also when it comes from the very node that showed the baseline:
    the whole text is appended to the buffer and the flush is scheduled
    2000 ms later. *)
Theorem first_change_after_baseline_is_buffered_whole (w : World)
    (element element' : Element) (T T' : string) :
  isMonitoring w = false →
  locateCaption w = Some (element, T) →
  T' ≠ T → acceptable T' = true →
  let w1 := startCaptionDetection w in
  let w2 := checkForClosedCaptions (step (DomChange (Some (element', T'))) w1) in
  lastSeenCaptionElement w1 = None
  ∧ wordBuffer w2 = appendFragment (wordBuffer w) T'
  ∧ lastProcessedText w2 = T'
  ∧ lastSeenCaptionElement w2 = Some element'
  ∧ bufferTimeout w2 = Some (nextTimerId w1)
  ∧ sendCalls w2 = sendCalls w.
Proof.
  intros HM HL Hne Hacc w1 w2.
  assert (Hlocate : ∀ w0, locateCaption (set_caption (Some (element', T')) w0)
                          = Some (element', T')).
  { intros w0. unfold locateCaption. cbn [caption set_caption]. fold (acceptable T').
    by rewrite Hacc. }
  assert (Htruthy : truthy T' = true).
  { unfold acceptable in Hacc. by apply andb_prop in Hacc as [[? _]%andb_prop _]. }
  assert (Hfields : monitoringActive w1 = true ∧ isFirstCaption w1 = false
                    ∧ skippedTexts w1 = ∅ ∧ processedTexts w1 = ∅
                    ∧ lastProcessedText w1 = T ∧ lastSeenCaptionElement w1 = None
                    ∧ wordBuffer w1 = wordBuffer w ∧ sendCalls w1 = sendCalls w).
  { subst w1. unfold startCaptionDetection, setupMutationObserver, setInterval.
    rewrite HM. cbv beta iota zeta.
    erewrite checkForClosedCaptions_baseline;
      [cbn; done | reflexivity | reflexivity | exact HL]. }
  destruct Hfields as (Ha & Hf & Hs & Hp & Hl & He & Hb & Hc).
  clearbody w1. split; [done|].
  subst w2. cbn [step]. unfold checkForClosedCaptions.
  cbn [monitoringActive set_caption]. rewrite Ha, (Hlocate w1), Htruthy. cbn [negb].
  unfold onCaptionFound.
  cbn [isFirstCaption skippedTexts lastProcessedText lastSeenCaptionElement
       set_caption].
  rewrite Hf, Hs, Hl, He.
  rewrite bool_decide_eq_false_2 by apply not_elem_of_empty.
  unfold JsString.eqb. rewrite (bool_decide_eq_false_2 _ Hne). cbn [negb].
  rewrite bool_decide_eq_false_2 by discriminate.
  destruct (addToWordBuffer_fresh T'
              (set_lastProcessedText T' (set_caption (Some (element', T')) w1)))
    as (Hbuf & Hbt & _ & _ & _ & Hview & _);
    [cbn; rewrite Hs; apply not_elem_of_empty
    | cbn; rewrite Hp; apply not_elem_of_empty |].
  apply guardView_fields in Hview as (_ & _ & Hcalls).
  cbn [wordBuffer lastProcessedText lastSeenCaptionElement bufferTimeout sendCalls
       set_lastSeenCaptionElement].
  rewrite Hbuf, Hbt, Hcalls. cbn. rewrite Hb, Hc.
  split; [reflexivity|]. split; [|repeat split].
  by rewrite lastProcessedText_addToWordBuffer.
Qed.

Lemma first_change_after_baseline_is_buffered_whole_witness :
  isMonitoring helloPage = false
  ∧ locateCaption helloPage = Some (E1, "Hello")
  ∧ wordBuffer (checkForClosedCaptions
                  (step (DomChange (Some (E1, "Hello there")))
                     (startCaptionDetection helloPage)))
    = "Hello there".
Proof.
  assert (HM : isMonitoring helloPage = false) by (vm_compute; reflexivity).
  assert (HL : locateCaption helloPage = Some (E1, "Hello"))
    by (vm_compute; reflexivity).
  assert (Hne : "Hello there" ≠ "Hello") by discriminate.
  assert (Hacc : acceptable "Hello there" = true) by (vm_compute; reflexivity).
  split; [exact HM|]. split; [exact HL|].
  pose proof (first_change_after_baseline_is_buffered_whole helloPage E1 E1
                "Hello" "Hello there" HM HL Hne Hacc) as (_ & Hbuf & _).
  etrans; [exact Hbuf | vm_compute; reflexivity].
Defined.

Lemma orElse_nonempty s fallback : fallback ≠ "" → orElse s fallback ≠ "".
Proof. intros H. unfold orElse. by destruct s. Qed.

(** X14: the overlay never shows an empty translation, and shows the
    original text when the response has none. For a successful response
    the overlay shows the translation of the response, or the placeholder
    "Translation failed" when the response has none. Audio is played
    exactly for a successful response that carries a translation other
    than the placeholder: the audio of the response when it has at least
    one byte, the browser's speech synthesis of the translated text when
    the response has no audio or an empty one. Every other outcome plays
    nothing. *)
Theorem overlay_and_audio (text : string) (o : FetchOutcome) :
  translatedText (translationShown text o) ≠ ""
  ∧ (text ≠ "" → originalText (translationShown text o) ≠ "")
  ∧ (audioPlayed o ≠ NoAudio →
       ∃ result, o = FetchResponded true (Some result)
                 ∧ resTranslatedText result ≠ ""
                 ∧ resTranslatedText result ≠ "Translation failed"
                 ∧ translatedText (translationShown text o) = resTranslatedText result)
  ∧ (∀ data, audioPlayed o = PlayElevenLabsAudio data →
       data ≠ [] ∧ ∃ result, o = FetchResponded true (Some result)
                             ∧ resAudioData result = Some data)
  ∧ (∀ spoken, audioPlayed o = PlayTranslatedSpeech spoken →
       translatedText (translationShown text o) = spoken)
  ∧ (∀ result, o = FetchResponded true (Some result) →
       (resTranslatedText result ≠ "" →
          translatedText (translationShown text o) = resTranslatedText result)
       ∧ (resTranslatedText result = "" →
            translatedText (translationShown text o) = "Translation failed")
       ∧ (resOriginalText result ≠ "" →
            originalText (translationShown text o) = resOriginalText result)
       ∧ (resOriginalText result = "" →
            originalText (translationShown text o) = text)
       ∧ (resTranslatedText result ≠ "" →
          resTranslatedText result ≠ "Translation failed" →
            (∀ data, resAudioData result = Some data → data ≠ [] →
                     audioPlayed o = PlayElevenLabsAudio data)
            ∧ (resAudioData result = None ∨ resAudioData result = Some [] →
                 audioPlayed o = PlayTranslatedSpeech (resTranslatedText result)))).
Proof.
  assert (Honly :
    translatedText (translationShown text o) ≠ ""
    ∧ (text ≠ "" → originalText (translationShown text o) ≠ "")
    ∧ (audioPlayed o ≠ NoAudio →
         ∃ result, o = FetchResponded true (Some result)
                   ∧ resTranslatedText result ≠ ""
                   ∧ resTranslatedText result ≠ "Translation failed"
                   ∧ translatedText (translationShown text o) = resTranslatedText result)
    ∧ (∀ data, audioPlayed o = PlayElevenLabsAudio data →
         data ≠ [] ∧ ∃ result, o = FetchResponded true (Some result)
                               ∧ resAudioData result = Some data)
    ∧ (∀ spoken, audioPlayed o = PlayTranslatedSpeech spoken →
         translatedText (translationShown text o) = spoken)).
  { destruct o as [|[] [result|]]; cbn [translationShown audioPlayed translatedText
                                         originalText].
    all: try (split; [discriminate|]; split; [done|]; split; [done|];
              split; intros; discriminate).
    split; [by apply orElse_nonempty|]. split; [apply orElse_nonempty|].
    destruct (resTranslatedText result) as [|c s] eqn:Htr;
      cbn [orElse truthy isEmpty negb andb];
      [split; [done|]; split; intros; discriminate|].
    unfold JsString.eqb. case_bool_decide as Hf; cbn [negb];
      [split; [done|]; split; intros; discriminate|].
    split; [intros _; exists result; by rewrite Htr|].
    destruct (resAudioData result) as [[|b data]|] eqn:Ha.
    - split; [intros; discriminate|]. by intros spoken [= <-].
    - split; [|intros; discriminate].
      intros d [= <-]. split; [discriminate|]. by exists result.
    - split; [intros; discriminate|]. by intros spoken [= <-]. }
  destruct Honly as (H1 & H2 & H3 & H4 & H5).
  split; [exact H1|]. split; [exact H2|]. split; [exact H3|].
  split; [exact H4|]. split; [exact H5|].
  intros result ->. cbn [translationShown audioPlayed translatedText originalText].
  unfold orElse.
  split; [intros Htr; by destruct (resTranslatedText result)|].
  split; [by intros ->|].
  split; [intros Hor; by destruct (resOriginalText result)|].
  split; [by intros ->|].
  intros Htr Hfailed.
  assert (Hreal : truthy (resTranslatedText result)
                  && negb (JsString.eqb (resTranslatedText result)
                             "Translation failed") = true).
  { apply andb_true_intro. split; [by destruct (resTranslatedText result)|].
    unfold JsString.eqb. by rewrite bool_decide_eq_false_2. }
  rewrite Hreal. split.
  - intros data -> Hdata. by destruct data.
  - by intros [-> | ->].
Qed.

(* ===================================================================== *)
(* 28. The poll and the monitoring flags                                 *)
(* ===================================================================== *)

Section Poll.

Lemma pollInv_view w w' :
  timers w' = timers w → nextTimerId w' = nextTimerId w →
  bufferTimeout w' = bufferTimeout w → checkInterval w' = checkInterval w →
  isMonitoring w' = isMonitoring w → monitoringActive w' = monitoringActive w →
  observer w' = observer w →
  pollInv w → pollInv w'.
Proof.
  unfold pollInv, pollTimers. intros -> -> -> -> -> -> ->. done.
Qed.

Lemma pollTimers_snoc w pool tm :
  timers w = (pool ++ [tm])%list →
  pollTimers w
  = (filter (λ t, callback t = CbIntervalCheck) pool
     ++ if decide (callback tm = CbIntervalCheck) then [tm] else [])%list.
Proof. intros H. unfold pollTimers. rewrite H, filter_app. reflexivity. Qed.

(* A new timeout; [held] says whether its handle goes to bufferTimeout,
   which is the case for a flush and only then. *)
Lemma pollInv_alloc w w' due cb :
  cb ≠ CbIntervalCheck →
  wellFormedTimers w →
  timers w' = (timers w ++ [mkTimer (nextTimerId w) due None cb])%list →
  nextTimerId w' = Pos.succ (nextTimerId w) →
  (bufferTimeout w' = bufferTimeout w
   ∨ cb = CbProcessWordBuffer ∧ bufferTimeout w' = Some (nextTimerId w)) →
  checkInterval w' = checkInterval w →
  isMonitoring w' = isMonitoring w → monitoringActive w' = monitoringActive w →
  observer w' = observer w →
  pollInv w → pollInv w'.
Proof.
  intros Hcb Hwf Ht Hn Hb Hc HM HA HO
         (H1 & H2 & H3 & H4 & Hbound & Hnames & H5 & H6 & H7).
  assert (Hpoll : pollTimers w' = pollTimers w).
  { rewrite (pollTimers_snoc _ _ _ Ht). rewrite decide_False by done.
    apply app_nil_r. }
  unfold pollInv. rewrite Hpoll, Hc, HM, HA, HO, Hn.
  split; [done|]. split; [done|].
  split; [|split; [|split; [|split; [|split; [done|split; [|done]]]]]].
  - intros tm. rewrite Ht.
    intros [Hin| ->%list_elem_of_singleton]%elem_of_app Hheld.
    + destruct Hb as [Hb|[_ Hb]]; rewrite Hb in Hheld; [by apply H3|].
      apply Hwf in Hin. injection Hheld as Heq. rewrite Heq in Hin. lia.
    + destruct Hb as [Hb|[Hf _]]; [|done].
      rewrite Hb in Hheld. apply H4 in Hheld. cbn in Hheld. lia.
  - intros b Hheld. destruct Hb as [Hb|[_ Hb]]; rewrite Hb in Hheld.
    + apply H4 in Hheld. lia.
    + injection Hheld as <-. lia.
  - intros c Hheld. apply Hbound in Hheld. lia.
  - intros tm. rewrite Ht.
    intros [Hin| ->%list_elem_of_singleton]%elem_of_app Hheld; [by apply Hnames|].
    apply Hbound in Hheld. cbn in Hheld. lia.
  - intros tm. rewrite Ht.
    intros [Hin| ->%list_elem_of_singleton]%elem_of_app; [by apply H6 | done].
Qed.

Lemma pollInv_filter w w' (P : Timer → Prop) `{!∀ tm, Decision (P tm)} :
  (∀ tm, tm ∈ pollTimers w → P tm) →
  timers w' = filter P (timers w) →
  nextTimerId w' = nextTimerId w →
  bufferTimeout w' = bufferTimeout w → checkInterval w' = checkInterval w →
  isMonitoring w' = isMonitoring w → monitoringActive w' = monitoringActive w →
  observer w' = observer w →
  pollInv w → pollInv w'.
Proof.
  intros HP Ht Hn Hb Hc HM HA HO
         (H1 & H2 & H3 & H4 & Hbound & Hnames & H5 & H6 & H7).
  assert (Hsub : ∀ tm, tm ∈ timers w' → tm ∈ timers w).
  { intros tm. rewrite Ht. by intros [_ ?]%list_elem_of_filter. }
  assert (Hpoll : ∀ tm, tm ∈ pollTimers w' ↔ tm ∈ pollTimers w).
  { intros tm. unfold pollTimers. rewrite Ht. split.
    - intros [Hcb [_ Hin]%list_elem_of_filter]%list_elem_of_filter.
      by apply list_elem_of_filter.
    - intros Hin. pose proof (HP _ Hin) as HPtm.
      apply list_elem_of_filter in Hin as [Hcb Hin].
      apply list_elem_of_filter. split; [done|]. by apply list_elem_of_filter. }
  unfold pollInv. rewrite Hb, Hc, HM, HA, HO, Hn.
  split; [done|]. split; [done|].
  split; [intros tm Hin; by apply H3, Hsub|]. split; [done|]. split; [done|].
  split; [intros tm Hin; by apply Hnames, Hsub|].
  split; [intros tm Hin; by apply H5, Hpoll|].
  split; [intros tm Hin; by apply H6, Hsub|].
  destruct (isMonitoring w).
  - destruct H7 as [tm Htm]. exists tm. by apply Hpoll.
  - apply elem_of_nil_inv. intros tm Htm%Hpoll. rewrite H7 in Htm.
    exact (not_elem_of_nil _ Htm).
Qed.

(* Cancelling the handle held in bufferTimeout never removes the poll. *)
Lemma pollInv_cancel_held w :
  pollInv w → pollInv (set_timers (cancel (bufferTimeout w) (timers w)) w).
Proof.
  intros Hinv. destruct (bufferTimeout w) as [b|] eqn:Hb;
    [|revert Hinv; by apply pollInv_view].
  apply (pollInv_filter w _ (λ tm, tid tm ≠ b)); [|done..].
  intros tm [Hcb Hin]%list_elem_of_filter Heq.
  destruct Hinv as (_ & _ & H3 & _).
  rewrite <- Heq in Hb. apply (H3 _ Hin) in Hb. congruence.
Qed.

Lemma pollInv_hideOverlay w : pollInv w → pollInv (hideOverlay w).
Proof.
  unfold hideOverlay. destruct (translationOverlay w); [|done]. by apply pollInv_view.
Qed.

Lemma pollInv_displayTranslation data w :
  wellFormedTimers w → pollInv w → pollInv (displayTranslation data w).
Proof.
  intros Hwf Hinv. unfold displayTranslation.
  destruct (translationOverlay w); [|done].
  apply (pollInv_alloc w _ (clock w + 10000) CbHideOverlay); try done. by left.
Qed.

Lemma pollInv_fetchSettled text o w :
  wellFormedTimers w → pollInv w → pollInv (fetchSettled text o w).
Proof.
  intros Hwf Hinv. unfold fetchSettled. case_bool_decide; [|done].
  apply pollInv_displayTranslation; [done|]. revert Hinv. by apply pollInv_view.
Qed.

Lemma pollInv_onMutations shouldCheck w :
  wellFormedTimers w → pollInv w → pollInv (onMutations shouldCheck w).
Proof.
  intros Hwf Hinv. unfold onMutations. repeat (case_match; [done|]).
  destruct shouldCheck; [|done].
  apply (pollInv_alloc w _ (clock w + 2000) CbMutationCheck); try done. by left.
Qed.

Lemma pollInv_addToWordBuffer text w :
  wellFormedTimers w → pollInv w → pollInv (addToWordBuffer text w).
Proof.
  intros Hwf Hinv. unfold addToWordBuffer.
  case_bool_decide; [done|]. case_bool_decide; [done|].
  set (buffer := if truthy (wordBuffer w) then _ else _). cbv zeta.
  change (bufferTimeout (set_wordBuffer buffer w)) with (bufferTimeout w).
  pose proof (pollInv_cancel_held w Hinv) as Hinv1.
  assert (Hwf1 : wellFormedTimers (set_timers (cancel (bufferTimeout w) (timers w)) w)).
  { intros tm Hin. apply Hwf. cbn in Hin. by apply cancel_subset in Hin. }
  revert Hinv1 Hwf1. destruct (bufferTimeout w) as [b|]; cbn [cancel]; intros Hinv1 Hwf1.
  - apply (pollInv_alloc _ _ (clock w + 2000) CbProcessWordBuffer
             ltac:(discriminate) Hwf1); try done. by right.
  - apply (pollInv_alloc _ _ (clock w + 2000) CbProcessWordBuffer
             ltac:(discriminate) Hwf1); try done. by right.
Qed.

Lemma pollInv_processWordBuffer w :
  wellFormedTimers w → pollInv w → pollInv (processWordBuffer w).
Proof.
  intros Hwf Hinv. unfold processWordBuffer.
  destruct (0 <? _)%nat; [|done].
  case_bool_decide; [revert Hinv; by apply pollInv_view|].
  case_bool_decide; [revert Hinv; by apply pollInv_view|].
  destruct (_ <? 2000)%Z.
  - apply (pollInv_alloc w _ (clock w + 2000) CbProcessWordBuffer); try done.
    by right.
  - revert Hinv. apply pollInv_view;
      unfold sendForTranslation, markProcessed; destruct (negb _); reflexivity.
Qed.

Lemma pollInv_onCaptionFound element text w :
  wellFormedTimers w → pollInv w → pollInv (onCaptionFound element text w).
Proof.
  intros Hwf Hinv. unfold onCaptionFound.
  destruct (isFirstCaption w); [revert Hinv; by apply pollInv_view|].
  case_bool_decide; [done|]. destruct (negb _); [|done].
  assert (Hlast : pollInv (set_lastProcessedText text w))
    by (revert Hinv; by apply pollInv_view).
  case_bool_decide.
  - destruct (_ <? _)%nat.
    + destruct (_ && _).
      * apply (pollInv_view (addToWordBuffer
                 (extractNewWords (lastProcessedText w) text)
                 (set_lastProcessedText text w))); [done..|].
        by apply pollInv_addToWordBuffer.
      * revert Hinv. by apply pollInv_view.
    + revert Hinv. by apply pollInv_view.
  - apply (pollInv_view (addToWordBuffer text (set_lastProcessedText text w)));
      [done..|].
    by apply pollInv_addToWordBuffer.
Qed.

Lemma pollInv_checkForClosedCaptions w :
  wellFormedTimers w → pollInv w → pollInv (checkForClosedCaptions w).
Proof.
  intros Hwf Hinv. unfold checkForClosedCaptions.
  destruct (negb _); [done|]. destruct (locateCaption w) as [[el text]|]; [|done].
  destruct (truthy text); [|done]. by apply pollInv_onCaptionFound.
Qed.

Lemma pollTimers_none w :
  pollInv w → isMonitoring w = false → pollTimers w = [].
Proof. intros (_ & _ & _ & _ & _ & _ & _ & _ & H7) HM. by rewrite HM in H7. Qed.

Lemma pollInv_startCaptionDetection w :
  wellFormedTimers w → pollInv w → pollInv (startCaptionDetection w).
Proof.
  intros Hwf Hinv. unfold startCaptionDetection, setupMutationObserver, setInterval.
  destruct (isMonitoring w) eqn:HM; [done|]. cbv beta iota zeta.
  pose proof Hinv as (H1 & H2 & H3 & H4 & Hbound & Hnames & H5 & H6 & H7).
  pose proof (pollTimers_none w Hinv HM) as Hnone.
  apply pollInv_checkForClosedCaptions.
  { intros tm. cbn. intros [Hin| ->%list_elem_of_singleton]%elem_of_app.
    - apply Hwf in Hin. lia.
    - cbn. lia. }
  unfold pollInv, pollTimers. cbn.
  rewrite filter_app. fold (pollTimers w). rewrite Hnone. cbn.
  split; [done|]. split; [done|].
  split; [|split; [|split; [|split; [|split; [|split]]]]].
  - intros tm [Hin| ->%list_elem_of_singleton]%elem_of_app Hheld; [by apply H3|].
    apply H4 in Hheld. cbn in Hheld. lia.
  - intros b Hb. apply H4 in Hb. lia.
  - intros c [= <-]. lia.
  - intros tm [Hin| ->%list_elem_of_singleton]%elem_of_app Hheld; [|done].
    apply Hwf in Hin. injection Hheld as Heq. rewrite Heq in Hin. lia.
  - by intros tm ->%list_elem_of_singleton.
  - intros tm [Hin| ->%list_elem_of_singleton]%elem_of_app; [by apply H6 | done].
  - eexists. left.
Qed.

Lemma pollInv_stopCaptionDetection w : pollInv w → pollInv (stopCaptionDetection w).
Proof.
  intros (H1 & H2 & H3 & H4 & Hbound & Hnames & H5 & H6 & H7).
  rewrite stopCaptionDetection_closed_form.
  assert (Hnone : ∀ tm,
    tm ∈ filter (λ t, callback t = CbIntervalCheck)
           (cancel (bufferTimeout w) (cancel (checkInterval w) (timers w))) → False).
  { intros tm [Hcb Hin]%list_elem_of_filter.
    apply cancel_subset in Hin.
    assert (Hpoll : tm ∈ pollTimers w).
    { apply list_elem_of_filter. split; [done|]. by apply cancel_subset in Hin. }
    apply H5 in Hpoll as [Hc _]. rewrite Hc in Hin. cbn in Hin.
    by apply list_elem_of_filter in Hin as [? _]. }
  unfold pollInv, pollTimers. cbn.
  split; [done|]. split; [done|]. split; [done|]. split; [done|].
  split; [done|]. split; [done|].
  split; [|split].
  - intros tm Hin. exfalso. by apply (Hnone tm).
  - intros tm Hin. apply H6. by do 2 apply cancel_subset in Hin.
  - apply elem_of_nil_inv. intros tm Hin. by apply (Hnone tm).
Qed.

Lemma pollInv_rearm id p w tm :
  NoDup (tid <$> timers w) →
  tm ∈ timers w → tid tm = id → period tm = Some p →
  pollInv w → pollInv (rearm id p w).
Proof.
  intros Hnd Hin Hid Hp (H1 & H2 & H3 & H4 & Hbound & Hnames & H5 & H6 & H7).
  assert (Hsame : ∀ t, t ∈ timers w → tid t = id → t = tm).
  { intros t Ht Heq. apply list_elem_of_lookup in Ht as [i Hi].
    apply list_elem_of_lookup in Hin as [j Hj].
    assert (i = j) as ->; [|congruence].
    eapply NoDup_lookup; [exact Hnd | |].
    - rewrite list_lookup_fmap, Hi. reflexivity.
    - rewrite list_lookup_fmap, Hj. cbn. congruence. }
  assert (Hmem : ∀ t, t ∈ timers (rearm id p w) →
                 ∃ t0, t0 ∈ timers w ∧ tid t = tid t0 ∧ callback t = callback t0
                       ∧ period t = period t0).
  { intros t. cbn. intros [t0 [-> Ht0]]%list_elem_of_fmap. exists t0.
    split; [done|]. case_bool_decide as Heq; [|done]. cbn.
    rewrite (Hsame _ Ht0 Heq). done. }
  assert (Hback : ∀ t0, t0 ∈ timers w →
                  ∃ t, t ∈ timers (rearm id p w) ∧ tid t = tid t0
                       ∧ callback t = callback t0).
  { intros t0 Ht0. eexists. split; [cbn; by apply list_elem_of_fmap_2|].
    by case_bool_decide. }
  unfold pollInv.
  change (isMonitoring (rearm id p w)) with (isMonitoring w).
  change (monitoringActive (rearm id p w)) with (monitoringActive w).
  change (observer (rearm id p w)) with (observer w).
  change (bufferTimeout (rearm id p w)) with (bufferTimeout w).
  change (checkInterval (rearm id p w)) with (checkInterval w).
  change (nextTimerId (rearm id p w)) with (nextTimerId w).
  split; [done|]. split; [done|].
  split; [|split; [done|split; [done|split; [|split; [|split]]]]].
  - intros t Ht Hheld. apply Hmem in Ht as (t0 & Ht0 & Htid & Hcb & _).
    rewrite Hcb. apply H3; [done | by rewrite <- Htid].
  - intros t Ht Hheld. apply Hmem in Ht as (t0 & Ht0 & Htid & Hcb & _).
    rewrite Hcb. apply Hnames; [done | by rewrite <- Htid].
  - intros t [Hcb Ht]%list_elem_of_filter.
    apply Hmem in Ht as (t0 & Ht0 & Htid & Hcb0 & Hper).
    rewrite Htid, Hper. apply H5, list_elem_of_filter. by rewrite <- Hcb0.
  - intros t Ht Hcb. apply Hmem in Ht as (t0 & Ht0 & _ & Hcb0 & Hper).
    rewrite Hper. apply H6; [done | by rewrite <- Hcb0].
  - destruct (isMonitoring w).
    + destruct H7 as [t0 [Hcb0 Ht0]%list_elem_of_filter].
      apply Hback in Ht0 as (t & Ht & _ & Hcb). exists t.
      apply list_elem_of_filter. by rewrite Hcb.
    + apply elem_of_nil_inv. intros t [Hcb Ht]%list_elem_of_filter.
      apply Hmem in Ht as (t0 & Ht0 & _ & Hcb0 & _).
      assert (Hin0 : t0 ∈ pollTimers w)
        by (apply list_elem_of_filter; by rewrite <- Hcb0).
      rewrite H7 in Hin0. exact (not_elem_of_nil _ Hin0).
Qed.

Lemma pollInv_fireTimer id w :
  poolInv w → pollInv w → pollInv (fireTimer id w).
Proof.
  intros Hpool Hinv. pose proof Hpool as (Hwf & Hnd & _ & _).
  unfold fireTimer.
  destruct (findTimer id w) as [tm|] eqn:Hfind; [|done].
  apply findTimer_Some in Hfind as [Hin Hid].
  destruct (due tm <=? clock w)%Z; [|done].
  assert (Hinv1 : pollInv (match period tm with
                           | Some p => rearm id p w
                           | None => clearTimeout id w
                           end)).
  { destruct (period tm) as [p|] eqn:Hp; [by apply (pollInv_rearm id p w tm)|].
    apply (pollInv_filter w _ (λ t, tid t ≠ id)); [|done..].
    intros t Ht Heq. pose proof Hinv as (_ & _ & _ & _ & _ & _ & H5 & _).
    pose proof (H5 _ Ht) as [_ Hper].
    apply list_elem_of_filter in Ht as [_ Ht].
    assert (t = tm) as ->; [|congruence].
    apply list_elem_of_lookup in Ht as [i Hi].
    apply list_elem_of_lookup in Hin as [j Hj].
    assert (i = j) as ->; [|congruence].
    eapply NoDup_lookup; [exact Hnd | |].
    - rewrite list_lookup_fmap, Hi. reflexivity.
    - rewrite list_lookup_fmap, Hj. cbn. congruence. }
  assert (Hwf1 : wellFormedTimers (match period tm with
                                   | Some p => rearm id p w
                                   | None => clearTimeout id w
                                   end)).
  { destruct (period tm) as [p|].
    - intros t. cbn. intros [t0 [-> Ht0]]%list_elem_of_fmap.
      case_bool_decide; [cbn; rewrite <- Hid; by apply Hwf | by apply Hwf].
    - intros t. cbn. intros [_ Ht]%list_elem_of_filter. by apply Hwf. }
  revert Hinv1 Hwf1. generalize (match period tm with
                                 | Some p => rearm id p w
                                 | None => clearTimeout id w
                                 end). intros w1 Hinv1 Hwf1.
  destruct (callback tm); cbn [runCallback].
  - by apply pollInv_processWordBuffer.
  - destruct (monitoringActive w1); [|done]. by apply pollInv_checkForClosedCaptions.
  - destruct (monitoringActive w1); [|done]. by apply pollInv_checkForClosedCaptions.
  - by apply pollInv_hideOverlay.
Qed.

Lemma pollInv_step e w : poolInv w → pollInv w → pollInv (step e w).
Proof.
  intros Hpool Hinv. pose proof Hpool as (Hwf & _). destruct e; cbn [step].
  - destruct (_ <=? _)%Z; [|done]. revert Hinv. by apply pollInv_view.
  - by apply pollInv_fireTimer.
  - revert Hinv. by apply pollInv_view.
  - by apply pollInv_onMutations.
  - apply pollInv_startCaptionDetection; [done|]. revert Hinv. by apply pollInv_view.
  - by apply pollInv_stopCaptionDetection.
  - by apply pollInv_checkForClosedCaptions.
  - by apply pollInv_fetchSettled.
Qed.

Lemma pollInv_run es w : poolInv w → pollInv w → pollInv (run es w).
Proof.
  revert w. induction es as [|e es IH]; intros w Hpool Hinv; [done|].
  cbn. apply IH; [by apply poolInv_step | by apply pollInv_step].
Qed.

Lemma pollInv_initial t0 c : pollInv (initial t0 c).
Proof.
  unfold pollInv, pollTimers. cbn.
  split; [done|]. split; [done|].
  split; [intros tm Htm; by apply not_elem_of_nil in Htm|].
  split; [discriminate|]. split; [discriminate|].
  split; [intros tm Htm; by apply not_elem_of_nil in Htm|].
  split; [intros tm Htm; by apply not_elem_of_nil in Htm|].
  split; [intros tm Htm; by apply not_elem_of_nil in Htm | done].
Qed.

End Poll.

(* ===================================================================== *)
(* 29. destroy                                                           *)
(* ===================================================================== *)

Section Destroy.

Lemma destroy_closed_form w :
  fst (destroy w)
  = mkWorld false (lastProcessedText w) (processedWords w) (translationOverlay w)
      (targetLanguage w) (isConnected w) false (checkInterval w)
      (monitoringActive w) (lastTranslationTime w) (wordBuffer w)
      (bufferTimeout w) (processedTexts w) (skippedTexts w) (isFirstCaption w)
      (lastSeenCaptionElement w) (clock w)
      (cancel (checkInterval w) (timers w))
      (nextTimerId w) (caption w) (sendCalls w) (inflight w).
Proof.
  destruct w as [isM lastT pWords ovl lang conn obs chk act lastTime buf
                 bufT pTexts sTexts first lastEl clk tms nextId cap calls infl].
  destruct obs, chk as [idc|]; reflexivity.
Qed.

Lemma find_filter {A} (p : A → bool) (Q : A → Prop) `{!∀ x, Decision (Q x)}
    (l : list A) (x : A) :
  List.find p l = Some x → Q x → List.find p (filter Q l) = Some x.
Proof.
  intros Hfind HQ. induction l as [|y l IH]; [done|].
  cbn in Hfind. rewrite filter_cons. destruct (p y) eqn:Hp.
  - injection Hfind as ->. rewrite decide_True by done. cbn. by rewrite Hp.
  - destruct (decide (Q y)); [cbn; rewrite Hp|]; by apply IH.
Qed.

(* The handle of the poll names no other timer. *)
Lemma poll_handle w tm :
  poolInv w → pollInv w →
  tm ∈ timers w → checkInterval w = Some (tid tm) → callback tm = CbIntervalCheck.
Proof.
  intros _ (_ & _ & _ & _ & _ & Hnames & _) Hin Hc. by apply Hnames.
Qed.

Lemma destroy_keeps tm w :
  poolInv w → pollInv w →
  tm ∈ timers w → callback tm ≠ CbIntervalCheck → tm ∈ timers (fst (destroy w)).
Proof.
  intros Hpool Hpoll Hin Hcb. rewrite destroy_closed_form. cbn [timers].
  destruct (checkInterval w) as [c|] eqn:Hc; [|done]. cbn [cancel].
  apply list_elem_of_filter. split; [|done]. intros Heq. apply Hcb.
  apply (poll_handle w); [done..|]. by rewrite Heq.
Qed.

Lemma destroy_pollTimers w : pollInv w → pollTimers (fst (destroy w)) = [].
Proof.
  intros (_ & _ & _ & _ & _ & _ & H5 & _). rewrite destroy_closed_form.
  apply elem_of_nil_inv. intros tm [Hcb Hin]%list_elem_of_filter.
  cbn [timers] in Hin.
  assert (Hpoll : tm ∈ pollTimers w).
  { apply list_elem_of_filter. split; [done|]. by apply cancel_subset in Hin. }
  apply H5 in Hpoll as [Hc _]. rewrite Hc in Hin. cbn [cancel] in Hin.
  by apply list_elem_of_filter in Hin as [? _].
Qed.

Lemma poolInv_destroy w : poolInv w → poolInv (fst (destroy w)).
Proof.
  intros Hpool. rewrite destroy_closed_form.
  destruct (checkInterval w) as [c|]; cbn [cancel].
  - by apply (poolInv_filter w _ (λ tm, tid tm ≠ c)).
  - revert Hpool. by apply poolInv_view.
Qed.

Lemma dueInv_destroy w : dueInv w → dueInv (fst (destroy w)).
Proof.
  intros Hdue. rewrite destroy_closed_form.
  destruct (checkInterval w) as [c|]; cbn [cancel].
  - by apply (dueInv_filter w _ (λ tm, tid tm ≠ c)).
  - revert Hdue. by apply dueInv_view.
Qed.

Lemma pollInv_destroy w : pollInv w → pollInv (fst (destroy w)).
Proof.
  intros Hinv. pose proof (destroy_pollTimers w Hinv) as Hnone.
  destruct Hinv as (H1 & H2 & H3 & H4 & Hbound & Hnames & H5 & H6 & H7).
  assert (Hsub : ∀ tm, tm ∈ timers (fst (destroy w)) → tm ∈ timers w).
  { intros tm. rewrite destroy_closed_form. cbn [timers]. apply cancel_subset. }
  unfold pollInv. rewrite Hnone.
  split; [by rewrite destroy_closed_form|].
  split; [by rewrite destroy_closed_form|].
  split; [intros tm Hin%Hsub; rewrite destroy_closed_form; by apply H3|].
  split; [rewrite destroy_closed_form; exact H4|].
  split; [rewrite destroy_closed_form; exact Hbound|].
  split; [intros tm Hin%Hsub; rewrite destroy_closed_form; by apply Hnames|].
  split; [intros tm Hin; by apply not_elem_of_nil in Hin|].
  split; [intros tm Hin%Hsub; by apply H6|].
  by rewrite destroy_closed_form.
Qed.

Lemma recordView_destroy w : recordView (fst (destroy w)) = recordView w.
Proof. by rewrite destroy_closed_form. Qed.

End Destroy.

(** X16: destroy does not stop the pipeline. In every state reached from
    a detector constructed at a time t0 >= 0, destroy removes the 250 ms
    poll and nothing else from the timer pool and leaves monitoringActive,
    the word buffer and bufferTimeout as they are: a pending flush stays
    pending, and when it is due after the destroy it still sends a
    non-blank buffer whose text is not in processedTexts. *)
Theorem destroy_keeps_pending_flush (t0 : Z) (c : option (Element * string))
    (es : list Event) (id : TimerId) (tm : Timer) :
  (0 <= t0)%Z →
  let w := run es (initial t0 c) in
  let w' := fst (destroy w) in
  findTimer id w = Some tm → callback tm = CbProcessWordBuffer →
  (due tm <= clock w)%Z →
  trim (wordBuffer w) ≠ "" → wordBuffer w ∉ processedTexts w →
  isMonitoring w' = false
  ∧ monitoringActive w' = monitoringActive w
  ∧ pollTimers w' = []
  ∧ (∀ t, t ∈ timers w → callback t ≠ CbIntervalCheck → t ∈ timers w')
  ∧ findTimer id w' = Some tm
  ∧ sendCalls (fireTimer id w') = (sendCalls w ++ [wordBuffer w])%list.
Proof.
  intros Ht0 w w' Hfind Hcb Hfire Hb Hp.
  assert (Hpool : poolInv w) by apply poolInv_run, poolInv_initial.
  assert (Hpoll : pollInv w)
    by (apply pollInv_run; [apply poolInv_initial | apply pollInv_initial]).
  assert (Hdue : dueInv w).
  { apply fullInv_run; [apply poolInv_initial|]. split; [cbn; lia|].
    intros t Ht. by apply not_elem_of_nil in Ht. }
  assert (Hskip : skippedTexts w = ∅).
  { assert (Hr : recordInv w); [|apply Hr].
    apply recordInv_run. split; [reflexivity|]. split; [reflexivity|].
    intros x Hx. by apply not_elem_of_empty in Hx. }
  subst w'. clearbody w.
  pose proof (findTimer_Some _ _ _ Hfind) as [Hin Hid].
  assert (Hfind' : findTimer id (fst (destroy w)) = Some tm).
  { rewrite destroy_closed_form. unfold findTimer. cbn [timers].
    destruct (checkInterval w) as [ci|] eqn:Hc; [|done]. cbn [cancel].
    apply find_filter; [done|]. intros Heq.
    assert (callback tm = CbIntervalCheck); [|congruence].
    apply (poll_handle w); [done..|]. by rewrite Heq. }
  split; [by rewrite destroy_closed_form|].
  split; [by rewrite destroy_closed_form|].
  split; [by apply destroy_pollTimers|].
  split; [intros t Ht Hcbt; by apply destroy_keeps|].
  split; [done|].
  destruct (fireTimer_flush_unthrottled id tm (fst (destroy w)))
    as (Hth & -> & _);
    [by apply poolInv_destroy | by apply dueInv_destroy | done | done | |].
  { by rewrite destroy_closed_form. }
  rewrite processWordBuffer_sends.
  - unfold sendForTranslation, markProcessed. rewrite destroy_closed_form.
    by destruct (negb _).
  - by rewrite destroy_closed_form.
  - rewrite destroy_closed_form. cbn. rewrite Hskip. apply not_elem_of_empty.
  - by rewrite destroy_closed_form.
  - rewrite destroy_closed_form in Hth |- *. exact Hth.
Qed.

Lemma destroy_keeps_pending_flush_witness :
  (0 <= 1000)%Z
  ∧ findTimer 2%positive (run helloDue (initial 1000 (Some (E1, "Hello"))))
    = Some (mkTimer 2%positive 3750 None CbProcessWordBuffer)
  ∧ monitoringActive (fst (destroy (run helloDue (initial 1000 (Some (E1, "Hello"))))))
    = true
  ∧ sendCalls (fireTimer 2%positive
                 (fst (destroy (run helloDue (initial 1000 (Some (E1, "Hello")))))))
    = ["Hello there"].
Proof.
  assert (Ht0 : (0 <= 1000)%Z) by lia.
  assert (Hfind : findTimer 2%positive (run helloDue (initial 1000 (Some (E1, "Hello"))))
                  = Some (mkTimer 2%positive 3750 None CbProcessWordBuffer))
    by (vm_compute; reflexivity).
  assert (Hfire : (due (mkTimer 2%positive 3750 None CbProcessWordBuffer)
                   <= clock (run helloDue (initial 1000 (Some (E1, "Hello")))))%Z)
    by (vm_compute; discriminate).
  assert (Hb : trim (wordBuffer (run helloDue (initial 1000 (Some (E1, "Hello"))))) ≠ "")
    by (vm_compute; discriminate).
  assert (Hp : wordBuffer (run helloDue (initial 1000 (Some (E1, "Hello"))))
               ∉ processedTexts (run helloDue (initial 1000 (Some (E1, "Hello")))))
    by by_compute.
  destruct (destroy_keeps_pending_flush 1000 (Some (E1, "Hello")) helloDue 2%positive
              _ Ht0 Hfind eq_refl Hfire Hb Hp) as (_ & Hact & _ & _ & _ & Hsend).
  split; [exact Ht0|]. split; [exact Hfind|]. split.
  - etrans; [exact Hact|]. vm_compute; reflexivity.
  - etrans; [exact Hsend|]. vm_compute; reflexivity.
Defined.

(* ===================================================================== *)
(* 30. Every way into the detector                                       *)
(* ===================================================================== *)

Section Reachable.

Lemma invokeAll_page es w : invokeAll (map Page es) w = run es w.
Proof. revert w. induction es as [|e es IH]; intros w; [done|]. cbn. apply IH. Qed.

Lemma reachable_run es t0 c : reachable (run es (initial t0 c)).
Proof. exists t0, c, (map Page es). by rewrite invokeAll_page. Qed.

Lemma sendForTranslation_fields text w :
  timers (sendForTranslation text w) = timers w
  ∧ nextTimerId (sendForTranslation text w) = nextTimerId w
  ∧ bufferTimeout (sendForTranslation text w) = bufferTimeout w
  ∧ checkInterval (sendForTranslation text w) = checkInterval w
  ∧ isMonitoring (sendForTranslation text w) = isMonitoring w
  ∧ monitoringActive (sendForTranslation text w) = monitoringActive w
  ∧ observer (sendForTranslation text w) = observer w
  ∧ skippedTexts (sendForTranslation text w) = skippedTexts w
  ∧ processedWords (sendForTranslation text w) = processedWords w
  ∧ processedTexts (sendForTranslation text w) = processedTexts w
  ∧ sendCalls (sendForTranslation text w) = (sendCalls w ++ [text])%list.
Proof. unfold sendForTranslation. by destruct (negb _). Qed.

Lemma poolInv_invoke c w : poolInv w → poolInv (invoke c w).
Proof.
  intros Hinv. destruct c as [e| | | |text]; cbn [invoke].
  - by apply poolInv_step.
  - by apply poolInv_destroy.
  - by apply poolInv_checkForClosedCaptions.
  - done.
  - destruct (sendForTranslation_fields text w) as (? & ? & ? & _).
    revert Hinv. by apply poolInv_view.
Qed.

Lemma recordInv_invoke c w : recordInv w → recordInv (invoke c w).
Proof.
  intros Hinv. destruct c as [e| | | |text]; cbn [invoke].
  - by apply recordInv_step.
  - revert Hinv. apply recordInv_view, recordView_destroy.
  - revert Hinv. apply recordInv_view, recordView_checkForClosedCaptions.
  - done.
  - destruct Hinv as (Hs & Hw & Hp).
    destruct (sendForTranslation_fields text w)
      as (_ & _ & _ & _ & _ & _ & _ & Hs' & Hw' & Hp' & Hc').
    unfold recordInv. rewrite Hs', Hw', Hp', Hc'.
    split; [done|]. split; [done|].
    intros x Hx. apply elem_of_app. left. by apply Hp.
Qed.

Lemma pollInv_invoke c w : poolInv w → pollInv w → pollInv (invoke c w).
Proof.
  intros Hpool Hinv. pose proof Hpool as (Hwf & _).
  destruct c as [e| | | |text]; cbn [invoke].
  - by apply pollInv_step.
  - by apply pollInv_destroy.
  - by apply pollInv_checkForClosedCaptions.
  - done.
  - destruct (sendForTranslation_fields text w)
      as (? & ? & ? & ? & ? & ? & ? & _).
    revert Hinv. by apply pollInv_view.
Qed.

Lemma invariants_reachable w : reachable w → poolInv w ∧ recordInv w ∧ pollInv w.
Proof.
  intros (t0 & c & cs & ->).
  assert (Hinit : poolInv (initial t0 c) ∧ recordInv (initial t0 c)
                  ∧ pollInv (initial t0 c)).
  { split; [apply poolInv_initial|]. split; [|apply pollInv_initial].
    split; [reflexivity|]. split; [reflexivity|].
    intros x Hx. by apply not_elem_of_empty in Hx. }
  revert Hinit. generalize (initial t0 c).
  induction cs as [|c' cs IH]; intros w Hinv; [done|].
  cbn. apply IH. destruct Hinv as (Hpool & Hrec & Hpoll).
  split; [by apply poolInv_invoke|].
  split; [by apply recordInv_invoke | by apply pollInv_invoke].
Qed.

End Reachable.

(** X7: in every state a detector can reach, at most one flush of the word
    buffer is pending; it is a one-shot timeout and its handle is the one
    held in bufferTimeout. Timer handles in the pool are pairwise distinct
    and below the next handle to be handed out. *)
Theorem at_most_one_pending_flush (w : World) :
  reachable w →
  (List.length (flushTimers w) <= 1)%nat
  ∧ (∀ tm, tm ∈ flushTimers w →
       bufferTimeout w = Some (tid tm) ∧ period tm = None)
  ∧ NoDup (tid <$> timers w)
  ∧ wellFormedTimers w.
Proof.
  intros [(Hwf & Hnd & Hown & Hone) _]%invariants_reachable.
  split; [|split; [|split]]; [|by split; [apply Hown | apply Hone]|done..].
  assert (Hnd' : NoDup (tid <$> flushTimers w)).
  { eapply sublist_NoDup; [exact Hnd | apply fmap_sublist, sublist_filter]. }
  destruct (flushTimers w) as [|t1 [|t2 l]] eqn:Hf; cbn; [lia..|].
  exfalso.
  assert (H1 : bufferTimeout w = Some (tid t1)) by (apply Hown; rewrite Hf; left).
  assert (H2 : bufferTimeout w = Some (tid t2))
    by (apply Hown; rewrite Hf; right; left).
  cbn in Hnd'. apply NoDup_cons in Hnd' as [Hnot _]. apply Hnot.
  assert (tid t1 = tid t2) as -> by congruence. left.
Qed.

Lemma at_most_one_pending_flush_witness :
  reachable helloThere
  ∧ flushTimers helloThere = [mkTimer 2%positive 3750 None CbProcessWordBuffer]
  ∧ bufferTimeout helloThere = Some 2%positive.
Proof.
  assert (Hr : reachable helloThere).
  { exists 1000, (Some (E1, "Hello")), (map Page helloObserved).
    symmetry. apply invokeAll_page. }
  destruct (at_most_one_pending_flush helloThere Hr) as (_ & Hown & _).
  assert (Hf : flushTimers helloThere
               = [mkTimer 2%positive 3750 None CbProcessWordBuffer])
    by (vm_compute; reflexivity).
  split; [exact Hr|]. split; [exact Hf|].
  destruct (Hown (mkTimer 2%positive 3750 None CbProcessWordBuffer)) as [Hb _];
    [rewrite Hf; left | exact Hb].
Defined.

(** X8: in every state a detector can reach, skippedTexts and
    processedWords are empty, so the permanently-skipped checks of
    checkForClosedCaptions, addToWordBuffer and processWordBuffer never
    fire; every text in processedTexts has been passed to
    sendForTranslation; and addToWordBuffer ignores a text exactly when
    that text is in processedTexts. *)
Theorem records_of_reachable_states (w : World) :
  reachable w →
  skippedTexts w = ∅
  ∧ processedWords w = ∅
  ∧ (∀ x, x ∈ processedTexts w → x ∈ sendCalls w)
  ∧ (∀ text, addToWordBuffer text w = w ↔ text ∈ processedTexts w).
Proof.
  intros (_ & (Hs & Hw & Hp) & _)%invariants_reachable.
  split; [done|]. split; [done|]. split; [done|].
  intros text. split; [|intros Hin; apply addToWordBuffer_seen; by right].
  intros Heq. destruct (decide (text ∈ processedTexts w)) as [Hin|Hnot]; [done|].
  exfalso.
  destruct (addToWordBuffer_fresh text w)
    as (_ & _ & _ & Hnext & _); [rewrite Hs; apply not_elem_of_empty | done |].
  rewrite Heq in Hnext. by apply Pos.succ_discr in Hnext.
Qed.

Lemma records_of_reachable_states_witness :
  reachable yesSent
  ∧ skippedTexts yesSent = ∅
  ∧ ("yes" ∈ sendCalls yesSent).
Proof.
  assert (Hr : reachable yesSent).
  { exists 1000, (Some (E1, "Hello")), (map Page yesScenario).
    symmetry. apply invokeAll_page. }
  destruct (records_of_reachable_states yesSent Hr) as (Hs & _ & Hp & _).
  split; [exact Hr|]. split; [exact Hs|].
  apply Hp. by_compute.
Defined.

(** X15: in every state a detector can reach, by the events of the page
    or by the public methods and hooks, destroy among them, the observer
    is connected exactly when isMonitoring is set, isMonitoring implies
    monitoringActive, and the 250 ms poll is pending exactly while
    isMonitoring: one interval timer, whose handle is the one held in
    checkInterval, while it is set, and none when it is not. No other
    timer is an interval, so neither a repeated start nor a start after
    destroy installs a second poll, and stop and destroy always remove it.
    The converse of the implication fails: destroy leaves monitoringActive
    set. *)
Theorem one_poll_while_monitoring (w : World) :
  reachable w →
  (isMonitoring w = true → monitoringActive w = true)
  ∧ observer w = isMonitoring w
  ∧ (isMonitoring w = true →
       ∃ id, checkInterval w = Some id
             ∧ ∃ due, pollTimers w = [mkTimer id due (Some 250) CbIntervalCheck])
  ∧ (isMonitoring w = false → pollTimers w = [])
  ∧ (∀ tm, tm ∈ timers w → period tm ≠ None → tm ∈ pollTimers w)
  ∧ ∃ w', reachable w' ∧ isMonitoring w' = false ∧ monitoringActive w' = true.
Proof.
  intros (Hpool & _ & Hpoll)%invariants_reachable.
  pose proof Hpool as (_ & Hnd & _ & _).
  pose proof Hpoll as (H1 & H2 & _ & _ & _ & _ & H5 & H6 & H7).
  split; [done|]. split; [done|]. split; [|split; [|split]].
  - intros HM. rewrite HM in H7. destruct H7 as [tm Htm].
    pose proof (H5 _ Htm) as [Hc Hper]. exists (tid tm). split; [done|].
    exists (due tm).
    assert (Hnd' : NoDup (tid <$> pollTimers w)).
    { eapply sublist_NoDup; [exact Hnd | apply fmap_sublist, sublist_filter]. }
    assert (Hall : ∀ t, t ∈ pollTimers w
                   → t = mkTimer (tid tm) (due tm) (Some 250) CbIntervalCheck).
    { intros t Ht. pose proof (H5 _ Ht) as [Hct Hpt].
      assert (t = tm) as ->.
      { apply list_elem_of_lookup in Ht as [i Hi].
        apply list_elem_of_lookup in Htm as [j Hj].
        assert (i = j) as ->; [|congruence].
        eapply NoDup_lookup; [exact Hnd' | |].
        - rewrite list_lookup_fmap, Hi. reflexivity.
        - rewrite list_lookup_fmap, Hj. cbn. congruence. }
      apply list_elem_of_filter in Ht as [Hcb _].
      destruct tm; cbn in *. congruence. }
    destruct (pollTimers w) as [|t1 [|t2 l]] eqn:Hp.
    + by apply not_elem_of_nil in Htm.
    + f_equal. apply Hall. left.
    + exfalso. cbn in Hnd'. apply NoDup_cons in Hnd' as [Hnot _]. apply Hnot.
      rewrite (Hall t1), (Hall t2) by (repeat constructor). left.
  - intros HM. by rewrite HM in H7.
  - intros tm Hin Hper. apply list_elem_of_filter. split; [|done].
    destruct (decide (callback tm = CbIntervalCheck)) as [|Hcb]; [done|].
    by apply H6 in Hcb.
  - exists (invokeAll [Page (StartMessage "es"); Destroy] (initial 0 None)).
    split; [by exists 0, None, [Page (StartMessage "es"); Destroy]|].
    split; vm_compute; reflexivity.
Qed.

Lemma one_poll_while_monitoring_witness :
  reachable restarted
  ∧ isMonitoring restarted = true
  ∧ checkInterval restarted = Some 3%positive
  ∧ pollTimers restarted = [mkTimer 3%positive 2350 (Some 250) CbIntervalCheck].
Proof.
  assert (Hr : reachable restarted).
  { exists 1000, (Some (E1, "Hello")),
      (map Page helloObserved
       ++ [Destroy; Page (Tick 2100); Page (StartMessage "es")])%list.
    reflexivity. }
  assert (HM : isMonitoring restarted = true) by (vm_compute; reflexivity).
  destruct (one_poll_while_monitoring restarted Hr) as (_ & _ & Hon & _).
  destruct (Hon HM) as (id & Hc & due & Hp).
  assert (Hc' : checkInterval restarted = Some 3%positive)
    by (vm_compute; reflexivity).
  split; [exact Hr|]. split; [exact HM|]. split; [exact Hc'|].
  etrans; [exact Hp|]. rewrite Hc' in Hc. injection Hc as <-.
  assert (Hp' : pollTimers restarted
                = [mkTimer 3%positive 2350 (Some 250) CbIntervalCheck])
    by (vm_compute; reflexivity).
  rewrite Hp' in Hp. by injection Hp as <-.
Defined.
